(** * Plant-Growth-Analysis-Tool: panel extraction, coverage and growth

    A shallow embedding of the image pipeline of the repository:

    - [crop.py] and [src/plant_analysis/cropper.py]: [load_model] and
      [crop_front_panel] (detector boxes to one panel image);
    - [plant_analysis.py] and [src/plant_analysis/analyzer.py]:
      [enhance_image], [calculate_plant_percentage] and [compare_images].

    Conventions.  A Python [int] is a [Z].  A Python [float] is the
    rational number it denotes, and every float operation returns the
    exact result rounded to the nearest binary64 number, ties to even
    ([fl]); infinities, NaN and the exponent range are not modelled.  A
    numpy [uint8] sample is a [Z] in [0..255]; a numpy image of shape
    [(h, w, 3)] is a list of [h] rows of [w] pixels.  Exceptions are
    values of [exn]; code that logs, caches the detector or writes
    snapshots runs in the monad [M]. *)

From Stdlib Require Import String ZArith QArith Qround Qabs Qminmax Qpower Bool
  Lia Lqa Floats Uint63 List Permutation Sorted.
Import ListNotations.

Local Open Scope Z_scope.

(* ================================================================== *)
(** ** Python values and exceptions *)

Inductive exn : Type :=
| FileNotFoundError
| ValueError
| ZeroDivisionError
| ExternalError (code : nat).  (* any other [Exception] raised by a library *)

Inductive result (A : Type) : Type :=
| Ok (a : A)
| Raise (e : exn).
Arguments Ok {A} a.
Arguments Raise {A} e.

Definition rbind {A B : Type} (r : result A) (k : A -> result B) : result B :=
  match r with
  | Ok a => k a
  | Raise e => Raise e
  end.

(** *** Floats *)

Definition pyfloat : Type := Q.
Bind Scope Q_scope with pyfloat.

(** To the nearest integer, ties to the even one. *)
Definition round_half_even (q : Q) : Z :=
  let f := Qfloor q in
  match (q - inject_Z f ?= 1 # 2)%Q with
  | Lt => f
  | Gt => f + 1
  | Eq => if Z.even f then f else f + 1
  end.

Definition pow2 (e : Z) : Q := (2 ^ e)%Q.

(** The exponent [e] with [2^e <= q < 2^(e+1)], for a positive [q]: the
    difference of the bit lengths of numerator and denominator, or one
    less. *)
Definition binade (q : Q) : Z :=
  let k := Z.log2 (Qnum q) - Z.log2 (Zpos (Qden q)) in
  if Qle_bool (pow2 k) q then k else k - 1.

(** A positive [q] rounded to [prec] significant bits. *)
Definition round_pos (prec : Z) (q : Q) : Q :=
  let e := binade q - (prec - 1) in
  (inject_Z (round_half_even (q / pow2 e)) * pow2 e)%Q.

(** [q] rounded to the nearest number with [prec] significant bits, ties
    to the even significand; the exponent is unbounded. *)
Definition round_to (prec : Z) (q : Q) : Q :=
  match Qnum q with
  | Z0 => 0%Q
  | Zpos _ => round_pos prec q
  | Zneg _ => (- round_pos prec (- q))%Q
  end.

(** Rounding to binary64 (a Python [float]) and to binary32 (a numpy
    [float32]). *)
Definition fl (q : Q) : pyfloat := round_to 53 q.
Definition fl32 (q : Q) : Q := round_to 24 q.

(** [float(n)] *)
Definition float_of_int (n : Z) : pyfloat := fl (inject_Z n).

(** [a + b], [a - b], [a * b] on floats *)
Definition fadd (a b : pyfloat) : pyfloat := fl (a + b).
Definition fsub (a b : pyfloat) : pyfloat := fl (a - b).
Definition fmul (a b : pyfloat) : pyfloat := fl (a * b).

(** [a / b] on numbers: true division, [ZeroDivisionError] on a zero
    divisor.  On two ints it is the correctly rounded quotient as well. *)
Definition truediv (a b : pyfloat) : result pyfloat :=
  if Qeq_bool b 0 then Raise ZeroDivisionError else Ok (fl (a / b)).

(** [int(x)] on a float: truncation toward zero. *)
Definition py_int (q : pyfloat) : Z := Z.quot (Qnum q) (Zpos (Qden q)).

(** The machine's binary64 numbers, to compare [fl] with: the float of a
    small integer, and the rational a finite float denotes. *)
Definition float64_of_int (z : Z) : float :=
  PrimFloat.of_uint63 (Uint63.of_Z z).

Definition float64_value (f : float) : Q :=
  match Prim2SF f with
  | S754_finite s m e =>
      ((if s then - (1) else 1) * inject_Z (Zpos m) * pow2 e)%Q
  | _ => 0%Q
  end.

(** [w * (H / h)] and [(m / t) * 100], by the machine and by [fl], agree. *)
Definition scale_agrees (h H w : Z) : bool :=
  Qeq_bool
    (float64_value
       (float64_of_int w * (float64_of_int H / float64_of_int h))%float)
    (fmul (float_of_int w) (fl (inject_Z H / inject_Z h))).

Definition percent_agrees (m t : Z) : bool :=
  Qeq_bool
    (float64_value
       (float64_of_int m / float64_of_int t * float64_of_int 100)%float)
    (fmul (fl (inject_Z m / inject_Z t)) (float_of_int 100)).

Definition upto (n : nat) : list Z := map Z.of_nat (seq 1 n).

(** *** Slices *)

(** Resolution of one bound of a slice [l[start:stop]] against [len(l) = n]:
    a negative bound counts from the end, and every bound is clamped to
    [0..n]. *)
Definition slice_index (n i : Z) : Z :=
  if i <? 0 then Z.max (i + n) 0 else Z.min i n.

(** [l[start:stop]] (step 1). *)
Definition py_slice {A : Type} (start stop : Z) (l : list A) : list A :=
  let n := Z.of_nat (length l) in
  let a := slice_index n start in
  let b := slice_index n stop in
  firstn (Z.to_nat (b - a)) (skipn (Z.to_nat a) l).

(* ================================================================== *)
(** ** Images *)

Definition pixel : Type := (Z * Z * Z)%type.
Definition image : Type := list (list pixel).
Definition mask : Type := list (list Z).

(** [img.shape[0]] *)
Definition height {A : Type} (img : list (list A)) : nat := length img.

(** [img.shape[1]]; an array without rows is represented by [[]] and its
    column count reads 0 (its [size] is 0 either way). *)
Definition width {A : Type} (img : list (list A)) : nat :=
  match img with
  | [] => 0%nat
  | row :: _ => length row
  end.

(** [img.size] of a three-channel image *)
Definition size (img : image) : nat := (height img * width img * 3)%nat.

(** [img[y1:y2, x1:x2]] *)
Definition crop_region (img : image) (y1 y2 x1 x2 : Z) : image :=
  map (py_slice x1 x2) (py_slice y1 y2 img).

(** The array has the shape [(h, w)]: [h] rows of [w] pixels each. *)
Definition has_shape {A : Type} (img : list (list A)) (h w : nat) : Prop :=
  length img = h /\ Forall (fun row => length row = w) img.

Definition rectangular (img : image) : bool :=
  forallb (fun row => Nat.eqb (length row) (width img)) img.

Definition is_uint8 (v : Z) : bool := (0 <=? v) && (v <=? 255).

Definition uint8_pixel (p : pixel) : bool :=
  let '(a, b, c) := p in is_uint8 a && is_uint8 b && is_uint8 c.

Definition uint8_image (img : image) : bool :=
  forallb (forallb uint8_pixel) img.

(* ================================================================== *)
(** ** OpenCV and numpy primitives (documented behaviour) *)

(** [saturate_cast<uchar>] on an integer *)
Definition saturate_u8 (z : Z) : Z := Z.max 0 (Z.min 255 z).

(** [cvRound]: to the nearest integer, ties to the even one. *)
Definition cvRound (q : Q) : Z := round_half_even q.

(** The scaled value of one sample inside [cv2.convertScaleAbs]: OpenCV
    casts [alpha] and [beta] to single precision and computes
    [src * alpha + beta] there, rounding the product and the sum (a sample
    of an 8-bit array converts to single precision without loss). *)
Definition scale32 (alpha beta : Q) (v : Z) : Q :=
  fl32 (fl32 (inject_Z v * fl32 alpha) + fl32 beta).

(** [cv2.convertScaleAbs] on one sample: scale in single precision, take
    the absolute value, convert to [uint8] with saturation. *)
Definition convertScaleAbs_sample (alpha beta : Q) (v : Z) : Z :=
  saturate_u8 (cvRound (Qabs (scale32 alpha beta v))).

Definition map_samples (f : Z -> Z) (img : image) : image :=
  map (map (fun p : pixel => let '(a, b, c) := p in (f a, f b, f c))) img.

Definition convertScaleAbs (img : image) (alpha beta : Q) : image :=
  map_samples (convertScaleAbs_sample alpha beta) img.

(** What a colour conversion does to the pixels of an array, [code] being
    the conversion of one pixel. *)
Definition convert_pixels (code : pixel -> pixel) (img : image) : image :=
  map (map code) img.

(** The [cv2.error] of a failed assertion of OpenCV (code -215). *)
Definition cv_error : exn := ExternalError 215.

(** [cv2.cvtColor]: rejects an array without pixels ([!_src.empty()]),
    converts pixel by pixel otherwise. *)
Definition cvtColor (code : pixel -> pixel) (img : image) : result image :=
  if Nat.eqb (size img) 0 then Raise cv_error
  else Ok (convert_pixels code img).

(** [np.clip(x, lo, hi)] *)
Definition np_clip (x lo hi : Q) : Q := Qmin hi (Qmax lo x).

(** [x.astype(np.uint8)] on a float: truncate, keep the low 8 bits. *)
Definition astype_uint8 (x : Q) : Z := (py_int x) mod 256.

(** One pixel against inclusive bounds on all three channels. *)
Definition in_bounds (lowerb upperb p : pixel) : bool :=
  let '(l0, l1, l2) := lowerb in
  let '(u0, u1, u2) := upperb in
  let '(p0, p1, p2) := p in
  (l0 <=? p0) && (p0 <=? u0) && (l1 <=? p1) && (p1 <=? u1)
  && (l2 <=? p2) && (p2 <=? u2).

(** [cv2.inRange]: 255 where the pixel is within the bounds, 0 elsewhere. *)
Definition inRange (img : image) (lowerb upperb : pixel) : mask :=
  map (map (fun p => if in_bounds lowerb upperb p then 255 else 0)) img.

Fixpoint zip_with {A B C : Type} (f : A -> B -> C) (l : list A) (m : list B)
  : list C :=
  match l, m with
  | a :: l', b :: m' => f a b :: zip_with f l' m'
  | _, _ => []
  end.

(** [cv2.bitwise_or] of two masks of the same shape *)
Definition bitwise_or (m1 m2 : mask) : mask := zip_with (zip_with Z.lor) m1 m2.

Definition count_nonzero_row (row : list Z) : nat :=
  length (filter (fun v => negb (v =? 0)) row).

(** [cv2.countNonZero] *)
Definition countNonZero (m : mask) : nat :=
  fold_right (fun row acc => (count_nonzero_row row + acc)%nat) 0%nat m.

(** [cv2.hconcat]: the images side by side, row by row. *)
Fixpoint hconcat (imgs : list image) : image :=
  match imgs with
  | [] => []
  | [img] => img
  | img :: rest => zip_with (@app pixel) img (hconcat rest)
  end.

(* ================================================================== *)
(** ** Effects: log, detector cache, debug snapshots *)

Inductive level : Type := STDOUT | INFO | WARNING | ERROR.

Inductive message : Type :=
| MsgWeightsNotFound
| MsgLoadingModel
| MsgLoadFailed (e : exn)
| MsgProcessing (path : string)
| MsgCouldNotRead (path : string)
| MsgInferenceFailed (e : exn)
| MsgDetected (n : nat)
| MsgMerged (n : nat)
| MsgNoObject (path : string)
| MsgSavedCrop (path : string)
| MsgImageNotFound (path : string)
| MsgAnalyzing (path : string)
| MsgApplyingEnhancement
| MsgPlantPercentage (p : pyfloat)
| MsgComparing (path1 path2 : string).

(** The process state the pipeline touches: the module-global detector
    handle ([model] / [_model], [None] until loaded), what was printed or
    logged, and the writes made through [cv2.imwrite], in the order they
    were made (a later write to a name replaces the file of an earlier
    one). *)
Record state : Type := mkState {
  model_cache : bool;
  log : list (level * message);
  snapshots : list (string * image)
}.

Definition M (A : Type) : Type := state -> result A * state.

Definition ret {A : Type} (a : A) : M A := fun s => (Ok a, s).

Definition bind {A B : Type} (c : M A) (k : A -> M B) : M B :=
  fun s =>
    match c s with
    | (Ok a, s') => k a s'
    | (Raise e, s') => (Raise e, s')
    end.

Definition raise {A : Type} (e : exn) : M A := fun s => (Raise e, s).

Definition lift {A : Type} (r : result A) : M A := fun s => (r, s).

(** [try: c] with [except Exception] left to the caller: never raises. *)
Definition attempt {A : Type} (c : M A) : M (result A) :=
  fun s => let (r, s') := c s in (Ok r, s').

Definition emit (lvl : level) (msg : message) : M unit :=
  fun s => (Ok tt, mkState (model_cache s) (log s ++ [(lvl, msg)]) (snapshots s)).

Definition get_model : M bool := fun s => (Ok (model_cache s), s).

Definition set_model : M unit :=
  fun s => (Ok tt, mkState true (log s) (snapshots s)).

(** [cv2.imwrite(path, img)], for a [path] whose extension names an image
    format OpenCV can encode: the write is recorded.  (For any other path
    [cv2.imwrite] raises.)  What [imread] and [path_exists] of the world
    answer is the file system as the run found it. *)
Definition imwrite (path : string) (img : image) : M unit :=
  fun s => (Ok tt, mkState (model_cache s) (log s) (snapshots s ++ [(path, img)])).

Declare Scope py_scope.
Delimit Scope py_scope with py.
Notation "x <- c ;; k" := (bind c (fun x => k))
  (at level 61, c at next level, right associativity) : py_scope.
Notation "c ;; k" := (bind c (fun _ => k))
  (at level 61, right associativity) : py_scope.
Notation "'let!' x ':=' c 'in' k" := (rbind c (fun x => k))
  (at level 61, x name, c at next level, right associativity) : py_scope.
Local Open Scope py_scope.

(** The collaborators outside the repository, as one call of the pipeline
    sees them. *)
Record world : Type := mkWorld {
  path_exists : string -> bool;            (* os.path.exists *)
  basename : string -> string;             (* os.path.basename *)
  imread : string -> option image;         (* cv2.imread, None on failure *)
  weights_exist : bool;                    (* os.path.exists(MODEL_WEIGHTS_PATH) *)
  yolo_load : result unit;                 (* YOLO(MODEL_WEIGHTS_PATH) *)
  infer : string -> result (list (Z * Z * Z * Z))
    (* model(image_path, verbose=False)[0].boxes, each box read as
       box.xyxy[0].cpu().numpy().astype(int) *)
}.

(** A truthy [out_path]: not [None] and not the empty string. *)
Definition truthy_path (p : option string) : option string :=
  match p with
  | Some s => if String.eqb s EmptyString then None else Some s
  | None => None
  end.

(* ================================================================== *)
(** ** Panel extraction: the parts [crop.py] and [cropper.py] share *)

(** [{'coords': (x1, y1, x2, y2)}] *)
Record detection : Type := mkDetection { coords : Z * Z * Z * Z }.

(** [d['coords'][0]] *)
Definition left_edge (d : detection) : Z :=
  let '(x1, _, _, _) := coords d in x1.

(** [detections.sort(key=lambda d: d['coords'][0])].  [list.sort] is
    stable; the stable insertion sort below returns the same list. *)
Fixpoint insert_detection (d : detection) (l : list detection)
  : list detection :=
  match l with
  | [] => [d]
  | e :: l' =>
      if left_edge e <? left_edge d then e :: insert_detection d l'
      else d :: e :: l'
  end.

Definition sort_detections (l : list detection) : list detection :=
  fold_right insert_detection [] l.

(** The body of the loop over the sorted detections: clip to the image
    bounds, then slice. *)
Definition clip_and_crop (img : image) (d : detection) : image :=
  let '(x1, y1, x2, y2) := coords d in
  let h_img := Z.of_nat (height img) in
  let w_img := Z.of_nat (width img) in
  let x1 := Z.max 0 x1 in
  let y1 := Z.max 0 y1 in
  let x2 := Z.min w_img x2 in
  let y2 := Z.min h_img y2 in
  crop_region img y1 y2 x1 x2.

(** [for d in detections: ... if crop.size > 0: crops.append(crop)] *)
Fixpoint collect_crops (img : image) (detections : list detection)
  : list image :=
  match detections with
  | [] => []
  | d :: ds =>
      let crop := clip_and_crop img d in
      if Nat.ltb 0 (size crop) then crop :: collect_crops img ds
      else collect_crops img ds
  end.

(** [max(c.shape[0] for c in crops)] *)
Definition max_height (crops : list image) : nat :=
  fold_right Nat.max 0%nat (map (@height pixel) crops).

(** [scale = max_h / h; new_w = int(w * scale)] *)
Definition new_width (max_h h w : nat) : result Z :=
  let! scale := truediv (inject_Z (Z.of_nat max_h)) (inject_Z (Z.of_nat h)) in
  Ok (py_int (fmul (float_of_int (Z.of_nat w)) scale)).

Section Stitching.

(** [cv2.resize(c, (new_w, max_h))]: the image [c] resampled to [new_w]
    columns and [max_h] rows. *)
Variable resize : image -> nat -> nat -> image.

Definition resize_crop (max_h : nat) (c : image) : result image :=
  let h := height c in
  let w := width c in
  if negb (Nat.eqb h max_h) then
    let! new_w := new_width max_h h w in
    Ok (resize c (Z.to_nat new_w) max_h)
  else Ok c.

Fixpoint resize_crops (max_h : nat) (crops : list image)
  : result (list image) :=
  match crops with
  | [] => Ok []
  | c :: cs =>
      let! r := resize_crop max_h c in
      let! rs := resize_crops max_h cs in
      Ok (r :: rs)
  end.

(** The merge branch: resize to the tallest crop, stitch horizontally. *)
Definition merge_crops (crops : list image) : result image :=
  let max_h := max_height crops in
  let! resized_crops := resize_crops max_h crops in
  Ok (hconcat resized_crops).

(** The image [crop_front_panel] computes from the source image and the
    detector's boxes (the spec's [extractPanel]): the code between
    [final_img = img] and the optional [cv2.imwrite], without its log
    lines. *)
Definition extractPanel (img : image) (boxes : list (Z * Z * Z * Z))
  : result image :=
  if Nat.ltb 0 (length boxes) then
    let detections := sort_detections (map mkDetection boxes) in
    let crops := collect_crops img detections in
    if Nat.eqb (length crops) 1 then Ok (nth 0 crops img)
    else if Nat.leb 2 (length crops) then merge_crops crops
    else Ok img
  else Ok img.

End Stitching.

(* ================================================================== *)
(** ** [crop.py] *)

Module Crop.
Section WithResize.

Variable resize : image -> nat -> nat -> image.

Definition load_model (w : world) : M unit :=
  loaded <- get_model ;;
  if negb loaded then
    if negb (weights_exist w) then raise FileNotFoundError
    else
      emit STDOUT MsgLoadingModel ;;
      lift (yolo_load w) ;;
      set_model
  else ret tt.

Definition crop_front_panel (w : world) (image_path : string)
    (out_path : option string) : M (image * option string) :=
  match imread w image_path with
  | None => raise ValueError
  | Some img =>
      load_model w ;;
      boxes <- lift (infer w image_path) ;;
      final_img <-
        (if Nat.ltb 0 (length boxes) then
           let detections := sort_detections (map mkDetection boxes) in
           let crops := collect_crops img detections in
           if Nat.eqb (length crops) 1 then ret (nth 0 crops img)
           else if Nat.leb 2 (length crops) then
             merged <- lift (merge_crops resize crops) ;;
             emit STDOUT (MsgMerged (length crops)) ;;
             ret merged
           else ret img
         else
           emit STDOUT (MsgNoObject image_path) ;;
           ret img) ;;
      match truthy_path out_path with
      | Some p => imwrite p final_img
      | None => ret tt
      end ;;
      ret (final_img, out_path)
  end.

End WithResize.
End Crop.

(* ================================================================== *)
(** ** [src/plant_analysis/cropper.py] *)

Module Cropper.
Section WithResize.

Variable resize : image -> nat -> nat -> image.

Definition load_model (w : world) : M unit :=
  loaded <- get_model ;;
  if negb loaded then
    if negb (weights_exist w) then
      emit ERROR MsgWeightsNotFound ;;
      raise FileNotFoundError
    else
      emit INFO MsgLoadingModel ;;
      r <- attempt (lift (yolo_load w) ;; set_model) ;;
      match r with
      | Ok _ => ret tt
      | Raise e => emit ERROR (MsgLoadFailed e) ;; raise e
      end
  else ret tt.

Definition crop_front_panel (w : world) (image_path : string)
    (out_path : option string) : M (image * option string) :=
  emit INFO (MsgProcessing image_path) ;;
  match imread w image_path with
  | None =>
      emit ERROR (MsgCouldNotRead image_path) ;;
      raise ValueError
  | Some img =>
      r <- attempt (load_model w ;; lift (infer w image_path)) ;;
      match r with
      | Raise e =>
          emit ERROR (MsgInferenceFailed e) ;;
          ret (img, out_path)
      | Ok boxes =>
          final_img <-
            (if Nat.ltb 0 (length boxes) then
               emit INFO (MsgDetected (length boxes)) ;;
               let detections := sort_detections (map mkDetection boxes) in
               let crops := collect_crops img detections in
               if Nat.eqb (length crops) 1 then ret (nth 0 crops img)
               else if Nat.leb 2 (length crops) then
                 merged <- lift (merge_crops resize crops) ;;
                 emit INFO (MsgMerged (length crops)) ;;
                 ret merged
               else ret img
             else
               emit WARNING (MsgNoObject image_path) ;;
               ret img) ;;
          match truthy_path out_path with
          | Some p => imwrite p final_img ;; emit INFO (MsgSavedCrop p)
          | None => ret tt
          end ;;
          ret (final_img, out_path)
      end
  end.

End WithResize.
End Cropper.

(* ================================================================== *)
(** ** [plant_analysis.py] and [src/plant_analysis/analyzer.py] *)

(** [a < b] on floats *)
Definition float_lt (a b : pyfloat) : bool := negb (Qle_bool b a).

(** [enhance_params]: a dictionary from parameter names to numbers. *)
Definition params : Type := list (string * pyfloat).

(** [d.get(key, default)] *)
Fixpoint dict_get (d : params) (key : string) (default : pyfloat) : pyfloat :=
  match d with
  | [] => default
  | (k, v) :: d' => if String.eqb k key then v else dict_get d' key default
  end.

(** The four HSV bounds an analyzer holds ([self.lower_green], ...). *)
Record PlantAnalyzer : Type := mkAnalyzer {
  lower_green : pixel;
  upper_green : pixel;
  lower_purple : pixel;
  upper_purple : pixel
}.

(** The defaults of [PlantAnalyzer.__init__] in [plant_analysis.py], which
    are the constants of [config.py]. *)
Definition default_analyzer : PlantAnalyzer :=
  mkAnalyzer (35, 40, 40) (85, 255, 255) (125, 40, 40) (155, 255, 255).

(** What [compare_images] returns. *)
Record comparison : Type := mkComparison {
  image1_plant_percentage : pyfloat;
  image2_plant_percentage : pyfloat;
  growth_absolute : pyfloat;
  growth_relative : pyfloat
}.

(** The growth arithmetic of [compare_images]. *)
Definition growth (img1_percentage img2_percentage : pyfloat)
  : result (pyfloat * pyfloat) :=
  let absolute_growth := fsub img2_percentage img1_percentage in
  let! relative_growth :=
    (if float_lt 0%Q img1_percentage then
       let! q := truediv absolute_growth img1_percentage in
       Ok (fmul q (float_of_int 100))
     else Ok 0%Q) in
  Ok (absolute_growth, relative_growth).

Section AnalyzerCode.

(** [cv2.COLOR_BGR2HSV] and [cv2.COLOR_HSV2BGR] on one pixel *)
Variable bgr2hsv hsv2bgr : pixel -> pixel.

Definition enhance_image (image0 : image)
    (brightness contrast saturation : pyfloat) : result image :=
  let img_enhanced := convertScaleAbs image0 (fadd 1 contrast) brightness in
  if negb (Qeq_bool saturation 1) then
    let! hsv := cvtColor bgr2hsv img_enhanced in
    let hsv' :=
      map (map (fun p : pixel =>
        let '(h, s, v) := p in
        let s' := fl32 (inject_Z s * fl32 saturation) in
        (h, astype_uint8 (np_clip s' 0%Q 255%Q), v))) hsv in
    cvtColor hsv2bgr hsv'
  else Ok img_enhanced.

(** [enhance_image(image)]: brightness 0, contrast 0, saturation 1.0 *)
Definition enhance_image_default (image0 : image) : result image :=
  enhance_image image0 0%Q 0%Q 1%Q.

(** From the HSV conversion to the returned percentage. *)
Definition plant_percentage (self : PlantAnalyzer) (img : image)
  : result pyfloat :=
  let! hsv := cvtColor bgr2hsv img in
  let green_mask := inRange hsv (lower_green self) (upper_green self) in
  let purple_mask := inRange hsv (lower_purple self) (upper_purple self) in
  let plant_mask := bitwise_or green_mask purple_mask in
  let total_pixels := (height img * width img)%nat in
  let plant_pixels := countNonZero plant_mask in
  if Nat.eqb total_pixels 0 then Ok 0%Q
  else
    let! ratio := truediv (inject_Z (Z.of_nat plant_pixels))
                          (inject_Z (Z.of_nat total_pixels)) in
    Ok (fmul ratio (float_of_int 100)).

(** The cropper in use and the module's logger ([plant_analysis.py] has
    none: its [logger] does nothing). *)
Variable crop_front_panel :
  world -> string -> option string -> M (image * option string).
Variable logger : level -> message -> M unit.

Definition calculate_plant_percentage (self : PlantAnalyzer) (w : world)
    (image_path : string) (do_crop : bool) (enhance_params : option params)
    (save_debug : bool) : M pyfloat :=
  if negb (path_exists w image_path) then
    logger ERROR (MsgImageNotFound image_path) ;;
    raise FileNotFoundError
  else
    logger INFO (MsgAnalyzing image_path) ;;
    img <-
      (if do_crop then
         let debug_crop_path :=
           if save_debug
           then Some ("debug_cropped_" ++ basename w image_path)%string
           else None in
         r <- crop_front_panel w image_path debug_crop_path ;;
         ret (fst r)
       else
         match imread w image_path with
         | None =>
             logger ERROR (MsgCouldNotRead image_path) ;;
             raise ValueError
         | Some img => ret img
         end) ;;
    img <-
      (match enhance_params with
       | Some (kv :: d) =>
           let enhance_params := kv :: d in
           logger INFO MsgApplyingEnhancement ;;
           img <-
             lift (enhance_image img
                     (dict_get enhance_params "brightness" 0%Q)
                     (dict_get enhance_params "contrast" 0%Q)
                     (dict_get enhance_params "saturation" 1%Q)) ;;
           (if save_debug
            then imwrite ("debug_enhanced_" ++ basename w image_path)%string img
            else ret tt) ;;
           ret img
       | _ => ret img
       end) ;;
    plant_percentage <- lift (plant_percentage self img) ;;
    if Nat.eqb (height img * width img) 0 then
      (* [return 0.0], before the log line *)
      ret plant_percentage
    else
      logger INFO (MsgPlantPercentage plant_percentage) ;;
      ret plant_percentage.

Definition compare_images (self : PlantAnalyzer) (w : world)
    (img1_path img2_path : string) (do_crop : bool)
    (enhance_params : option params) : M comparison :=
  logger INFO (MsgComparing img1_path img2_path) ;;
  img1_percentage <-
    calculate_plant_percentage self w img1_path do_crop enhance_params true ;;
  img2_percentage <-
    calculate_plant_percentage self w img2_path do_crop enhance_params true ;;
  g <- lift (growth img1_percentage img2_percentage) ;;
  ret (mkComparison img1_percentage img2_percentage (fst g) (snd g)).

End AnalyzerCode.

(** [plant_analysis.py] has no logger. *)
Definition no_logger (lvl : level) (msg : message) : M unit := ret tt.

(** [plant_analysis.py]: the cropper of [crop.py], nothing logged. *)
Module PlantAnalysis.
Definition calculate_plant_percentage (resize : image -> nat -> nat -> image)
    (bgr2hsv hsv2bgr : pixel -> pixel) :=
  calculate_plant_percentage bgr2hsv hsv2bgr (Crop.crop_front_panel resize)
    no_logger.
Definition compare_images (resize : image -> nat -> nat -> image)
    (bgr2hsv hsv2bgr : pixel -> pixel) :=
  compare_images bgr2hsv hsv2bgr (Crop.crop_front_panel resize) no_logger.
End PlantAnalysis.

(** [src/plant_analysis/analyzer.py]: the cropper of [cropper.py], the
    module's logger. *)
Module Analyzer.
Definition calculate_plant_percentage (resize : image -> nat -> nat -> image)
    (bgr2hsv hsv2bgr : pixel -> pixel) :=
  calculate_plant_percentage bgr2hsv hsv2bgr (Cropper.crop_front_panel resize)
    emit.
Definition compare_images (resize : image -> nat -> nat -> image)
    (bgr2hsv hsv2bgr : pixel -> pixel) :=
  compare_images bgr2hsv hsv2bgr (Cropper.crop_front_panel resize) emit.
End Analyzer.

(** [cv2.resize] is outside the repository; a nearest-neighbour resampling
    serves as a concrete instance when the theorems are run on examples. *)
Definition resize_nearest (c : image) (new_w new_h : nat) : image :=
  map (fun i =>
         map (fun j =>
                nth (j * width c / new_w)%nat (nth (i * height c / new_h)%nat c [])
                    (0, 0, 0))
             (seq 0 new_w))
      (seq 0 new_h).

(* ================================================================== *)
(** ** The rest of the analyzers *)

(** [PlantAnalyzer.calculate_green_percentage] of [plant_analysis.py]: the
    older entry point, [calculate_plant_percentage] with its defaults. *)
Definition calculate_green_percentage
    (resize : image -> nat -> nat -> image) (bgr2hsv hsv2bgr : pixel -> pixel)
    (self : PlantAnalyzer) (w : world) (image_path : string) : M pyfloat :=
  PlantAnalysis.calculate_plant_percentage resize bgr2hsv hsv2bgr self w
    image_path true None false.

(** The saturation step of [enhance_image] on the HSV image: the [s]
    channel times [saturation] in single precision, clipped to [0, 255] and
    cut to [uint8]; [h] and [v] as they are. *)
Definition scale_saturation (saturation : pyfloat) (hsv : image) : image :=
  map (map (fun p : pixel =>
    let '(h, s, v) := p in
    let s' := fl32 (inject_Z s * fl32 saturation) in
    (h, astype_uint8 (np_clip s' 0%Q 255%Q), v))) hsv.

(* ================================================================== *)
(** ** [src/plant_analysis/utils.py] *)

(** A [logging.StreamHandler] with its stream and format. *)
Record handler : Type := mkHandler {
  handler_stream : string;
  handler_format : string
}.

(** A [logging.Logger]: its level ([None] is NOTSET) and its handlers. *)
Record logger_obj : Type := mkLogger {
  logger_level : option level;
  logger_handlers : list handler
}.

(** The table behind [logging.getLogger]: a name that was never asked for
    reads as a new logger, NOTSET and without handlers. *)
Definition registry : Type := string -> logger_obj.

Definition no_loggers : registry := fun _ => mkLogger None [].

Definition set_logger (name : string) (lg : logger_obj) (r : registry)
  : registry :=
  fun n => if String.eqb n name then lg else r n.

Definition stdout_handler : handler :=
  mkHandler "sys.stdout"
            "%(asctime)s - %(name)s - %(levelname)s - %(message)s".

(** [setup_logging(name)]: the registry after the call (the logger it
    returns is [r name] there). *)
Definition setup_logging (name : string) (r : registry) : registry :=
  let logger := r name in
  match logger_handlers logger with
  | [] =>
      set_logger name
        (mkLogger (Some INFO) (logger_handlers logger ++ [stdout_handler])) r
  | _ :: _ => r
  end.

(* ================================================================== *)
(** ** [src/plant_analysis/gui.py]: the computations between the widgets *)

(** [_center_window]: the geometry [width x height + x + y] for a window of
    the given size on the given screen ([//] is floor division). *)
Definition center_window (screen_w screen_h width height : Z)
  : Z * Z * Z * Z :=
  let x := screen_w / 2 - width / 2 in
  let y := screen_h / 2 - height / 2 in
  (width, height, x, y).

(** [_on_window_resize]: the preview size after a resize event. *)
Definition on_window_resize (widget_is_root : bool) (new_width : Z)
    (preview_size : Z * Z) : Z * Z :=
  if widget_is_root then
    if new_width <? 1000 then (200, 200)
    else if new_width <? 1200 then (240, 240)
    else (280, 280)
  else preview_size.

(** The summary [compare_images] of the window writes under the numbers. *)
Inductive assessment : Type := Exceptional | Significant | Good | Moderate.

Inductive growth_status : Type :=
| PositiveGrowth (a : assessment)
| NegativeChange
| Stable.

Definition growth_summary (absolute relative : pyfloat) : growth_status :=
  if float_lt 0%Q absolute then
    PositiveGrowth
      (if float_lt 100%Q relative then Exceptional
       else if float_lt 50%Q relative then Significant
       else if float_lt 20%Q relative then Good
       else Moderate)
  else if float_lt absolute 0%Q then NegativeChange
  else Stable.

(* ================================================================== *)
(** ** Vocabulary of the specification *)

(** The clipped extent of a box along the two axes, as the spec defines it:
    far edge clipped to the image minus near edge clipped to 0. *)
Definition clipped_width (img : image) (d : detection) : Z :=
  let '(x1, _, x2, _) := coords d in
  Z.min (Z.of_nat (width img)) x2 - Z.max 0 x1.



(** [box.xyxy[0]][0]: the left edge of a box as the detector reports it. *)
Definition box_left (b : Z * Z * Z * Z) : Z :=
  let '(x1, _, _, _) := b in x1.





(** The box's reported left edge is [k]. *)
Definition same_left (k : Z) (b : Z * Z * Z * Z) : bool := box_left b =? k.

(** The sorted detections whose crop the loop keeps ([crop.size > 0]). *)
Definition survivors (img : image) (boxes : list (Z * Z * Z * Z))
  : list detection :=
  filter (fun d => Nat.ltb 0 (size (clip_and_crop img d)))
         (sort_detections (map mkDetection boxes)).


(** [z] is an integer nearest to [q]. *)
Definition nearest_integer (q : Q) (z : Z) : Prop :=
  (Qabs (q - inject_Z z) <= 1 # 2)%Q.

(** The order of the sort key. *)
Definition left_le (a b : detection) : Prop := left_edge a <= left_edge b.

(** The detector can be used from state [s]: its handle is cached, or the
    weights are present and the model loads. *)
Definition detector_available (w : world) (s : state) : Prop :=
  model_cache s = true \/ (weights_exist w = true /\ yolo_load w = Ok tt).

(** The state after a successful [load_model] that announces the loading at
    level [lvl]: unchanged when the handle was cached. *)
Definition after_load (lvl : level) (s : state) : state :=
  if model_cache s then s
  else mkState true (log s ++ [(lvl, MsgLoadingModel)]) (snapshots s).

(** State [s] with [entries] appended to its log and [files] to the files
    written. *)
Definition extended (s : state) (entries : list (level * message))
    (files : list (string * image)) : state :=
  mkState (model_cache s) (log s ++ entries) (snapshots s ++ files).


(** The debug snapshot [cv2.imwrite(out_path, final_img)] when [out_path] is
    truthy. *)
Definition snapshot_of (out_path : option string) (img : image)
  : list (string * image) :=
  match truthy_path out_path with
  | Some p => [(p, img)]
  | None => []
  end.

(** The specification's formula for one enhanced sample,
    [clamp(value * (1 + contrast) + brightness, 0, 255)], with the result
    rounded to an integer sample. *)
Definition clamp_scaled (brightness contrast : Q) (v : Z) : Z :=
  saturate_u8 (cvRound (inject_Z v * fadd 1 contrast + brightness)).

(** A pixel of the converted image counts as plant: within the green
    bounds or within the purple bounds. *)
Definition is_plant (self : PlantAnalyzer) (p : pixel) : bool :=
  in_bounds (lower_green self) (upper_green self) p
  || in_bounds (lower_purple self) (upper_purple self) p.

(** The number of plant pixels of an HSV image, counted pixel by pixel. *)
Definition matching_pixels (self : PlantAnalyzer) (hsv : image) : nat :=
  length (filter (is_plant self) (concat hsv)).

(** Every run of [c] changes the state within [R]. *)
Definition keeps {A : Type} (R : state -> state -> Prop) (c : M A) : Prop :=
  forall s, R s (snd (c s)).

(** Whenever [c] returns, its value satisfies [P]. *)
Definition yields {A : Type} (c : M A) (P : A -> Prop) : Prop :=
  forall s a, fst (c s) = Ok a -> P a.

(** From every state [c] returns, with a value that satisfies [P]. *)
Definition succeeds {A : Type} (c : M A) (P : A -> Prop) : Prop :=
  forall s, exists a, fst (c s) = Ok a /\ P a.

(** Whenever [c] returns, it has written files of the names [names], in
    that order, and no other. *)
Definition writes {A : Type} (c : M A) (names : list string) : Prop :=
  forall s a s',
    c s = (Ok a, s') ->
    map fst (snapshots s') = map fst (snapshots s) ++ names.

(** The file [crop_front_panel] writes for [out_path], if any. *)
Definition written_name (out_path : option string) : list string :=
  match truthy_path out_path with
  | Some p => [p]
  | None => []
  end.

(** The debug files [calculate_plant_percentage] writes when it returns. *)
Definition debug_names (w : world) (image_path : string) (do_crop : bool)
    (enhance_params : option params) (save_debug : bool) : list string :=
  (if do_crop && save_debug
   then ["debug_cropped_" ++ basename w image_path]%string else [])
  ++ (match enhance_params with
      | Some (_ :: _) =>
          if save_debug
          then ["debug_enhanced_" ++ basename w image_path]%string else []
      | _ => []
      end).

(** No file is written between [s] and [s']. *)
Definition same_files (s s' : state) : Prop := snapshots s' = snapshots s.

(** What loading the detector (when it is not cached) and running it on
    [image_path] come to, from state [s]. *)
Definition detector_outcome (w : world) (image_path : string) (s : state)
  : result (list (Z * Z * Z * Z)) :=
  if model_cache s then infer w image_path
  else if weights_exist w then
    rbind (yolo_load w) (fun _ => infer w image_path)
  else Raise FileNotFoundError.

(** Whether the detector is cached once a load was tried from state [s]. *)
Definition cache_after (w : world) (s : state) : bool :=
  model_cache s
  || (weights_exist w
      && match yolo_load w with Ok _ => true | Raise _ => false end).

(** From [s] and from [s'] the detector comes to the same, for every
    path. *)
Definition same_detector (w : world) (s s' : state) : Prop :=
  forall image_path,
    detector_outcome w image_path s = detector_outcome w image_path s'.

(** [c] and [c'] return or raise the same from any two states with the
    same detector, and leave the same detector behind. *)
Definition same_outcome {A : Type} (w : world) (c c' : M A) : Prop :=
  forall s s',
    same_detector w s s' ->
    fst (c s) = fst (c' s') /\ same_detector w (snd (c s)) (snd (c' s')).


(** Every bound of [a] lies within the matching bound of [b]: [b] accepts
    every pixel [a] accepts. *)
Definition bounds_within (la ua lb ub : pixel) : bool :=
  let '(la0, la1, la2) := la in
  let '(ua0, ua1, ua2) := ua in
  let '(lb0, lb1, lb2) := lb in
  let '(ub0, ub1, ub2) := ub in
  (lb0 <=? la0) && (ua0 <=? ub0) && (lb1 <=? la1) && (ua1 <=? ub1)
  && (lb2 <=? la2) && (ua2 <=? ub2).

Definition analyzer_within (a b : PlantAnalyzer) : bool :=
  bounds_within (lower_green a) (upper_green a) (lower_green b) (upper_green b)
  && bounds_within (lower_purple a) (upper_purple a)
                   (lower_purple b) (upper_purple b).

(** The hue intervals of the two ranges do not meet. *)
Definition hues_disjoint (self : PlantAnalyzer) : bool :=
  let '(lg, _, _) := lower_green self in
  let '(ug, _, _) := upper_green self in
  let '(lp, _, _) := lower_purple self in
  let '(up, _, _) := upper_purple self in
  (ug <? lp) || (up <? lg).

(* ================================================================== *)
(** ** Concrete inputs *)

Definition grey (n : Z) : pixel := (n, n, n).

(** A [rows] x [cols] image whose pixel at row [i], column [j] is
    [grey (10 * i + j)]. *)
Definition ramp (rows cols : nat) : image :=
  map (fun i => map (fun j => grey (10 * Z.of_nat i + Z.of_nat j)) (seq 0 cols))
      (seq 0 rows).

(** A world in which every file exists and reads as [img], the weights are
    present, the model loads, and the detector reports [boxes]. *)
Definition world_with (img : image) (boxes : list (Z * Z * Z * Z)) : world :=
  mkWorld (fun _ => true) (fun p => p) (fun _ => Some img) true (Ok tt)
          (fun _ => Ok boxes).

(** The same world with a detector whose inference raises. *)
Definition world_failing_inference (img : image) : world :=
  mkWorld (fun _ => true) (fun p => p) (fun _ => Some img) true (Ok tt)
          (fun _ => Raise (ExternalError 0)).

(** The same world with the model weights missing. *)
Definition world_without_weights (img : image) : world :=
  mkWorld (fun _ => true) (fun p => p) (fun _ => Some img) false (Ok tt)
          (fun _ => Ok [(0, 0, 2, 2)]).

(** Two photographs of 2 x 2 pixels, already in HSV: one green pixel among
    four, then two. *)
Definition photo_before : image :=
  [[(60, 200, 200); (0, 0, 0)]; [(0, 0, 0); (0, 0, 0)]].
Definition photo_after : image :=
  [[(60, 200, 200); (140, 200, 200)]; [(0, 0, 0); (0, 0, 0)]].

(** A world holding the two photographs, with a detector that finds
    nothing. *)
Definition world_two_photos : world :=
  mkWorld (fun _ => true) (fun p => p)
          (fun p => if String.eqb p "before.jpg" then Some photo_before
                    else Some photo_after)
          true (Ok tt) (fun _ => Ok []).

(** A fresh process: no model loaded, nothing logged, nothing written. *)
Definition fresh : state := mkState false [] [].

(* ================================================================== *)
(** * Properties *)

(** Unfolds the monad's operations and computes. *)
Ltac run_monad :=
  unfold bind, ret, raise, lift, attempt, emit, get_model, set_model, imwrite;
  simpl.

(** Splits a run on every test it meets, innermost scrutinee first. *)
Ltac split_run :=
  repeat (unfold negb, rbind; simpl;
          match goal with
          | |- context [match ?x with _ => _ end] =>
              lazymatch x with
              | context [match _ with _ => _ end] => fail
              | _ => destruct x eqn:?
              end
          end).

(** ** Rounding *)

Lemma round_half_even_comp (q q' : Q) :
  (q == q')%Q -> round_half_even q = round_half_even q'.
Proof.
  intros Heq. unfold round_half_even.
  rewrite (Qfloor_comp q q' Heq).
  assert (Hc : ((q - inject_Z (Qfloor q') ?= 1 # 2)
                = (q' - inject_Z (Qfloor q') ?= 1 # 2))%Q)
    by (now rewrite Heq).
  now rewrite Hc.
Qed.

Lemma round_half_even_integer (z : Z) : round_half_even (inject_Z z) = z.
Proof.
  unfold round_half_even. rewrite Qfloor_Z.
  assert (Hc : ((inject_Z z - inject_Z z ?= 1 # 2) = (0 ?= 1 # 2))%Q).
  { apply Qcompare_comp; [ring | reflexivity]. }
  now rewrite Hc.
Qed.

Lemma round_half_even_bounds (q : Q) :
  Qfloor q <= round_half_even q <= Qfloor q + 1.
Proof.
  unfold round_half_even. destruct (_ ?= _)%Q; [destruct (Z.even _)| |]; lia.
Qed.

Lemma frac_lt_cancel (x y f : Q) : (y - f < x - f)%Q -> (y < x)%Q.
Proof. unfold Qminus. now rewrite Qplus_lt_l. Qed.

Lemma round_half_even_monotone (x y : Q) :
  (x <= y)%Q -> round_half_even x <= round_half_even y.
Proof.
  intros Hxy. pose proof (Qfloor_resp_le x y Hxy) as Hf.
  destruct (Z.eq_dec (Qfloor x) (Qfloor y)) as [Heq | Hne].
  - unfold round_half_even. rewrite Heq.
    destruct (Qcompare_spec (x - inject_Z (Qfloor y)) (1 # 2)) as [Hx | Hx | Hx];
    destruct (Qcompare_spec (y - inject_Z (Qfloor y)) (1 # 2)) as [Hy | Hy | Hy];
      try lia; try (destruct (Z.even (Qfloor y)); lia); exfalso;
      apply (Qlt_not_le y x); try exact Hxy;
      apply (frac_lt_cancel x y (inject_Z (Qfloor y))).
    + rewrite Hx. exact Hy.
    + rewrite Hy. exact Hx.
    + eapply Qlt_trans; eassumption.
  - pose proof (round_half_even_bounds x). pose proof (round_half_even_bounds y). lia.
Qed.

Lemma pow2_pos (e : Z) : (0 < pow2 e)%Q.
Proof. apply Qpower_0_lt. reflexivity. Qed.

Lemma pow2_add (a b : Z) : (pow2 (a + b) == pow2 a * pow2 b)%Q.
Proof. apply Qpower_plus. discriminate. Qed.

Lemma pow2_sub (a b : Z) : (pow2 (a - b) == pow2 a / pow2 b)%Q.
Proof. apply Qpower_minus. discriminate. Qed.

Lemma pow2_le (a b : Z) : a <= b -> (pow2 a <= pow2 b)%Q.
Proof. intros H. apply Qpower_le_compat_l; [exact H | discriminate]. Qed.

Lemma pow2_lt_inv (a b : Z) : (pow2 a < pow2 b)%Q -> a < b.
Proof. intros H. eapply Qpower_lt_compat_l_inv; [exact H | reflexivity]. Qed.

Lemma pow2_nat (a : Z) : 0 <= a -> (pow2 a == inject_Z (2 ^ a))%Q.
Proof. intros H. unfold pow2. now rewrite Zpower_Qpower. Qed.

Lemma log2_bounds (n : Z) :
  0 < n -> (pow2 (Z.log2 n) <= inject_Z n /\ inject_Z n < pow2 (Z.log2 n + 1))%Q.
Proof.
  intros Hn. pose proof (Z.log2_spec n Hn) as [Hlo Hhi].
  pose proof (Z.log2_nonneg n) as H0.
  rewrite !pow2_nat by lia. split.
  - now rewrite <- Zle_Qle.
  - rewrite <- Zlt_Qlt. now rewrite <- Z.add_1_r in Hhi.
Qed.

(** The binade of a positive rational. *)
Lemma binade_spec (q : Q) :
  (0 < q)%Q -> (pow2 (binade q) <= q /\ q < pow2 (binade q + 1))%Q.
Proof.
  intros Hq. destruct q as [n d]. unfold binade. simpl Qnum. simpl Qden.
  assert (Hn : 0 < n) by (unfold Qlt in Hq; simpl in Hq; lia).
  destruct (log2_bounds n Hn) as [Hnlo Hnhi].
  destruct (log2_bounds (Zpos d) eq_refl) as [Hdlo Hdhi].
  set (ln := Z.log2 n) in *. set (ld := Z.log2 (Zpos d)) in *.
  assert (Hd : (0 < inject_Z (Zpos d))%Q) by reflexivity.
  assert (Hq' : (n # d == inject_Z n / inject_Z (Zpos d))%Q) by apply Qmake_Qdiv.
  assert (Hup : (n # d < pow2 (ln - ld + 1))%Q).
  { rewrite Hq'. apply Qlt_shift_div_r; [exact Hd|].
    eapply Qlt_le_trans; [exact Hnhi|].
    replace (ln + 1) with ((ln - ld + 1) + ld) by ring.
    rewrite pow2_add. apply Qmult_le_l; [apply pow2_pos | exact Hdlo]. }
  assert (Hlow : (pow2 (ln - ld - 1) <= n # d)%Q).
  { rewrite Hq'. apply Qle_shift_div_l; [exact Hd|].
    eapply Qle_trans; [|exact Hnlo].
    replace ln with ((ln - ld - 1) + (ld + 1)) at 2 by ring.
    rewrite pow2_add. apply Qmult_le_l; [apply pow2_pos|].
    now apply Qlt_le_weak. }
  destruct (Qle_bool (pow2 (ln - ld)) (n # d)) eqn:Ht.
  - apply Qle_bool_iff in Ht. split; assumption.
  - split; [exact Hlow|].
    replace (ln - ld - 1 + 1) with (ln - ld) by ring.
    apply Qnot_le_lt. intros Hc. apply Qle_bool_iff in Hc. congruence.
Qed.

Lemma binade_unique (q : Q) (e : Z) :
  (pow2 e <= q)%Q -> (q < pow2 (e + 1))%Q -> binade q = e.
Proof.
  intros Hlo Hhi.
  assert (Hq : (0 < q)%Q) by (eapply Qlt_le_trans; [apply pow2_pos | exact Hlo]).
  destruct (binade_spec q Hq) as [Blo Bhi].
  assert (binade q < e + 1)
    by (apply pow2_lt_inv; eapply Qle_lt_trans; eassumption).
  assert (e < binade q + 1)
    by (apply pow2_lt_inv; eapply Qle_lt_trans; eassumption).
  lia.
Qed.

Lemma binade_comp (q q' : Q) : (0 < q)%Q -> (q == q')%Q -> binade q = binade q'.
Proof.
  intros Hq Heq. destruct (binade_spec q Hq) as [Blo Bhi].
  symmetry. apply binade_unique; now rewrite <- Heq.
Qed.

Lemma binade_monotone (q q' : Q) :
  (0 < q)%Q -> (q <= q')%Q -> binade q <= binade q'.
Proof.
  intros Hq Hle.
  assert (Hq' : (0 < q')%Q) by (eapply Qlt_le_trans; eassumption).
  destruct (binade_spec q Hq) as [Blo _].
  destruct (binade_spec q' Hq') as [_ Bhi'].
  assert (binade q < binade q' + 1).
  { apply pow2_lt_inv. eapply Qle_lt_trans; [exact Blo|].
    eapply Qle_lt_trans; eassumption. }
  lia.
Qed.

Lemma Qdiv_le_mono (a b c : Q) : (0 < c)%Q -> (a <= b)%Q -> (a / c <= b / c)%Q.
Proof.
  intros Hc Hab. apply Qle_shift_div_l; [exact Hc|].
  setoid_replace (a / c * c)%Q with a; [exact Hab|].
  field. intros H0. rewrite H0 in Hc. revert Hc. apply Qlt_irrefl.
Qed.

Lemma Qdiv_lt_mono (a b c : Q) : (0 < c)%Q -> (a < b)%Q -> (a / c < b / c)%Q.
Proof.
  intros Hc Hab. apply Qlt_shift_div_l; [exact Hc|].
  setoid_replace (a / c * c)%Q with a; [exact Hab|].
  field. intros H0. rewrite H0 in Hc. revert Hc. apply Qlt_irrefl.
Qed.

Section Rounding.

Variable prec : Z.

Hypothesis prec_pos : 1 <= prec.

(** The scaled value of a positive number lies in the top binade of the
    significands. *)
Lemma scaled_range (q : Q) :
  (0 < q)%Q ->
  let x := (q / pow2 (binade q - (prec - 1)))%Q in
  (pow2 (prec - 1) <= x /\ x < pow2 prec)%Q.
Proof.
  intros Hq x. destruct (binade_spec q Hq) as [Blo Bhi].
  set (e := binade q - (prec - 1)) in *.
  split.
  - replace (prec - 1) with (binade q - e) by (unfold e; ring).
    rewrite pow2_sub. apply Qdiv_le_mono; [apply pow2_pos | exact Blo].
  - assert (E : (pow2 prec == pow2 (binade q + 1) / pow2 e)%Q).
    { rewrite <- pow2_sub.
      replace (binade q + 1 - e) with prec by (unfold e; ring). reflexivity. }
    rewrite E. apply Qdiv_lt_mono; [apply pow2_pos | exact Bhi].
Qed.

Lemma significand_range (q : Q) :
  (0 < q)%Q ->
  let m := round_half_even (q / pow2 (binade q - (prec - 1))) in
  2 ^ (prec - 1) <= m <= 2 ^ prec.
Proof.
  intros Hq m. destruct (scaled_range q Hq) as [Hlo Hhi].
  rewrite (pow2_nat (prec - 1)) in Hlo by lia.
  rewrite (pow2_nat prec) in Hhi by lia.
  split.
  - rewrite <- (round_half_even_integer (2 ^ (prec - 1))).
    now apply round_half_even_monotone.
  - rewrite <- (round_half_even_integer (2 ^ prec)).
    apply round_half_even_monotone. now apply Qlt_le_weak.
Qed.

Lemma round_pos_positive (q : Q) : (0 < q)%Q -> (0 < round_pos prec q)%Q.
Proof.
  intros Hq. unfold round_pos.
  destruct (significand_range q Hq) as [Hlo _].
  apply Qmult_lt_0_compat; [|apply pow2_pos].
  change 0%Q with (inject_Z 0). rewrite <- Zlt_Qlt.
  assert (0 < 2 ^ (prec - 1)) by (apply Z.pow_pos_nonneg; lia). lia.
Qed.

Lemma round_pos_monotone (q q' : Q) :
  (0 < q)%Q -> (q <= q')%Q -> (round_pos prec q <= round_pos prec q')%Q.
Proof.
  intros Hq Hle.
  assert (Hq' : (0 < q')%Q) by (eapply Qlt_le_trans; eassumption).
  pose proof (binade_monotone q q' Hq Hle) as Hb.
  destruct (significand_range q Hq) as [_ Hm].
  destruct (significand_range q' Hq') as [Hm' _].
  unfold round_pos.
  set (e := binade q - (prec - 1)) in *. set (e' := binade q' - (prec - 1)) in *.
  destruct (Z.eq_dec (binade q) (binade q')) as [Heq | Hne].
  - assert (He : e' = e) by (unfold e, e'; lia). rewrite He.
    apply Qmult_le_compat_r; [|apply Qlt_le_weak, pow2_pos].
    rewrite <- Zle_Qle. apply round_half_even_monotone.
    apply Qdiv_le_mono; [apply pow2_pos | exact Hle].
  - apply Qle_trans with (pow2 (binade q + 1)).
    + replace (binade q + 1) with (prec + e) by (unfold e; ring).
      rewrite pow2_add. apply Qmult_le_compat_r; [|apply Qlt_le_weak, pow2_pos].
      rewrite (pow2_nat prec) by lia. now rewrite <- Zle_Qle.
    + apply Qle_trans with (pow2 (binade q')); [apply pow2_le; lia|].
      replace (binade q') with ((prec - 1) + e') at 1 by (unfold e'; ring).
      rewrite pow2_add. apply Qmult_le_compat_r; [|apply Qlt_le_weak, pow2_pos].
      rewrite (pow2_nat (prec - 1)) by lia. now rewrite <- Zle_Qle.
Qed.

Lemma round_pos_comp (q q' : Q) :
  (0 < q)%Q -> (q == q')%Q -> (round_pos prec q == round_pos prec q')%Q.
Proof.
  intros Hq Heq. unfold round_pos.
  rewrite <- (binade_comp q q' Hq Heq).
  set (e := binade q - (prec - 1)).
  assert (Hc : round_half_even (q / pow2 e) = round_half_even (q' / pow2 e)).
  { apply round_half_even_comp. apply Qmult_comp; [exact Heq | reflexivity]. }
  rewrite Hc. reflexivity.
Qed.

Lemma round_to_sign (q : Q) :
  ((q < 0 -> round_to prec q < 0)
   /\ (q == 0 -> round_to prec q == 0)
   /\ (0 < q -> 0 < round_to prec q))%Q.
Proof.
  destruct q as [[|p|p] d]; unfold round_to; simpl Qnum;
    repeat split; intros H; try reflexivity; try discriminate H;
    try (exfalso; revert H; unfold Qlt; simpl; lia).
  - now apply round_pos_positive.
  - change 0%Q with (- 0)%Q. apply Qopp_lt_compat.
    now apply round_pos_positive.
Qed.

(** Rounding to the nearest representable number preserves the order. *)
Lemma round_to_monotone (q q' : Q) :
  (q <= q')%Q -> (round_to prec q <= round_to prec q')%Q.
Proof.
  intros Hle.
  destruct (round_to_sign q) as [Hn [Hz Hp]].
  destruct (round_to_sign q') as [Hn' [Hz' Hp']].
  destruct (Q_dec q 0) as [[Hq | Hq] | Hq];
  destruct (Q_dec q' 0) as [[Hq' | Hq'] | Hq'].
  - (* both negative *)
    destruct q as [[|p|p] d]; try (exfalso; revert Hq; unfold Qlt; simpl; lia).
    destruct q' as [[|p'|p'] d']; try (exfalso; revert Hq'; unfold Qlt; simpl; lia).
    unfold round_to. simpl Qnum. apply Qopp_le_compat.
    apply round_pos_monotone; [reflexivity|].
    apply Qopp_le_compat in Hle. exact Hle.
  - apply Qlt_le_weak. eapply Qlt_trans; [now apply Hn | now apply Hp'].
  - rewrite (Hz' Hq'). apply Qlt_le_weak. now apply Hn.
  - exfalso. apply (Qlt_irrefl 0).
    eapply Qlt_le_trans; [exact Hq|]. eapply Qle_trans; [exact Hle|].
    now apply Qlt_le_weak.
  - destruct q as [[|p|p] d]; try (exfalso; revert Hq; unfold Qlt; simpl; lia).
    destruct q' as [[|p'|p'] d']; try (exfalso; revert Hq'; unfold Qlt; simpl; lia).
    unfold round_to. simpl Qnum. now apply round_pos_monotone.
  - exfalso. apply (Qlt_irrefl 0).
    eapply Qlt_le_trans; [exact Hq|]. now rewrite <- Hq'.
  - exfalso. apply (Qlt_irrefl 0).
    eapply Qle_lt_trans; [|exact Hq']. now rewrite <- Hq.
  - rewrite (Hz Hq). apply Qlt_le_weak. now apply Hp'.
  - rewrite (Hz Hq), (Hz' Hq'). apply Qle_refl.
Qed.

End Rounding.

(** On every scale [w * (H / h)] with [h, H, w <= 12], on the scale
    [27 * (13 / 3)], and on every percentage [(m / t) * 100] with
    [m, t <= 40], [fl] computes the number the machine's binary64
    arithmetic computes. *)
Lemma fl_agrees_with_binary64 :
  forallb (fun h => forallb (fun H => forallb (scale_agrees h H) (upto 12))
                            (upto 12))
          (upto 12) = true
  /\ scale_agrees 3 13 27 = true
  /\ forallb (fun m => forallb (percent_agrees m) (upto 40)) (upto 40) = true.
Proof. repeat split; vm_compute; reflexivity. Qed.

Lemma fl_monotone (q q' : Q) : (q <= q')%Q -> (fl q <= fl q')%Q.
Proof. apply round_to_monotone. lia. Qed.

Lemma fl_one : (fl 1 == 1)%Q.
Proof. reflexivity. Qed.

Lemma fl_hundred : (float_of_int 100 == 100)%Q.
Proof. reflexivity. Qed.

Lemma fl_nonneg (q : Q) : (0 <= q)%Q -> (0 <= fl q)%Q.
Proof. intros H. change 0%Q with (fl 0). now apply fl_monotone. Qed.

Lemma fl_at_least_one (q : Q) : (1 <= q)%Q -> (1 <= fl q)%Q.
Proof. intros H. rewrite <- fl_one. now apply fl_monotone. Qed.

Lemma fl_comp (q q' : Q) : (q == q')%Q -> (fl q == fl q')%Q.
Proof.
  intros H. apply Qle_antisym; apply fl_monotone; rewrite H; apply Qle_refl.
Qed.

(** Single precision. *)
Lemma fl32_monotone (q q' : Q) : (q <= q')%Q -> (fl32 q <= fl32 q')%Q.
Proof. apply round_to_monotone. lia. Qed.

Lemma fl32_comp (q q' : Q) : (q == q')%Q -> (fl32 q == fl32 q')%Q.
Proof.
  intros H. apply Qle_antisym; apply fl32_monotone; rewrite H; apply Qle_refl.
Qed.

Lemma fl32_one : (fl32 1 == 1)%Q.
Proof. reflexivity. Qed.

(** The integers up to 1024 in absolute value are single-precision
    numbers. *)
Lemma fl32_small_integer (s : Z) :
  -1024 <= s <= 1024 -> (fl32 (inject_Z s) == inject_Z s)%Q.
Proof.
  intros Hs.
  assert (Hall : forallb (fun n =>
                   Qeq_bool (fl32 (inject_Z (Z.of_nat n)))
                            (inject_Z (Z.of_nat n))
                   && Qeq_bool (fl32 (inject_Z (- Z.of_nat n)))
                               (inject_Z (- Z.of_nat n)))
                 (seq 0 1025) = true) by (vm_compute; reflexivity).
  rewrite forallb_forall in Hall.
  specialize (Hall (Z.to_nat (Z.abs s))). rewrite Z2Nat.id in Hall by lia.
  assert (Hin : In (Z.to_nat (Z.abs s)) (seq 0 1025)) by (apply in_seq; lia).
  apply Hall in Hin. apply andb_true_iff in Hin. destruct Hin as [Hp Hn].
  destruct (Z.abs_spec s) as [[_ E]|[_ E]]; rewrite E in Hp, Hn.
  - now apply Qeq_bool_iff.
  - rewrite Z.opp_involutive in Hn. now apply Qeq_bool_iff.
Qed.

(** ** Slices and crops *)

Lemma slice_index_range (n i : Z) : 0 <= n -> 0 <= slice_index n i <= n.
Proof.
  intros Hn. unfold slice_index.
  destruct (Z.ltb_spec i 0); lia.
Qed.

Lemma py_slice_length {A : Type} (start stop : Z) (l : list A) :
  length (py_slice start stop l)
  = Z.to_nat (slice_index (Z.of_nat (length l)) stop
              - slice_index (Z.of_nat (length l)) start).
Proof.
  unfold py_slice.
  pose proof (slice_index_range (Z.of_nat (length l)) start ltac:(lia)).
  pose proof (slice_index_range (Z.of_nat (length l)) stop ltac:(lia)).
  rewrite length_firstn, length_skipn. lia.
Qed.

Lemma py_slice_incl {A : Type} (start stop : Z) (l : list A) (x : A) :
  In x (py_slice start stop l) -> In x l.
Proof.
  unfold py_slice. intros Hin.
  set (a := Z.to_nat (slice_index (Z.of_nat (length l)) start)) in *.
  set (k := Z.to_nat _) in Hin.
  rewrite <- (firstn_skipn a l). apply in_or_app. right.
  rewrite <- (firstn_skipn k (skipn a l)). apply in_or_app. now left.
Qed.



(** A negative stop counts from the end of the list: the slice is not
    empty although the bounds describe no region of the image. *)
Lemma py_slice_negative_stop {A : Type} (stop : Z) (l : list A) :
  stop < 0 -> 0 <= stop + Z.of_nat (length l) ->
  length (py_slice 0 stop l) = Z.to_nat (stop + Z.of_nat (length l)).
Proof.
  intros Hs Hn. rewrite py_slice_length. unfold slice_index.
  destruct (Z.ltb_spec stop 0); try lia.
  destruct (Z.ltb_spec 0 0); lia.
Qed.

Lemma size_pos_iff (c : image) :
  (0 < size c)%nat <-> (0 < height c)%nat /\ (0 < width c)%nat.
Proof. unfold size. nia. Qed.




(** ** The sort by left edge *)

Lemma insert_detection_perm (d : detection) (l : list detection) :
  Permutation (d :: l) (insert_detection d l).
Proof.
  induction l as [|e l IH]; simpl.
  - apply Permutation_refl.
  - destruct (left_edge e <? left_edge d).
    + eapply Permutation_trans; [apply perm_swap|].
      now apply perm_skip.
    + apply Permutation_refl.
Qed.


Lemma insert_detection_sorted (d : detection) (l : list detection) :
  StronglySorted left_le l -> StronglySorted left_le (insert_detection d l).
Proof.
  induction 1 as [|e l Hl IH He]; simpl.
  - constructor; constructor.
  - destruct (Z.ltb_spec (left_edge e) (left_edge d)) as [Hlt | Hge].
    + constructor; [exact IH|].
      eapply Permutation_Forall; [apply insert_detection_perm|].
      constructor; [unfold left_le; lia | exact He].
    + constructor; [constructor; assumption|].
      constructor; [exact Hge|].
      eapply Forall_impl; [|exact He].
      unfold left_le. intros a Ha. lia.
Qed.

Lemma sort_detections_sorted (l : list detection) :
  StronglySorted left_le (sort_detections l).
Proof.
  induction l as [|d l IH]; simpl.
  - constructor.
  - now apply insert_detection_sorted.
Qed.

(** Two insertions with different keys commute, whatever the list. *)
Lemma insert_detection_comm (x y : detection) (l : list detection) :
  left_edge x <> left_edge y ->
  insert_detection x (insert_detection y l)
  = insert_detection y (insert_detection x l).
Proof.
  intros Hxy. induction l as [|e l IH]; simpl.
  - destruct (Z.ltb_spec (left_edge y) (left_edge x)),
             (Z.ltb_spec (left_edge x) (left_edge y)); try lia; reflexivity.
  - destruct (Z.ltb_spec (left_edge e) (left_edge y)) as [Hey | Hey],
             (Z.ltb_spec (left_edge e) (left_edge x)) as [Hex | Hex]; simpl;
      repeat match goal with
        | |- context [?a <? ?b] => destruct (Z.ltb_spec a b); try lia
        end;
      try reflexivity; try (f_equal; exact IH).
Qed.

(** With pairwise different left edges the sorted list depends on the set
    of detections only, not on the order they were reported in. *)
Lemma sort_detections_order_free (l l' : list detection) :
  Permutation l l' ->
  NoDup (map left_edge l) ->
  sort_detections l = sort_detections l'.
Proof.
  induction 1 as [| d l l' Hp IH | x y l | l l' l'' Hp1 IH1 Hp2 IH2];
    intros Hnd; simpl.
  - reflexivity.
  - simpl in Hnd. inversion Hnd; subst. now rewrite IH.
  - simpl in Hnd. inversion Hnd as [|? ? Hnotin _]; subst.
    apply insert_detection_comm.
    intros Heq. apply Hnotin. simpl. now left.
  - rewrite IH1 by assumption. apply IH2.
    eapply Permutation_NoDup; [|exact Hnd].
    now apply Permutation_map.
Qed.



Lemma collect_crops_survivors (img : image) (ds : list detection) :
  collect_crops img ds
  = map (clip_and_crop img)
        (filter (fun d => Nat.ltb 0 (size (clip_and_crop img d))) ds).
Proof.
  induction ds as [|d ds IH]; simpl; [reflexivity|].
  destruct (Nat.ltb 0 (size (clip_and_crop img d))); simpl; now rewrite IH.
Qed.


(** ** The width of a rescaled crop *)

Lemma py_int_floor (q : Q) : (0 <= q)%Q -> py_int q = Qfloor q.
Proof.
  destruct q as [n d]. unfold Qle, py_int, Qfloor. simpl. intros Hn.
  apply Z.quot_div_nonneg; lia.
Qed.

Lemma inject_nat_nonneg (n : nat) : (0 <= inject_Z (Z.of_nat n))%Q.
Proof. unfold Qle. simpl. lia. Qed.

Lemma inject_nat_pos (n : nat) : (0 < n)%nat -> (0 < inject_Z (Z.of_nat n))%Q.
Proof. unfold Qlt. simpl. lia. Qed.

(** For a crop of positive height the scale never divides by zero: the new
    width is the float product [w * (max_h / h)], truncated. *)
Lemma new_width_value (max_h h w : nat) :
  (0 < h)%nat ->
  new_width max_h h w
  = Ok (py_int (fmul (float_of_int (Z.of_nat w))
                     (fl (inject_Z (Z.of_nat max_h) / inject_Z (Z.of_nat h))))).
Proof.
  intros Hh. unfold new_width, truediv.
  pose proof (inject_nat_pos h Hh) as Hpos.
  destruct (Qeq_bool (inject_Z (Z.of_nat h)) 0) eqn:Hz; [|reflexivity].
  apply Qeq_bool_iff in Hz. rewrite Hz in Hpos.
  exfalso. revert Hpos. apply Qlt_irrefl.
Qed.

(** Scaling up never loses the last column: rounding preserves the order,
    and 1 is a float. *)
Lemma scaled_up_at_least_one (max_h h w : nat) :
  (0 < h)%nat -> (h <= max_h)%nat -> (0 < w)%nat ->
  1 <= py_int (fmul (float_of_int (Z.of_nat w))
                    (fl (inject_Z (Z.of_nat max_h) / inject_Z (Z.of_nat h)))).
Proof.
  intros Hh Hle Hw. pose proof (inject_nat_pos h Hh) as Hpos.
  assert (Hscale : (1 <= fl (inject_Z (Z.of_nat max_h) / inject_Z (Z.of_nat h)))%Q).
  { apply fl_at_least_one. apply Qle_shift_div_l; [exact Hpos|].
    rewrite Qmult_1_l, <- Zle_Qle. lia. }
  assert (Hwf : (1 <= float_of_int (Z.of_nat w))%Q).
  { apply fl_at_least_one. change 1%Q with (inject_Z 1).
    rewrite <- Zle_Qle. lia. }
  assert (Hprod : (1 <= fmul (float_of_int (Z.of_nat w))
                          (fl (inject_Z (Z.of_nat max_h)
                               / inject_Z (Z.of_nat h))))%Q).
  { apply fl_at_least_one.
    setoid_replace 1%Q with (1 * 1)%Q by ring.
    apply Qmult_le_compat_nonneg; split; (discriminate || assumption). }
  rewrite py_int_floor
    by (eapply Qle_trans; [|exact Hprod]; discriminate).
  change 1 with (Qfloor 1). now apply Qfloor_resp_le.
Qed.

(** ** Heights of the collected crops *)

Lemma collect_crops_positive (img : image) (ds : list detection) :
  Forall (fun c => (0 < height c)%nat /\ (0 < width c)%nat)
         (collect_crops img ds).
Proof.
  induction ds as [|d ds IH]; simpl; [constructor|].
  destruct (Nat.ltb_spec 0 (size (clip_and_crop img d))) as [Hs | Hs].
  - constructor; [now apply size_pos_iff | exact IH].
  - exact IH.
Qed.

Lemma max_height_ge (crops : list image) (c : image) :
  In c crops -> (height c <= max_height crops)%nat.
Proof.
  unfold max_height. induction crops as [|a crops IH]; simpl; [tauto|].
  intros [-> | Hin]; [lia|]. specialize (IH Hin). lia.
Qed.

(** ** Stitching *)




Section StitchingFacts.

Variable resize : image -> nat -> nat -> image.

(** The contract of [cv2.resize]: the result has the requested size. *)
Hypothesis resize_shape :
  forall c new_w new_h, has_shape (resize c new_w new_h) new_h new_w.





End StitchingFacts.

Lemma resize_nearest_shape (c : image) (new_w new_h : nat) :
  has_shape (resize_nearest c new_w new_h) new_h new_w.
Proof.
  unfold resize_nearest, has_shape. split.
  - now rewrite length_map, length_seq.
  - apply Forall_forall. intros row Hin.
    apply in_map_iff in Hin. destruct Hin as [i [<- _]].
    now rewrite length_map, length_seq.
Qed.




(** ** Panel extraction: the claims *)

Section PanelClaims.

Variable resize : image -> nat -> nat -> image.

Hypothesis resize_shape :
  forall c new_w new_h, has_shape (resize c new_w new_h) new_h new_w.


End PanelClaims.



(** C4, as the code has it.  For every crop the stitching step keeps whose
    height [h] differs from the maximum height [H], the scale [H / h] is
    computed without a division error and the new width is the float
    product [w * (H / h)] rounded DOWN to an integer ([int] truncates); it
    is at least 1. *)
Theorem rescaled_width_truncates (img : image) (ds : list detection)
    (c : image) :
  let crops := collect_crops img ds in
  let H := max_height crops in
  In c crops ->
  height c <> H ->
  exists new_w,
    new_width H (height c) (width c) = Ok new_w
    /\ new_w = Qfloor (fmul (float_of_int (Z.of_nat (width c)))
                            (fl (inject_Z (Z.of_nat H)
                                 / inject_Z (Z.of_nat (height c)))))
    /\ 1 <= new_w.
Proof.
  intros crops H Hin Hne.
  pose proof (collect_crops_positive img ds) as Hpos.
  rewrite Forall_forall in Hpos. destruct (Hpos c Hin) as [Hh Hw].
  pose proof (max_height_ge crops c Hin) as Hle. fold H in Hle.
  pose proof (scaled_up_at_least_one H (height c) (width c) Hh Hle Hw) as H1.
  eexists. split; [now apply new_width_value|].
  split; [|exact H1].
  apply py_int_floor. apply fl_nonneg.
  apply Qmult_le_0_compat; apply fl_nonneg.
  - apply inject_nat_nonneg.
  - apply Qle_shift_div_l; [now apply inject_nat_pos|].
    rewrite Qmult_0_l. apply inject_nat_nonneg.
Qed.

Lemma rescaled_width_truncates_witness :
  let img := ramp 4 10 in
  let ds := map mkDetection [(0, 0, 5, 3); (5, 0, 7, 4)] in
  let c := clip_and_crop img (mkDetection (0, 0, 5, 3)) in
  let crops := collect_crops img ds in
  let H := max_height crops in
  In c crops
  /\ height c <> H
  /\ exists new_w,
      new_width H (height c) (width c) = Ok new_w
      /\ new_w = Qfloor (fmul (float_of_int (Z.of_nat (width c)))
                              (fl (inject_Z (Z.of_nat H)
                                   / inject_Z (Z.of_nat (height c)))))
      /\ 1 <= new_w.
Proof.
  intros img ds c crops H.
  assert (Hin : In c crops) by (left; reflexivity).
  assert (Hne : height c <> H) by (vm_compute; lia).
  split; [exact Hin|]. split; [exact Hne|].
  exact (rescaled_width_truncates img ds c Hin Hne).
Defined.

(** C4 as stated fails: a 3-row, 5-column crop next to a 4-row crop gets
    the width [int(5 * (4 / 3)) = 6], and the integer nearest to
    [5 * (4 / 3) = 6.67], exact or as a float, is 7, not 6.  The stitched
    panel is 6 + 2 = 8 columns wide. *)
Lemma rescaled_width_not_nearest :
  let img := ramp 4 10 in
  let boxes := [(0, 0, 5, 3); (5, 0, 7, 4)] in
  map (fun c => (height c, width c)) (map (clip_and_crop img) (survivors img boxes))
  = [(3, 5); (4, 2)]%nat
  /\ new_width 4 3 5 = Ok 6
  /\ ~ nearest_integer (5 * (4 / 3)) 6
  /\ ~ nearest_integer (fmul 5 (fl (4 / 3))) 6
  /\ nearest_integer (5 * (4 / 3)) 7
  /\ exists out, extractPanel resize_nearest img boxes = Ok out
                 /\ width out = 8%nat.
Proof.
  split; [reflexivity|]. split; [vm_compute; reflexivity|].
  split; [|split; [|split]].
  - unfold nearest_integer. apply Qlt_not_le. reflexivity.
  - unfold nearest_integer. apply Qlt_not_le. vm_compute. reflexivity.
  - unfold nearest_integer. vm_compute. discriminate.
  - eexists. split; vm_compute; reflexivity.
Qed.

(** The truncated float product can even fall below the exact quotient:
    [13 / 3] rounds down, [27 * (13 / 3)] rounds to the float just below
    117, and [int] gives 116. *)
Lemma new_width_below_exact_quotient :
  new_width 13 3 27 = Ok 116
  /\ (27 * (13 / 3) == 117)%Q
  /\ (fmul 27 (fl (13 / 3)) < 117)%Q.
Proof. repeat split; vm_compute; reflexivity. Qed.

(** Inserting a detection puts it in front of the detections of the same
    left edge, and leaves the others in their order. *)
Lemma insert_detection_stable (k : Z) (d : detection) (l : list detection) :
  filter (fun e => left_edge e =? k) (insert_detection d l)
  = filter (fun e => left_edge e =? k) (d :: l).
Proof.
  induction l as [|e l IH]; [reflexivity|].
  change (insert_detection d (e :: l))
    with (if left_edge e <? left_edge d then e :: insert_detection d l
          else d :: e :: l).
  destruct (Z.ltb_spec (left_edge e) (left_edge d)) as [Hlt|_]; [|reflexivity].
  simpl. simpl in IH. rewrite IH.
  destruct (Z.eqb_spec (left_edge e) k) as [He|_]; [|reflexivity].
  destruct (Z.eqb_spec (left_edge d) k) as [Hd|_]; [lia | reflexivity].
Qed.

(** The sort is stable: the detections of one left edge are in the sorted
    list in the order they had. *)
Lemma sort_detections_stable (k : Z) (l : list detection) :
  filter (fun e => left_edge e =? k) (sort_detections l)
  = filter (fun e => left_edge e =? k) l.
Proof.
  induction l as [|d l IH]; [reflexivity|].
  change (sort_detections (d :: l))
    with (insert_detection d (sort_detections l)).
  rewrite insert_detection_stable. simpl. now rewrite IH.
Qed.

Lemma filter_left_above (k : Z) (l : list detection) :
  Forall (fun d => k < left_edge d) l ->
  filter (fun e => left_edge e =? k) l = [].
Proof.
  induction 1 as [|d l Hd _ IH]; simpl; [reflexivity|].
  destruct (Z.eqb_spec (left_edge d) k); [lia | exact IH].
Qed.

(** Two sorted lists with the same detections, in the same order, at every
    left edge are the same list. *)
Lemma sorted_by_groups (l l' : list detection) :
  StronglySorted left_le l -> StronglySorted left_le l' ->
  (forall k, filter (fun e => left_edge e =? k) l
             = filter (fun e => left_edge e =? k) l') ->
  l = l'.
Proof.
  intros Hs. revert l'.
  induction Hs as [|a l Hs IH Ha]; intros l' Hs' Hf.
  - destruct l' as [|b l']; [reflexivity|].
    specialize (Hf (left_edge b)). simpl in Hf.
    rewrite Z.eqb_refl in Hf. discriminate.
  - destruct Hs' as [|b l' Hs' Hb].
    + specialize (Hf (left_edge a)). simpl in Hf.
      rewrite Z.eqb_refl in Hf. discriminate.
    + assert (Hab : left_edge a = left_edge b).
      { destruct (Z.lt_trichotomy (left_edge a) (left_edge b))
          as [Hlt|[Heq|Hgt]]; [|exact Heq|]; exfalso.
        - specialize (Hf (left_edge a)). simpl in Hf.
          rewrite Z.eqb_refl in Hf.
          rewrite (proj2 (Z.eqb_neq (left_edge b) (left_edge a))) in Hf by lia.
          rewrite (filter_left_above (left_edge a) l') in Hf;
            [discriminate Hf|].
          eapply Forall_impl; [|exact Hb]. unfold left_le. intros c Hc. lia.
        - specialize (Hf (left_edge b)). simpl in Hf.
          rewrite Z.eqb_refl in Hf.
          rewrite (proj2 (Z.eqb_neq (left_edge a) (left_edge b))) in Hf by lia.
          rewrite (filter_left_above (left_edge b) l) in Hf;
            [discriminate Hf|].
          eapply Forall_impl; [|exact Ha]. unfold left_le. intros c Hc. lia. }
      pose proof (Hf (left_edge b)) as Hk. simpl in Hk.
      rewrite Hab, Z.eqb_refl in Hk. injection Hk as Heq _. subst b.
      f_equal. apply IH; [exact Hs'|]. intros k.
      specialize (Hf k). simpl in Hf.
      destruct (left_edge a =? k); [now injection Hf | exact Hf].
Qed.

Lemma filter_same_left (k : Z) (boxes : list (Z * Z * Z * Z)) :
  filter (fun e => left_edge e =? k) (map mkDetection boxes)
  = map mkDetection (filter (same_left k) boxes).
Proof.
  induction boxes as [|b boxes IH]; [reflexivity|]. simpl.
  change (left_edge (mkDetection b)) with (box_left b).
  unfold same_left at 1. destruct (box_left b =? k); simpl; now rewrite IH.
Qed.

(** C5, as the code has it.  For every source image and every sequence of
    boxes, every permutation that leaves the boxes of each reported left
    edge in their relative order, so every permutation when the left edges
    are pairwise different, gives the same result (the same image, or the
    same exception).  The sort is stable: the boxes of one left edge are
    stitched in the order the detector reported them in. *)
Theorem extractPanel_order_free (resize : image -> nat -> nat -> image)
    (img : image) (boxes boxes' : list (Z * Z * Z * Z)) :
  Permutation boxes boxes' ->
  NoDup (map box_left boxes)
  \/ (forall k, filter (same_left k) boxes = filter (same_left k) boxes') ->
  extractPanel resize img boxes = extractPanel resize img boxes'
  /\ (forall k,
        filter (fun d => left_edge d =? k)
               (sort_detections (map mkDetection boxes))
        = map mkDetection (filter (same_left k) boxes)).
Proof.
  intros Hperm Hcase. split.
  - unfold extractPanel. rewrite (Permutation_length Hperm).
    replace (sort_detections (map mkDetection boxes'))
      with (sort_detections (map mkDetection boxes)); [reflexivity|].
    destruct Hcase as [Hnd|Hsame].
    + apply sort_detections_order_free; [now apply Permutation_map|].
      rewrite map_map.
      replace (map (fun b => left_edge (mkDetection b)) boxes)
        with (map box_left boxes); [exact Hnd|].
      apply map_ext. now intros [[[x1 y1] x2] y2].
    + apply sorted_by_groups; try apply sort_detections_sorted.
      intros k. rewrite !sort_detections_stable, !filter_same_left.
      now rewrite Hsame.
  - intros k. now rewrite sort_detections_stable, filter_same_left.
Qed.

Lemma extractPanel_order_free_witness :
  let boxes := [(0, 0, 1, 1); (1, 0, 2, 2); (0, 1, 1, 2)] in
  let boxes' := [(0, 0, 1, 1); (0, 1, 1, 2); (1, 0, 2, 2)] in
  Permutation boxes boxes'
  /\ (forall k, filter (same_left k) boxes = filter (same_left k) boxes')
  /\ extractPanel resize_nearest (ramp 4 4) boxes
     = extractPanel resize_nearest (ramp 4 4) boxes'.
Proof.
  intros boxes boxes'.
  assert (Hp : Permutation boxes boxes') by (apply perm_skip, perm_swap).
  assert (Hk : forall k, filter (same_left k) boxes
                         = filter (same_left k) boxes').
  { intros k. destruct k as [|[q|q|]|q]; reflexivity. }
  split; [exact Hp|]. split; [exact Hk|].
  exact (proj1 (extractPanel_order_free resize_nearest (ramp 4 4) boxes boxes'
                  Hp (or_intror Hk))).
Defined.

(** C5 as stated fails: two boxes with the same left edge are stitched in
    the order the detector reported them, so swapping them swaps the two
    halves of the panel. *)
Lemma extractPanel_tie_order_counterexample :
  let img := [[grey 1]; [grey 2]] in
  let boxes := [(0, 0, 1, 1); (0, 1, 1, 2)] in
  let boxes' := [(0, 1, 1, 2); (0, 0, 1, 1)] in
  Permutation boxes boxes'
  /\ extractPanel resize_nearest img boxes = Ok [[grey 1; grey 2]]
  /\ extractPanel resize_nearest img boxes' = Ok [[grey 2; grey 1]]
  /\ extractPanel resize_nearest img boxes
     <> extractPanel resize_nearest img boxes'.
Proof.
  split; [apply perm_swap|]. split; [reflexivity|]. split; [reflexivity|].
  vm_compute. discriminate.
Qed.

(** ** Running [load_model] and [crop_front_panel] *)

Lemma crop_load_model_ok (w : world) (s : state) :
  detector_available w s ->
  Crop.load_model w s = (Ok tt, after_load STDOUT s).
Proof.
  unfold detector_available, Crop.load_model, after_load. run_monad.
  intros [Hc | [Hw Hy]].
  - now rewrite Hc.
  - destruct (model_cache s); [reflexivity|]. simpl.
    now rewrite Hw, Hy.
Qed.

Lemma cropper_load_model_ok (w : world) (s : state) :
  detector_available w s ->
  Cropper.load_model w s = (Ok tt, after_load INFO s).
Proof.
  unfold detector_available, Cropper.load_model, after_load. run_monad.
  intros [Hc | [Hw Hy]].
  - now rewrite Hc.
  - destruct (model_cache s); [reflexivity|]. simpl.
    now rewrite Hw, Hy.
Qed.

Lemma crop_load_model_missing (w : world) (s : state) :
  model_cache s = false -> weights_exist w = false ->
  Crop.load_model w s = (Raise FileNotFoundError, s).
Proof.
  intros Hc Hw. unfold Crop.load_model. run_monad. now rewrite Hc, Hw.
Qed.

Lemma cropper_load_model_missing (w : world) (s : state) :
  model_cache s = false -> weights_exist w = false ->
  Cropper.load_model w s
  = (Raise FileNotFoundError, extended s [(ERROR, MsgWeightsNotFound)] []).
Proof.
  intros Hc Hw. unfold Cropper.load_model, extended. run_monad.
  rewrite Hc, Hw. simpl. rewrite app_nil_r, ?Hc. reflexivity.
Qed.



(** Once the detector has answered with [boxes], both versions of
    [crop_front_panel] return the image [extractPanel] computes, or raise
    what it raises. *)
Lemma crop_returns_extractPanel (resize : image -> nat -> nat -> image)
    (w : world) (image_path : string) (out_path : option string) (s : state)
    (img : image) (boxes : list (Z * Z * Z * Z)) :
  imread w image_path = Some img ->
  detector_available w s ->
  infer w image_path = Ok boxes ->
  fst (Crop.crop_front_panel resize w image_path out_path s)
  = rbind (extractPanel resize img boxes) (fun final => Ok (final, out_path)).
Proof.
  intros Hread Hdet Hinf. unfold Crop.crop_front_panel. rewrite Hread.
  unfold bind at 1. rewrite (crop_load_model_ok w s Hdet).
  unfold bind at 1. unfold lift at 1. rewrite Hinf.
  unfold extractPanel.
  destruct (Nat.ltb 0 (length boxes)).
  - set (crops := collect_crops img _).
    destruct (Nat.eqb (length crops) 1).
    + run_monad. now destruct (truthy_path out_path).
    + destruct (Nat.leb 2 (length crops)).
      * run_monad. destruct (merge_crops resize crops); simpl; [|reflexivity].
        now destruct (truthy_path out_path).
      * run_monad. now destruct (truthy_path out_path).
  - run_monad. now destruct (truthy_path out_path).
Qed.

Lemma cropper_returns_extractPanel (resize : image -> nat -> nat -> image)
    (w : world) (image_path : string) (out_path : option string) (s : state)
    (img : image) (boxes : list (Z * Z * Z * Z)) :
  imread w image_path = Some img ->
  detector_available w s ->
  infer w image_path = Ok boxes ->
  fst (Cropper.crop_front_panel resize w image_path out_path s)
  = rbind (extractPanel resize img boxes) (fun final => Ok (final, out_path)).
Proof.
  intros Hread Hdet Hinf. unfold Cropper.crop_front_panel. rewrite Hread.
  unfold bind at 1. unfold emit at 1.
  unfold bind at 1. unfold attempt at 1. unfold bind at 1.
  rewrite cropper_load_model_ok by exact Hdet.
  unfold lift at 1. rewrite Hinf.
  unfold extractPanel.
  destruct (Nat.ltb 0 (length boxes)).
  - set (crops := collect_crops img _).
    destruct (Nat.eqb (length crops) 1).
    + run_monad. now destruct (truthy_path out_path).
    + destruct (Nat.leb 2 (length crops)).
      * run_monad. destruct (merge_crops resize crops); simpl; [|reflexivity].
        now destruct (truthy_path out_path).
      * run_monad. now destruct (truthy_path out_path).
  - run_monad. now destruct (truthy_path out_path).
Qed.

(** ** No surviving box *)




(** A box whose far corner is negative is not discarded although it lies
    outside the image: the clipped stop index [-1] is read by the slice as
    "one before the end", and the crop is the first three columns of the
    first two rows. *)
Lemma negative_far_corner_wraps :
  let img := ramp 4 4 in
  let boxes := [(-20, 0, -1, 2)] in
  clipped_width img (mkDetection (-20, 0, -1, 2)) = -1
  /\ extractPanel resize_nearest img boxes
     = Ok [[grey 0; grey 1; grey 2]; [grey 10; grey 11; grey 12]]
  /\ fst (Cropper.crop_front_panel resize_nearest (world_with img boxes)
            "plant.jpg" None fresh)
     = Ok ([[grey 0; grey 1; grey 2]; [grey 10; grey 11; grey 12]], None).
Proof. repeat split; reflexivity. Qed.

(** ** Detector failures *)

(** C6, as the code has it.  For every readable source image and usable
    detector whose inference call raises [e]: [cropper.py] catches [e],
    logs it at ERROR level (not as a warning), writes no snapshot and
    returns the unmodified source image; [crop.py] has no handler and
    raises [e] to its caller. *)
Theorem inference_failure_handling (resize : image -> nat -> nat -> image)
    (w : world) (image_path : string) (out_path : option string) (s : state)
    (img : image) (e : exn) :
  imread w image_path = Some img ->
  detector_available w s ->
  infer w image_path = Raise e ->
  Cropper.crop_front_panel resize w image_path out_path s
  = (Ok (img, out_path),
     extended
       (after_load INFO (extended s [(INFO, MsgProcessing image_path)] []))
       [(ERROR, MsgInferenceFailed e)] [])
  /\ Crop.crop_front_panel resize w image_path out_path s
     = (Raise e, after_load STDOUT s).
Proof.
  intros Hread Hdet Hinf. split.
  - unfold Cropper.crop_front_panel. rewrite Hread.
    unfold bind at 1. unfold emit at 1.
    unfold bind at 1. unfold attempt at 1. unfold bind at 1.
    rewrite cropper_load_model_ok by exact Hdet.
    unfold lift at 1. rewrite Hinf.
    replace (extended s [(INFO, MsgProcessing image_path)] [])
      with (mkState (model_cache s) (log s ++ [(INFO, MsgProcessing image_path)])
                    (snapshots s))
      by (unfold extended; now rewrite app_nil_r).
    unfold extended. run_monad. now rewrite app_nil_r.
  - unfold Crop.crop_front_panel. rewrite Hread.
    unfold bind at 1. rewrite (crop_load_model_ok w s Hdet).
    unfold bind at 1. unfold lift at 1. now rewrite Hinf.
Qed.

Lemma inference_failure_handling_witness :
  let img := ramp 4 4 in
  let w := world_failing_inference img in
  let image_path := "plant.jpg"%string in
  imread w image_path = Some img
  /\ detector_available w fresh
  /\ infer w image_path = Raise (ExternalError 0)
  /\ Cropper.crop_front_panel resize_nearest w image_path None fresh
     = (Ok (img, None),
        extended
          (after_load INFO (extended fresh [(INFO, MsgProcessing image_path)] []))
          [(ERROR, MsgInferenceFailed (ExternalError 0))] [])
  /\ Crop.crop_front_panel resize_nearest w image_path None fresh
     = (Raise (ExternalError 0), after_load STDOUT fresh).
Proof.
  intros img w image_path.
  assert (Hread : imread w image_path = Some img) by reflexivity.
  assert (Hdet : detector_available w fresh) by (right; split; reflexivity).
  assert (Hinf : infer w image_path = Raise (ExternalError 0)) by reflexivity.
  split; [exact Hread|]. split; [exact Hdet|]. split; [exact Hinf|].
  exact (inference_failure_handling resize_nearest w image_path None fresh
           img (ExternalError 0) Hread Hdet Hinf).
Defined.

(** C6 as stated fails twice: in [crop.py] the detector's exception reaches
    the caller, and in [cropper.py] the failure is reported at ERROR level,
    with no WARNING entry in the log. *)
Lemma inference_failure_counterexample :
  let img := ramp 4 4 in
  let w := world_failing_inference img in
  fst (Crop.crop_front_panel resize_nearest w "plant.jpg" None fresh)
  = Raise (ExternalError 0)
  /\ Cropper.crop_front_panel resize_nearest w "plant.jpg" None fresh
     = (Ok (img, None),
        mkState true
          [(INFO, MsgProcessing "plant.jpg"); (INFO, MsgLoadingModel);
           (ERROR, MsgInferenceFailed (ExternalError 0))] [])
  /\ (forall msg,
        ~ In (WARNING, msg)
             (log (snd (Cropper.crop_front_panel resize_nearest w "plant.jpg"
                          None fresh)))).
Proof.
  split; [reflexivity|]. split; [reflexivity|].
  intros msg Hin; vm_compute in Hin;
    repeat (destruct Hin as [Hin | Hin]; [discriminate Hin|]); exact Hin.
Qed.

(** C9, as the code has it.  For every readable source image, when no model
    is cached and the weights are missing, [load_model] raises
    [FileNotFoundError] in both versions.  [crop.py] lets it reach the
    caller of [crop_front_panel].  [cropper.py] calls [load_model] inside
    its [try] block: the exception is caught, logged at ERROR level as an
    inference failure, and the unmodified source image is returned; the
    handle stays unloaded, so the next call repeats the attempt. *)
Theorem missing_weights_handling (resize : image -> nat -> nat -> image)
    (w : world) (image_path : string) (out_path : option string) (s : state)
    (img : image) :
  imread w image_path = Some img ->
  model_cache s = false ->
  weights_exist w = false ->
  fst (Crop.load_model w s) = Raise FileNotFoundError
  /\ Crop.crop_front_panel resize w image_path out_path s
     = (Raise FileNotFoundError, s)
  /\ fst (Cropper.load_model w s) = Raise FileNotFoundError
  /\ Cropper.crop_front_panel resize w image_path out_path s
     = (Ok (img, out_path),
        extended s
          [(INFO, MsgProcessing image_path); (ERROR, MsgWeightsNotFound);
           (ERROR, MsgInferenceFailed FileNotFoundError)] [])
  /\ model_cache
       (snd (Cropper.crop_front_panel resize w image_path out_path s)) = false.
Proof.
  intros Hread Hc Hw.
  assert (Hcropper :
    Cropper.crop_front_panel resize w image_path out_path s
    = (Ok (img, out_path),
       extended s
         [(INFO, MsgProcessing image_path); (ERROR, MsgWeightsNotFound);
          (ERROR, MsgInferenceFailed FileNotFoundError)] [])).
  { unfold Cropper.crop_front_panel. rewrite Hread.
    unfold bind at 1. unfold emit at 1.
    unfold bind at 1. unfold attempt at 1. unfold bind at 1.
    rewrite cropper_load_model_missing by assumption.
    unfold extended. run_monad. now rewrite <- !app_assoc, !app_nil_r. }
  split; [now rewrite crop_load_model_missing|]. split.
  - unfold Crop.crop_front_panel. rewrite Hread.
    unfold bind at 1. now rewrite crop_load_model_missing.
  - split; [now rewrite cropper_load_model_missing|].
    split; [exact Hcropper|]. now rewrite Hcropper.
Qed.

Lemma missing_weights_handling_witness :
  let img := ramp 4 4 in
  let w := world_without_weights img in
  let image_path := "plant.jpg"%string in
  imread w image_path = Some img
  /\ model_cache fresh = false
  /\ weights_exist w = false
  /\ fst (Crop.load_model w fresh) = Raise FileNotFoundError
  /\ Crop.crop_front_panel resize_nearest w image_path None fresh
     = (Raise FileNotFoundError, fresh)
  /\ fst (Cropper.load_model w fresh) = Raise FileNotFoundError
  /\ Cropper.crop_front_panel resize_nearest w image_path None fresh
     = (Ok (img, None),
        extended fresh
          [(INFO, MsgProcessing image_path); (ERROR, MsgWeightsNotFound);
           (ERROR, MsgInferenceFailed FileNotFoundError)] [])
  /\ model_cache
       (snd (Cropper.crop_front_panel resize_nearest w image_path None fresh))
     = false.
Proof.
  intros img w image_path.
  assert (Hread : imread w image_path = Some img) by reflexivity.
  assert (Hc : model_cache fresh = false) by reflexivity.
  assert (Hw : weights_exist w = false) by reflexivity.
  split; [exact Hread|]. split; [exact Hc|]. split; [exact Hw|].
  exact (missing_weights_handling resize_nearest w image_path None fresh img
           Hread Hc Hw).
Defined.

(** C9 as stated fails for [cropper.py]: with the weights missing,
    [crop_front_panel] returns the source image instead of raising. *)
Lemma missing_weights_absorbed :
  let img := ramp 4 4 in
  let w := world_without_weights img in
  fst (Cropper.load_model w fresh) = Raise FileNotFoundError
  /\ Cropper.crop_front_panel resize_nearest w "plant.jpg" None fresh
     = (Ok (img, None),
        mkState false
          [(INFO, MsgProcessing "plant.jpg"); (ERROR, MsgWeightsNotFound);
           (ERROR, MsgInferenceFailed FileNotFoundError)] []).
Proof. split; reflexivity. Qed.

(** ** Growth *)

(** A positive divisor is not zero: the division returns. *)
Lemma truediv_positive (a b : pyfloat) :
  float_lt 0%Q b = true -> truediv a b = Ok (fl (a / b)).
Proof.
  intros Hlt. unfold truediv.
  destruct (Qeq_bool b 0) eqn:Hz; [|reflexivity].
  exfalso. unfold float_lt in Hlt.
  apply Qeq_bool_iff in Hz. apply negb_true_iff in Hlt.
  assert (Hle : Qle_bool b 0 = true)
    by (apply Qle_bool_iff; rewrite Hz; apply Qle_refl).
  congruence.
Qed.

(** C7.  For every pair of coverage percentages, in [0, 100] or not, the
    growth arithmetic of [compare_images] returns without raising: the
    absolute growth is the float [after - before], the relative growth is
    the float [absolute / before * 100] when [before > 0] and exactly 0
    otherwise; the division is never run on a zero divisor. *)
Theorem growth_guarded (before after : pyfloat) :
  growth before after
  = Ok (fsub after before,
        if float_lt 0%Q before
        then fmul (fl (fsub after before / before)) (float_of_int 100)
        else 0%Q).
Proof.
  unfold growth.
  destruct (float_lt 0%Q before) eqn:Hlt; [|reflexivity].
  rewrite truediv_positive by exact Hlt. reflexivity.
Qed.

Lemma growth_examples :
  (exists a r, growth 15 30 = Ok (a, r) /\ a == 15 /\ r == 100)%Q
  /\ (exists a, growth 0 0 = Ok (a, 0) /\ a == 0)%Q
  /\ (exists a, growth 0 30 = Ok (a, 0) /\ a == 30)%Q.
Proof.
  split; [|split].
  - eexists. eexists. split; [vm_compute; reflexivity|].
    split; vm_compute; reflexivity.
  - eexists. split; vm_compute; reflexivity.
  - eexists. split; vm_compute; reflexivity.
Qed.

Section CompareFacts.

Variable bgr2hsv hsv2bgr : pixel -> pixel.
Variable crop_front_panel :
  world -> string -> option string -> M (image * option string).
Variable logger : level -> message -> M unit.

(** When its two measurements return, [compare_images] returns them with
    their growth; the growth step adds no failure of its own. *)
Lemma compare_images_reports_growth (self : PlantAnalyzer) (w : world)
    (img1_path img2_path : string) (do_crop : bool)
    (enhance_params : option params) (s s0 s1 s2 : state)
    (before after : pyfloat) :
  logger INFO (MsgComparing img1_path img2_path) s = (Ok tt, s0) ->
  calculate_plant_percentage bgr2hsv hsv2bgr crop_front_panel logger self w
    img1_path do_crop enhance_params true s0 = (Ok before, s1) ->
  calculate_plant_percentage bgr2hsv hsv2bgr crop_front_panel logger self w
    img2_path do_crop enhance_params true s1 = (Ok after, s2) ->
  compare_images bgr2hsv hsv2bgr crop_front_panel logger self w
    img1_path img2_path do_crop enhance_params s
  = (Ok (mkComparison before after (fsub after before)
           (if float_lt 0%Q before
            then fmul (fl (fsub after before / before)) (float_of_int 100)
            else 0%Q)),
     s2).
Proof.
  intros Hlog H1 H2. unfold compare_images.
  unfold bind at 1. rewrite Hlog.
  unfold bind at 1. rewrite H1.
  unfold bind at 1. rewrite H2.
  unfold bind, lift, ret, growth.
  destruct (float_lt 0%Q before) eqn:Hlt; [|reflexivity].
  rewrite truediv_positive by exact Hlt. reflexivity.
Qed.

End CompareFacts.

(** A complete run of [analyzer.py]: 25% before, 50% after, growth +25
    points, +100% relative; the detector finds nothing, so each photograph
    is measured whole. *)
Lemma compare_images_two_photos :
  exists r s',
    Analyzer.compare_images resize_nearest (fun p => p) (fun p => p)
      default_analyzer world_two_photos "before.jpg" "after.jpg" true None
      fresh = (Ok r, s')
    /\ (image1_plant_percentage r == 25)%Q
    /\ (image2_plant_percentage r == 50)%Q
    /\ (growth_absolute r == 25)%Q
    /\ (growth_relative r == 100)%Q
    /\ map fst (log s')
       = [INFO; INFO; INFO; INFO; WARNING; INFO; INFO;
          INFO; INFO; WARNING; INFO; INFO]
    /\ map fst (snapshots s')
       = ["debug_cropped_before.jpg"; "debug_cropped_after.jpg"]%string.
Proof.
  eexists. eexists. split; [vm_compute; reflexivity|].
  repeat split; vm_compute; reflexivity.
Qed.

(** ** Enhancement *)

Lemma cvRound_comp (q q' : Q) : (q == q')%Q -> cvRound q = cvRound q'.
Proof. apply round_half_even_comp. Qed.

Lemma cvRound_integer (z : Z) : cvRound (inject_Z z) = z.
Proof. apply round_half_even_integer. Qed.

Lemma saturate_u8_range (z : Z) : 0 <= saturate_u8 z <= 255.
Proof. unfold saturate_u8. lia. Qed.

Lemma saturate_u8_id (z : Z) : 0 <= z <= 255 -> saturate_u8 z = z.
Proof. unfold saturate_u8. lia. Qed.

Lemma map_samples_shape (f : Z -> Z) (img : image) :
  map (@length pixel) (map_samples f img) = map (@length pixel) img.
Proof.
  unfold map_samples. rewrite map_map. apply map_ext.
  intros row. apply length_map.
Qed.

Lemma convert_pixels_shape (code : pixel -> pixel) (img : image) :
  map (@length pixel) (convert_pixels code img) = map (@length pixel) img.
Proof.
  unfold convert_pixels. rewrite map_map. apply map_ext.
  intros row. apply length_map.
Qed.

(** The number of samples of an array is decided by the lengths of its
    rows. *)
Lemma size_by_lengths (a b : image) :
  map (@length pixel) a = map (@length pixel) b -> size a = size b.
Proof.
  intros H. unfold size, height, width.
  rewrite <- (length_map (@length pixel) a), <- (length_map (@length pixel) b), H.
  destruct a as [|ra a], b as [|rb b]; try discriminate; [reflexivity|].
  simpl in H. injection H as -> _. reflexivity.
Qed.

Lemma cvtColor_pixels (code : pixel -> pixel) (img : image) :
  (0 < size img)%nat -> cvtColor code img = Ok (convert_pixels code img).
Proof.
  intros H. unfold cvtColor.
  destruct (Nat.eqb_spec (size img) 0) as [E|_]; [lia | reflexivity].
Qed.

Lemma cvtColor_empty (code : pixel -> pixel) (img : image) :
  size img = 0%nat -> cvtColor code img = Raise cv_error.
Proof. intros H. unfold cvtColor. now rewrite H. Qed.

Lemma map_samples_id (f : Z -> Z) (img : image) :
  (forall v, is_uint8 v = true -> f v = v) ->
  uint8_image img = true ->
  map_samples f img = img.
Proof.
  intros Hf Himg. unfold map_samples, uint8_image in *.
  rewrite forallb_forall in Himg.
  rewrite <- (map_id img) at 2. apply map_ext_in. intros row Hrow.
  specialize (Himg row Hrow). rewrite forallb_forall in Himg.
  rewrite <- (map_id row) at 2. apply map_ext_in. intros [[a b] c] Hp.
  specialize (Himg _ Hp). unfold uint8_pixel in Himg.
  apply andb_true_iff in Himg. destruct Himg as [Hab Hc].
  apply andb_true_iff in Hab. destruct Hab as [Ha Hb].
  now rewrite !Hf.
Qed.

(** With multiplier 1.0 and offset 0 the scaled value of an 8-bit sample is
    the sample, in single precision too. *)
Lemma scale32_unit (v : Z) :
  0 <= v <= 255 -> (scale32 (fadd 1 0) 0 v == inject_Z v)%Q.
Proof.
  intros Hv. unfold scale32. change (fl32 0) with 0%Q.
  assert (Halpha : (fl32 (fadd 1 0) == 1)%Q) by reflexivity.
  assert (E : (fl32 (inject_Z v * fl32 (fadd 1 0)) == inject_Z v)%Q).
  { apply Qeq_trans with (fl32 (inject_Z v));
      [|apply fl32_small_integer; lia].
    apply fl32_comp. rewrite Halpha. ring. }
  apply Qeq_trans with (fl32 (inject_Z v)); [|apply fl32_small_integer; lia].
  apply fl32_comp. rewrite E. ring.
Qed.

(** Single precision shows in the results: with contrast 0.1 the samples
    15, 35 and 55 scale to 16.5, 38.5 and 60.5 in single precision and round
    (half to even) to 16, 38 and 60, though the exact products lie above the
    halves. *)
Lemma convertScaleAbs_single_precision :
  map (convertScaleAbs_sample (fadd 1 (fl (1 # 10))) 0) [15; 35; 55]
  = [16; 38; 60]
  /\ map (fun v => cvRound (inject_Z v * fadd 1 (fl (1 # 10)))) [15; 35; 55]
     = [17; 39; 61].
Proof. split; vm_compute; reflexivity. Qed.

Section EnhanceClaims.

Variable bgr2hsv hsv2bgr : pixel -> pixel.

(** C10.  For every image of [uint8] samples, [enhance_image] called with
    its default parameters returns the image unchanged: the scale step
    runs with multiplier [1.0 + 0 = 1.0] and offset 0, and the saturation
    branch is skipped. *)
Theorem enhance_image_default_identity (img : image) :
  uint8_image img = true ->
  enhance_image_default bgr2hsv hsv2bgr img
  = Ok (convertScaleAbs img (fadd 1 0) 0)
  /\ (fadd 1 0 == 1)%Q
  /\ enhance_image_default bgr2hsv hsv2bgr img = Ok img.
Proof.
  intros Himg. unfold enhance_image_default, enhance_image.
  change (Qeq_bool 1 1) with true. simpl negb. cbv iota.
  assert (Halpha : (fadd 1 0 == 1)%Q) by reflexivity.
  split; [reflexivity|]. split; [exact Halpha|]. f_equal.
  unfold convertScaleAbs. apply map_samples_id; [|exact Himg].
  intros v Hv. unfold convertScaleAbs_sample.
  unfold is_uint8 in Hv. apply andb_true_iff in Hv.
  destruct Hv as [H0 H255]. apply Z.leb_le in H0, H255.
  assert (Heq : (Qabs (scale32 (fadd 1 0) 0 v) == inject_Z v)%Q).
  { rewrite (scale32_unit v) by lia. apply Qabs_pos.
    unfold Qle. simpl. lia. }
  rewrite (cvRound_comp _ _ Heq), cvRound_integer.
  apply saturate_u8_id. lia.
Qed.

End EnhanceClaims.

Lemma enhance_image_default_identity_witness :
  let img := ramp 3 4 in
  uint8_image img = true
  /\ enhance_image_default (fun p => p) (fun p => p) img
     = Ok (convertScaleAbs img (fadd 1 0) 0)
  /\ (fadd 1 0 == 1)%Q
  /\ enhance_image_default (fun p => p) (fun p => p) img = Ok img.
Proof.
  intros img.
  assert (Himg : uint8_image img = true) by reflexivity.
  split; [exact Himg|].
  exact (enhance_image_default_identity (fun p => p) (fun p => p) img Himg).
Defined.

(** C2, at the failing input.  With brightness -50, contrast 0 and
    saturation 1.0 a sample of 10 scales to -40: the specification's clamp,
    and the code's own comment ([new_img = alpha * old_img + beta],
    brightness an additive offset), give 0; [cv2.convertScaleAbs] takes the
    absolute value and the code returns 40.  The image keeps its
    dimensions. *)
Theorem enhance_image_mirrors_negative_sum :
  enhance_image (fun p => p) (fun p => p) [[(10, 10, 10)]] (-50 # 1) 0 1
  = Ok [[(40, 40, 40)]]
  /\ clamp_scaled (-50 # 1) 0 10 = 0.
Proof. split; reflexivity. Qed.

(** ** Coverage *)

Lemma mask_row_count (f g : pixel -> bool) (row : list pixel) :
  count_nonzero_row
    (zip_with Z.lor (map (fun p => if f p then 255 else 0) row)
                    (map (fun p => if g p then 255 else 0) row))
  = length (filter (fun p => f p || g p) row).
Proof.
  unfold count_nonzero_row.
  induction row as [|p row IH]; simpl; [reflexivity|].
  destruct (f p), (g p); simpl; now rewrite IH.
Qed.

Lemma filter_concat_length {A : Type} (f : A -> bool) (rows : list (list A)) :
  length (filter f (concat rows))
  = fold_right (fun row acc => (length (filter f row) + acc)%nat) 0%nat rows.
Proof.
  induction rows as [|row rows IH]; simpl; [reflexivity|].
  now rewrite filter_app, length_app, IH.
Qed.

(** The two masks, or-ed and counted, count the pixels within either pair
    of bounds. *)
Lemma plant_mask_count (self : PlantAnalyzer) (hsv : image) :
  countNonZero
    (bitwise_or (inRange hsv (lower_green self) (upper_green self))
                (inRange hsv (lower_purple self) (upper_purple self)))
  = matching_pixels self hsv.
Proof.
  unfold matching_pixels, countNonZero, bitwise_or, inRange.
  rewrite filter_concat_length.
  induction hsv as [|row hsv IH]; simpl; [reflexivity|].
  rewrite IH. f_equal.
  apply (mask_row_count
           (in_bounds (lower_green self) (upper_green self))
           (in_bounds (lower_purple self) (upper_purple self))).
Qed.

Lemma rectangular_pixel_count (img : image) :
  rectangular img = true ->
  length (concat img) = (height img * width img)%nat.
Proof.
  unfold rectangular, height. generalize (width img) as w. intros w Hrect.
  induction img as [|row img IH]; simpl in *; [reflexivity|].
  apply andb_true_iff in Hrect. destruct Hrect as [Hrow Hrest].
  apply Nat.eqb_eq in Hrow. rewrite length_app, IH by assumption. lia.
Qed.

Lemma convert_pixels_count (code : pixel -> pixel) (img : image) :
  length (concat (convert_pixels code img)) = length (concat img).
Proof.
  unfold convert_pixels. induction img as [|row img IH]; simpl; [reflexivity|].
  now rewrite !length_app, length_map, IH.
Qed.

Lemma matching_pixels_le (self : PlantAnalyzer) (hsv : image) :
  (matching_pixels self hsv <= length (concat hsv))%nat.
Proof. unfold matching_pixels. apply filter_length_le. Qed.

Lemma percentage_range (m t : nat) :
  (0 < t)%nat -> (m <= t)%nat ->
  (0 <= fmul (fl (inject_Z (Z.of_nat m) / inject_Z (Z.of_nat t)))
             (float_of_int 100)
   /\ fmul (fl (inject_Z (Z.of_nat m) / inject_Z (Z.of_nat t)))
           (float_of_int 100) <= 100)%Q.
Proof.
  intros Ht Hm. pose proof (inject_nat_pos t Ht) as Hpos.
  set (r := fl (inject_Z (Z.of_nat m) / inject_Z (Z.of_nat t))).
  assert (H0 : (0 <= r)%Q).
  { apply fl_nonneg. apply Qle_shift_div_l; [exact Hpos|].
    rewrite Qmult_0_l. apply inject_nat_nonneg. }
  assert (H1 : (r <= 1)%Q).
  { rewrite <- fl_one. apply fl_monotone.
    apply Qle_shift_div_r; [exact Hpos|].
    rewrite Qmult_1_l. rewrite <- Zle_Qle. lia. }
  unfold fmul. split.
  - apply fl_nonneg. rewrite fl_hundred.
    apply Qmult_le_0_compat; [exact H0 | discriminate].
  - apply Qle_trans with (float_of_int 100);
      [|rewrite fl_hundred; apply Qle_refl].
    unfold float_of_int at 2. apply fl_monotone. rewrite fl_hundred.
    setoid_replace (inject_Z 100) with (1 * 100)%Q at 2 by ring.
    apply Qmult_le_compat_r; [exact H1 | discriminate].
Qed.

(** The percentage in closed form, for every image with pixels. *)
Lemma plant_percentage_value (bgr2hsv : pixel -> pixel) (self : PlantAnalyzer)
    (img : image) :
  (0 < size img)%nat ->
  let total := (height img * width img)%nat in
  let matching := matching_pixels self (convert_pixels bgr2hsv img) in
  plant_percentage bgr2hsv self img
  = Ok (fmul (fl (inject_Z (Z.of_nat matching) / inject_Z (Z.of_nat total)))
             (float_of_int 100)).
Proof.
  intros Hsize total matching. unfold plant_percentage.
  rewrite cvtColor_pixels by assumption. simpl rbind.
  rewrite plant_mask_count. fold total. fold matching.
  assert (Ht : (0 < total)%nat) by (apply size_pos_iff in Hsize; unfold total; nia).
  destruct (Nat.eqb_spec total 0) as [Hz|Hnz]; [lia|].
  rewrite truediv_positive; [reflexivity|].
  unfold float_lt. apply negb_true_iff.
  destruct (Qle_bool (inject_Z (Z.of_nat total)) 0) eqn:E; [|reflexivity].
  apply Qle_bool_iff in E. exfalso.
  pose proof (inject_nat_pos total Ht) as Hpos.
  apply (Qlt_irrefl 0). eapply Qlt_le_trans; eassumption.
Qed.

Section CoverageClaims.

Variable bgr2hsv : pixel -> pixel.

(** C1, as the code has it.  For every rectangular image with at least one
    pixel and every two pairs of inclusive three-channel bounds, the
    coverage computation returns without raising, and its value is the
    number of pixels whose HSV channels all lie within the green bounds or
    all within the purple bounds, divided by the number of pixels, times
    100 (in float arithmetic); the divisor is not 0 and the value lies in
    [0, 100]. *)
Theorem plant_percentage_is_coverage (self : PlantAnalyzer) (img : image) :
  rectangular img = true -> (0 < size img)%nat ->
  let matching := matching_pixels self (convert_pixels bgr2hsv img) in
  let total := (height img * width img)%nat in
  exists p,
    plant_percentage bgr2hsv self img = Ok p
    /\ total <> 0%nat
    /\ p = fmul (fl (inject_Z (Z.of_nat matching) / inject_Z (Z.of_nat total)))
                (float_of_int 100)
    /\ (matching <= total)%nat
    /\ (0 <= p)%Q /\ (p <= 100)%Q.
Proof.
  intros Hrect Hsize matching total.
  assert (Hle : (matching <= total)%nat).
  { unfold matching, total.
    rewrite <- rectangular_pixel_count by assumption.
    rewrite <- (convert_pixels_count bgr2hsv).
    apply matching_pixels_le. }
  assert (Ht : (0 < total)%nat)
    by (apply size_pos_iff in Hsize; unfold total; nia).
  rewrite plant_percentage_value by assumption. fold matching. fold total.
  eexists. split; [reflexivity|]. split; [lia|]. split; [reflexivity|].
  split; [exact Hle|]. now apply percentage_range.
Qed.

End CoverageClaims.

Lemma plant_percentage_is_coverage_witness :
  let img : image :=
    [[(40, 50, 50); (0, 0, 0)]; [(130, 50, 50); (90, 50, 50)]] in
  let code := fun p : pixel => p in
  let matching := matching_pixels default_analyzer (convert_pixels code img) in
  let total := (height img * width img)%nat in
  rectangular img = true
  /\ matching = 2%nat
  /\ exists p,
      plant_percentage code default_analyzer img = Ok p
      /\ total <> 0%nat
      /\ p = fmul (fl (inject_Z (Z.of_nat matching) / inject_Z (Z.of_nat total)))
                  (float_of_int 100)
      /\ (matching <= total)%nat
      /\ (0 <= p)%Q /\ (p <= 100)%Q.
Proof.
  intros img code matching total.
  assert (Hrect : rectangular img = true) by reflexivity.
  assert (Hsize : (0 < size img)%nat) by (vm_compute; lia).
  split; [exact Hrect|]. split; [reflexivity|].
  exact (plant_percentage_is_coverage code default_analyzer img Hrect Hsize).
Defined.

(** C1 as stated fails on an array without pixels (2 rows of 0 columns):
    its pixel count is 0 and the claim has 0.0 returned, but
    [cv2.cvtColor], called before the zero guard, rejects the array and the
    computation raises. *)
Lemma plant_percentage_rejects_empty_image :
  let img : image := [[]; []] in
  (height img * width img)%nat = 0%nat
  /\ plant_percentage (fun p => p) default_analyzer img = Raise cv_error
  /\ plant_percentage (fun p => p) default_analyzer img <> Ok 0%Q.
Proof.
  intros img. split; [reflexivity|]. split; [reflexivity | discriminate].
Qed.

(* ================================================================== *)
(** * Further properties *)

(** ** The panel *)

Lemma has_shape_rectangular (img : image) (h w : nat) :
  has_shape img h w -> rectangular img = true.
Proof.
  intros [_ Hrows]. unfold rectangular. apply forallb_forall.
  intros row Hin. apply Nat.eqb_eq.
  rewrite Forall_forall in Hrows.
  destruct img as [|r0 img']; [destruct Hin|].
  simpl. rewrite (Hrows row Hin). symmetry. apply Hrows. now left.
Qed.

Lemma rectangular_has_shape (img : image) :
  rectangular img = true -> has_shape img (height img) (width img).
Proof.
  intros H. split; [reflexivity|]. apply Forall_forall. intros row Hin.
  unfold rectangular in H. rewrite forallb_forall in H.
  now apply Nat.eqb_eq, H.
Qed.

Lemma py_slice_length_le {A : Type} (start stop : Z) (l : list A) :
  (length (py_slice start stop l) <= length l)%nat.
Proof.
  unfold py_slice. rewrite length_firstn.
  etransitivity; [apply Nat.le_min_r|]. rewrite length_skipn. lia.
Qed.

Lemma crop_region_rectangular (img : image) (y1 y2 x1 x2 : Z) :
  rectangular img = true ->
  rectangular (crop_region img y1 y2 x1 x2) = true
  /\ (height (crop_region img y1 y2 x1 x2) <= height img)%nat
  /\ (width (crop_region img y1 y2 x1 x2) <= width img)%nat.
Proof.
  intros Hrect. apply rectangular_has_shape in Hrect.
  destruct Hrect as [_ Hrows]. rewrite Forall_forall in Hrows.
  assert (Hall : Forall (fun row : list pixel =>
                   length row = length (py_slice x1 x2 (repeat (0, 0, 0) (width img))))
                 (crop_region img y1 y2 x1 x2)).
  { apply Forall_forall. intros row Hin. unfold crop_region in Hin.
    apply in_map_iff in Hin. destruct Hin as [r [<- Hr]].
    apply py_slice_incl in Hr.
    rewrite !py_slice_length, repeat_length. now rewrite (Hrows r Hr). }
  split; [|split].
  - eapply has_shape_rectangular. split; [reflexivity | exact Hall].
  - unfold crop_region, height. rewrite length_map. apply py_slice_length_le.
  - destruct (crop_region img y1 y2 x1 x2) as [|r0 rest] eqn:E; simpl; [lia|].
    inversion Hall as [|? ? Hr0 _]; subst. rewrite Hr0.
    etransitivity; [apply py_slice_length_le|]. now rewrite repeat_length.
Qed.

Lemma clip_and_crop_rectangular (img : image) (d : detection) :
  rectangular img = true ->
  rectangular (clip_and_crop img d) = true
  /\ (height (clip_and_crop img d) <= height img)%nat
  /\ (width (clip_and_crop img d) <= width img)%nat.
Proof.
  intros Hrect. unfold clip_and_crop.
  destruct (coords d) as [[[x1 y1] x2] y2].
  now apply crop_region_rectangular.
Qed.

Lemma collect_crops_rectangular (img : image) (ds : list detection) :
  rectangular img = true ->
  Forall (fun c => rectangular c = true /\ (height c <= height img)%nat)
         (collect_crops img ds).
Proof.
  intros Hrect. rewrite collect_crops_survivors.
  apply Forall_forall. intros c Hin. apply in_map_iff in Hin.
  destruct Hin as [d [<- _]].
  destruct (clip_and_crop_rectangular img d Hrect) as [H1 [H2 _]]. now split.
Qed.

Lemma max_height_le (crops : list image) (n : nat) :
  Forall (fun c => (height c <= n)%nat) crops -> (max_height crops <= n)%nat.
Proof.
  unfold max_height. induction 1 as [|c cs Hc _ IH]; simpl; [lia|].
  apply Nat.max_lub; assumption.
Qed.

Lemma zip_with_app_shape (a b : image) (h wa wb : nat) :
  has_shape a h wa -> has_shape b h wb ->
  has_shape (zip_with (@app pixel) a b) h (wa + wb).
Proof.
  revert b h. induction a as [|ra a IH]; intros b h [Ha Hra] [Hb Hrb].
  - simpl in *. split; [assumption | constructor].
  - destruct b as [|rb b]; [simpl in *; congruence|].
    destruct h as [|h]; [discriminate|].
    inversion Hra; subst. inversion Hrb; subst.
    destruct (IH b h) as [Hl Hr].
    + split; [simpl in Ha; congruence | assumption].
    + split; [simpl in Hb; congruence | assumption].
    + split; simpl; [now rewrite Hl|].
      constructor; [now rewrite length_app | assumption].
Qed.

Lemma hconcat_shape (h : nat) (imgs : list image) :
  imgs <> [] ->
  Forall (fun r => has_shape r h (width r)) imgs ->
  has_shape (hconcat imgs) h (list_sum (map (@width pixel) imgs)).
Proof.
  intros Hne Hall. induction Hall as [|r rs Hr Hrs IH]; [now elim Hne|].
  destruct rs as [|r' rs'].
  - simpl. now rewrite Nat.add_0_r.
  - change (hconcat (r :: r' :: rs'))
      with (zip_with (@app pixel) r (hconcat (r' :: rs'))).
    change (list_sum (map (@width pixel) (r :: r' :: rs')))
      with (width r + list_sum (map (@width pixel) (r' :: rs')))%nat.
    apply zip_with_app_shape; [assumption|]. apply IH. discriminate.
Qed.

Lemma resize_crop_total (resize : image -> nat -> nat -> image)
    (max_h : nat) (c : image) :
  (0 < height c)%nat -> exists r, resize_crop resize max_h c = Ok r.
Proof.
  intros Hh. unfold resize_crop.
  destruct (negb (Nat.eqb (height c) max_h)); [|eauto].
  rewrite new_width_value by assumption. simpl. eauto.
Qed.

Lemma resize_crops_total (resize : image -> nat -> nat -> image)
    (max_h : nat) (crops : list image) :
  Forall (fun c => (0 < height c)%nat /\ (0 < width c)%nat) crops ->
  exists rs, resize_crops resize max_h crops = Ok rs.
Proof.
  induction 1 as [|c cs [Hc _] _ [rs IH]]; simpl; [eauto|].
  destruct (resize_crop_total resize max_h c Hc) as [r ->]. simpl.
  rewrite IH. simpl. eauto.
Qed.

Lemma extractPanel_total (resize : image -> nat -> nat -> image)
    (img : image) (boxes : list (Z * Z * Z * Z)) :
  exists out, extractPanel resize img boxes = Ok out.
Proof.
  unfold extractPanel.
  destruct (Nat.ltb 0 (length boxes)); [|eauto].
  destruct (Nat.eqb _ 1); [eauto|].
  destruct (Nat.leb 2 _); [|eauto].
  unfold merge_crops.
  destruct (resize_crops_total resize
              (max_height (collect_crops img (sort_detections (map mkDetection boxes))))
              (collect_crops img (sort_detections (map mkDetection boxes)))
              (collect_crops_positive _ _)) as [rs ->].
  simpl. eauto.
Qed.

Lemma has_shape_dims (img : image) (h w : nat) :
  has_shape img h w -> (0 < h)%nat -> height img = h /\ width img = w.
Proof.
  intros [Hl Hrows] Hh. split; [assumption|].
  destruct img as [|r img']; [simpl in Hl; lia|].
  simpl. now inversion Hrows.
Qed.

Lemma max_height_pos (crops : list image) :
  crops <> [] ->
  Forall (fun c => (0 < height c)%nat /\ (0 < width c)%nat) crops ->
  (0 < max_height crops)%nat.
Proof.
  intros Hne Hall. destruct crops as [|c cs]; [now elim Hne|].
  inversion Hall as [|? ? [Hc _] _]; subst.
  pose proof (max_height_ge (c :: cs) c (or_introl eq_refl)). lia.
Qed.

Section PanelShape.

Variable resize : image -> nat -> nat -> image.

Hypothesis resize_shape :
  forall c new_w new_h, has_shape (resize c new_w new_h) new_h new_w.

Lemma resize_crop_shape (max_h : nat) (c : image) :
  (0 < max_h)%nat -> rectangular c = true ->
  (0 < height c)%nat -> (0 < width c)%nat -> (height c <= max_h)%nat ->
  exists r,
    resize_crop resize max_h c = Ok r
    /\ has_shape r max_h (width r) /\ (0 < width r)%nat.
Proof.
  intros HH Hrect Hh Hw Hle. unfold resize_crop.
  destruct (Nat.eqb (height c) max_h) eqn:E; simpl.
  - apply Nat.eqb_eq in E. exists c. split; [reflexivity|]. split; [|assumption].
    rewrite <- E. now apply rectangular_has_shape.
  - rewrite new_width_value by assumption. simpl.
    pose proof (scaled_up_at_least_one max_h (height c) (width c) Hh Hle Hw)
      as Hone.
    set (n := py_int _) in *.
    exists (resize c (Z.to_nat n) max_h). split; [reflexivity|].
    pose proof (resize_shape c (Z.to_nat n) max_h) as Hs.
    destruct (has_shape_dims _ _ _ Hs HH) as [_ Hwd].
    rewrite Hwd. split; [assumption | lia].
Qed.

Lemma resize_crops_shape (max_h : nat) (crops : list image) :
  (0 < max_h)%nat ->
  Forall (fun c => rectangular c = true /\ (height c <= max_h)%nat) crops ->
  Forall (fun c => (0 < height c)%nat /\ (0 < width c)%nat) crops ->
  exists rs,
    resize_crops resize max_h crops = Ok rs
    /\ length rs = length crops
    /\ Forall (fun r => has_shape r max_h (width r) /\ (0 < width r)%nat) rs.
Proof.
  intros HH Hrect Hpos. induction crops as [|c cs IH]; simpl.
  - exists []. repeat split; constructor.
  - inversion Hrect as [|? ? [Hr Hle] Hrect']; subst.
    inversion Hpos as [|? ? [Hh Hw] Hpos']; subst.
    destruct (resize_crop_shape max_h c HH Hr Hh Hw Hle) as [r [-> Hs]].
    destruct (IH Hrect' Hpos') as [rs [-> [Hlen Hall]]]. simpl.
    exists (r :: rs). split; [reflexivity|]. split; [simpl; congruence|].
    now constructor.
Qed.

Lemma merge_crops_shape (bound : nat) (crops : list image) :
  crops <> [] ->
  Forall (fun c => rectangular c = true /\ (height c <= bound)%nat) crops ->
  Forall (fun c => (0 < height c)%nat /\ (0 < width c)%nat) crops ->
  exists out,
    merge_crops resize crops = Ok out
    /\ rectangular out = true /\ (0 < size out)%nat
    /\ (height out <= bound)%nat.
Proof.
  intros Hne Hrect Hpos. unfold merge_crops.
  pose proof (max_height_pos crops Hne Hpos) as HH.
  assert (Hle : (max_height crops <= bound)%nat).
  { apply max_height_le. eapply Forall_impl; [|exact Hrect].
    now intros c [_ H]. }
  destruct (resize_crops_shape (max_height crops) crops HH) as [rs [-> [Hlen Hall]]].
  - apply Forall_forall. intros c Hin. rewrite Forall_forall in Hrect.
    split; [apply (Hrect c Hin) | now apply max_height_ge].
  - assumption.
  - simpl. exists (hconcat rs). split; [reflexivity|].
    assert (Hrs : rs <> []).
    { intros ->. destruct crops; [now elim Hne | discriminate]. }
    assert (Hs : has_shape (hconcat rs) (max_height crops)
                   (list_sum (map (@width pixel) rs))).
    { apply hconcat_shape; [assumption|].
      eapply Forall_impl; [|exact Hall]. now intros r [H _]. }
    destruct (has_shape_dims _ _ _ Hs HH) as [Hh Hw].
    split; [now apply has_shape_rectangular in Hs|].
    split; [|lia].
    apply size_pos_iff. split; [lia|]. rewrite Hw.
    destruct rs as [|r rs']; [now elim Hrs|].
    inversion Hall as [|? ? [_ Hr] _]; subst. simpl. lia.
Qed.

Lemma extractPanel_shape (img : image) (boxes : list (Z * Z * Z * Z)) :
  rectangular img = true -> (0 < size img)%nat ->
  exists out,
    extractPanel resize img boxes = Ok out
    /\ rectangular out = true /\ (0 < size out)%nat
    /\ (height out <= height img)%nat.
Proof.
  intros Hrect Hsize. unfold extractPanel.
  destruct (Nat.ltb 0 (length boxes)); [|exists img; auto].
  set (crops := collect_crops img (sort_detections (map mkDetection boxes))).
  pose proof (collect_crops_rectangular img
                (sort_detections (map mkDetection boxes)) Hrect) as Hr.
  pose proof (collect_crops_positive img
                (sort_detections (map mkDetection boxes))) as Hp.
  fold crops in Hr, Hp.
  destruct (Nat.eqb (length crops) 1) eqn:E1.
  - apply Nat.eqb_eq in E1.
    destruct crops as [|c [|c' cs]]; try discriminate. simpl.
    inversion Hr as [|? ? [Hc Hle] _]; subst.
    inversion Hp as [|? ? Hpos _]; subst.
    exists c. repeat split; try assumption. now apply size_pos_iff.
  - destruct (Nat.leb 2 (length crops)) eqn:E2; [|exists img; auto].
    apply merge_crops_shape; try assumption.
    intros ->. discriminate.
Qed.

End PanelShape.

(** ** The two wrappers, outcome by outcome *)

Lemma crop_result (resize : image -> nat -> nat -> image)
    (w : world) (image_path : string) (out_path : option string) (s : state)
    (img : image) :
  imread w image_path = Some img ->
  fst (Crop.crop_front_panel resize w image_path out_path s)
  = rbind (detector_outcome w image_path s)
      (fun boxes =>
         rbind (extractPanel resize img boxes)
               (fun final => Ok (final, out_path))).
Proof.
  intros Hread. unfold Crop.crop_front_panel, Crop.load_model. rewrite Hread.
  unfold detector_outcome, extractPanel. run_monad.
  split_run; reflexivity.
Qed.

Lemma cropper_result (resize : image -> nat -> nat -> image)
    (w : world) (image_path : string) (out_path : option string) (s : state)
    (img : image) :
  imread w image_path = Some img ->
  fst (Cropper.crop_front_panel resize w image_path out_path s)
  = match detector_outcome w image_path s with
    | Ok boxes =>
        rbind (extractPanel resize img boxes)
              (fun final => Ok (final, out_path))
    | Raise _ => Ok (img, out_path)
    end.
Proof.
  intros Hread. unfold Cropper.crop_front_panel, Cropper.load_model.
  rewrite Hread. unfold detector_outcome, extractPanel. run_monad.
  split_run; reflexivity.
Qed.

Lemma crop_files (resize : image -> nat -> nat -> image)
    (w : world) (image_path : string) (out_path : option string) (s : state) :
  snapshots (snd (Crop.crop_front_panel resize w image_path out_path s))
  = snapshots s
    ++ match fst (Crop.crop_front_panel resize w image_path out_path s) with
       | Ok (final, _) => snapshot_of out_path final
       | Raise _ => []
       end.
Proof.
  unfold Crop.crop_front_panel, Crop.load_model, snapshot_of. run_monad.
  split_run; now rewrite ?app_nil_r.
Qed.

Lemma cropper_files (resize : image -> nat -> nat -> image)
    (w : world) (image_path : string) (out_path : option string) (s : state) :
  snapshots (snd (Cropper.crop_front_panel resize w image_path out_path s))
  = snapshots s
    ++ match imread w image_path, detector_outcome w image_path s,
             fst (Cropper.crop_front_panel resize w image_path out_path s) with
       | Some _, Ok _, Ok (final, _) => snapshot_of out_path final
       | _, _, _ => []
       end.
Proof.
  unfold Cropper.crop_front_panel, Cropper.load_model, snapshot_of,
    detector_outcome.
  run_monad. split_run; try congruence; now rewrite ?app_nil_r.
Qed.

Lemma crop_cache (resize : image -> nat -> nat -> image)
    (w : world) (image_path : string) (out_path : option string) (s : state)
    (img : image) :
  imread w image_path = Some img ->
  model_cache (snd (Crop.crop_front_panel resize w image_path out_path s))
  = cache_after w s.
Proof.
  intros Hread. unfold Crop.crop_front_panel, Crop.load_model, cache_after.
  rewrite Hread. run_monad. split_run; simpl in *; congruence.
Qed.

Lemma cropper_cache (resize : image -> nat -> nat -> image)
    (w : world) (image_path : string) (out_path : option string) (s : state)
    (img : image) :
  imread w image_path = Some img ->
  model_cache (snd (Cropper.crop_front_panel resize w image_path out_path s))
  = cache_after w s.
Proof.
  intros Hread.
  unfold Cropper.crop_front_panel, Cropper.load_model, cache_after.
  rewrite Hread. run_monad. split_run; simpl in *; congruence.
Qed.

Lemma detector_outcome_cache (w : world) (image_path : string) (s s' : state) :
  model_cache s' = cache_after w s ->
  detector_outcome w image_path s' = detector_outcome w image_path s.
Proof.
  unfold detector_outcome, cache_after. intros ->.
  destruct (model_cache s); simpl; [reflexivity|].
  destruct (weights_exist w); simpl; [|reflexivity].
  now destruct (yolo_load w) as [[]|e].
Qed.

(** ** Reasoning about runs *)

Section Runs.

Context {A B : Type}.

Lemma yields_ret (a : A) (P : A -> Prop) : P a -> yields (ret a) P.
Proof. intros H s a' E. simpl in E. now injection E as <-. Qed.

Lemma yields_lift (r : result A) (P : A -> Prop) :
  (forall a, r = Ok a -> P a) -> yields (lift r) P.
Proof. intros H s a E. now apply H. Qed.

Lemma yields_bind (c : M A) (k : A -> M B) (Q : A -> Prop) (P : B -> Prop) :
  yields c Q -> (forall a, Q a -> yields (k a) P) -> yields (bind c k) P.
Proof.
  intros Hc Hk s b. unfold bind.
  destruct (c s) as [[a|e] s1] eqn:E; [|discriminate].
  apply (Hk a). apply (Hc s). now rewrite E.
Qed.

Lemma succeeds_ret (a : A) (P : A -> Prop) : P a -> succeeds (ret a) P.
Proof. intros H s. now exists a. Qed.

Lemma succeeds_lift (a : A) (P : A -> Prop) : P a -> succeeds (lift (Ok a)) P.
Proof. intros H s. now exists a. Qed.

Lemma succeeds_bind (c : M A) (k : A -> M B) (Q : A -> Prop) (P : B -> Prop) :
  succeeds c Q -> (forall a, Q a -> succeeds (k a) P) -> succeeds (bind c k) P.
Proof.
  intros Hc Hk s. unfold bind. destruct (Hc s) as [a [E Ha]].
  destruct (c s) as [[a'|e] s1]; simpl in E; [|discriminate].
  injection E as ->. apply (Hk a Ha).
Qed.

Lemma writes_ret (a : A) : writes (ret a) [].
Proof. intros s a' s' E. injection E as _ <-. now rewrite app_nil_r. Qed.

Lemma writes_lift (r : result A) : writes (lift r) [].
Proof. intros s a s' E. injection E as _ <-. now rewrite app_nil_r. Qed.

Lemma writes_bind (c : M A) (k : A -> M B) (n1 n2 : list string) :
  writes c n1 -> (forall a, writes (k a) n2) -> writes (bind c k) (n1 ++ n2).
Proof.
  intros Hc Hk s b s'. unfold bind.
  destruct (c s) as [[a|e] s1] eqn:E; [|discriminate].
  intros E2. rewrite (Hk a s1 b s' E2), (Hc s a s1 E). symmetry. apply app_assoc.
Qed.

End Runs.

Lemma emit_succeeds (lvl : level) (msg : message) :
  succeeds (emit lvl msg) (fun _ => True).
Proof. intros s. now exists tt. Qed.

Lemma writes_emit (lvl : level) (msg : message) : writes (emit lvl msg) [].
Proof. intros s a s' E. injection E as _ <-. simpl. now rewrite app_nil_r. Qed.

Lemma writes_imwrite (path : string) (img : image) :
  writes (imwrite path img) [path].
Proof. intros s a s' E. injection E as _ <-. simpl. now rewrite map_app. Qed.

Lemma yields_anything {A : Type} (c : M A) : yields c (fun _ => True).
Proof. now intros s a _. Qed.

Section Keeping.

Variable R : state -> state -> Prop.
Hypothesis R_refl : forall s, R s s.
Hypothesis R_trans : forall s1 s2 s3, R s1 s2 -> R s2 s3 -> R s1 s3.

Context {A B : Type}.

Lemma keeps_ret (a : A) : keeps R (ret a).
Proof. intros s. apply R_refl. Qed.

Lemma keeps_raise (e : exn) : keeps R (@raise A e).
Proof. intros s. apply R_refl. Qed.

Lemma keeps_lift (r : result A) : keeps R (lift r).
Proof. intros s. apply R_refl. Qed.

Lemma keeps_bind (c : M A) (k : A -> M B) :
  keeps R c -> (forall a, keeps R (k a)) -> keeps R (bind c k).
Proof.
  intros Hc Hk s. unfold bind. specialize (Hc s).
  destruct (c s) as [[a|e] s1]; simpl in *; [|exact Hc].
  eapply R_trans; [exact Hc | apply Hk].
Qed.

Lemma keeps_attempt (c : M A) : keeps R c -> keeps R (attempt c).
Proof.
  intros Hc s. unfold attempt. specialize (Hc s).
  now destruct (c s) as [r s1].
Qed.

End Keeping.

Lemma same_files_refl (s : state) : same_files s s.
Proof. reflexivity. Qed.

Lemma same_files_trans (s1 s2 s3 : state) :
  same_files s1 s2 -> same_files s2 s3 -> same_files s1 s3.
Proof. unfold same_files. congruence. Qed.

Lemma same_files_emit (lvl : level) (msg : message) :
  keeps same_files (emit lvl msg).
Proof. now intros s. Qed.

Create HintDb runs.

#[export] Hint Resolve same_files_emit : runs.

(** Walks through a program built from the monad's operations, given the
    reflexivity and transitivity of the relation to keep and a tactic for
    the leaves. *)
Ltac keep_through refl trans leaf :=
  repeat first
    [ progress cbv beta iota zeta
    | leaf
    | apply (keeps_ret _ refl)
    | apply (keeps_raise _ refl)
    | apply (keeps_lift _ refl)
    | apply keeps_attempt
    | apply (keeps_bind _ trans); [|intros ?]
    | match goal with
      | |- keeps _ (match ?x with _ => _ end) => destruct x
      end ].

(** ** [crop_front_panel]: what a caller can rely on *)

(** X1. [cropper.py] never fails on a readable image when it has no file
    to write.  Whatever the weights file, the model constructor and the
    inference do, from any state: if [out_path] is [None] or empty, or the
    detector raised (then nothing is written either),
    [Cropper.crop_front_panel] returns an image together with the [out_path]
    it was given: the panel of the reported boxes when the detector ran, the
    unmodified source image when loading or running it raised. *)
Theorem cropper_returns_on_readable_image
    (resize : image -> nat -> nat -> image) (w : world) (image_path : string)
    (out_path : option string) (s : state) (img : image) :
  imread w image_path = Some img ->
  truthy_path out_path = None
  \/ (exists e, detector_outcome w image_path s = Raise e) ->
  exists final,
    fst (Cropper.crop_front_panel resize w image_path out_path s)
    = Ok (final, out_path)
    /\ match detector_outcome w image_path s with
       | Ok boxes => extractPanel resize img boxes = Ok final
       | Raise _ => final = img
       end.
Proof.
  intros Hread _.
  rewrite (cropper_result resize w image_path out_path s img Hread).
  destruct (detector_outcome w image_path s) as [boxes|e].
  - destruct (extractPanel_total resize img boxes) as [out Hout].
    exists out. rewrite Hout. now split.
  - now exists img.
Qed.

Lemma cropper_returns_on_readable_image_witness :
  exists final,
    fst (Cropper.crop_front_panel resize_nearest
           (world_failing_inference (ramp 2 3)) "a.jpg"%string (Some "out.jpg"%string) fresh)
    = Ok (final, Some "out.jpg"%string)
    /\ final = ramp 2 3.
Proof.
  apply (cropper_returns_on_readable_image resize_nearest
           (world_failing_inference (ramp 2 3)) "a.jpg"%string
           (Some "out.jpg"%string) fresh (ramp 2 3) eq_refl).
  right. eexists. reflexivity.
Defined.

(** X2. [crop.py] fails on a readable image only with the detector.  With
    no file to write ([out_path] [None] or empty), an exception that leaves
    [Crop.crop_front_panel] is the [FileNotFoundError] of missing weights,
    or what the model constructor raised, or what the inference raised;
    cropping, rescaling and stitching raise nothing (no division by zero in
    the scale).  When the detector produced boxes the call returns their
    panel. *)
Theorem crop_fails_only_with_the_detector
    (resize : image -> nat -> nat -> image) (w : world) (image_path : string)
    (out_path : option string) (s : state) (img : image) :
  imread w image_path = Some img ->
  truthy_path out_path = None ->
  (forall e,
     fst (Crop.crop_front_panel resize w image_path out_path s) = Raise e ->
     (model_cache s = false /\ weights_exist w = false
      /\ e = FileNotFoundError)
     \/ (model_cache s = false /\ weights_exist w = true
         /\ yolo_load w = Raise e)
     \/ infer w image_path = Raise e)
  /\ (forall boxes,
        detector_outcome w image_path s = Ok boxes ->
        exists final,
          fst (Crop.crop_front_panel resize w image_path out_path s)
          = Ok (final, out_path)
          /\ extractPanel resize img boxes = Ok final).
Proof.
  intros Hread _.
  rewrite (crop_result resize w image_path out_path s img Hread).
  split.
  - intros e. unfold detector_outcome.
    destruct (model_cache s); [|destruct (weights_exist w)];
      [| destruct (yolo_load w) as [[]|e0] |]; simpl;
      try (intros H; injection H as <-; now auto);
      (destruct (infer w image_path) as [boxes|e1]; simpl;
       [ destruct (extractPanel_total resize img boxes) as [out ->]; discriminate
       | intros H; injection H as <-; now auto ]).
  - intros boxes ->. simpl.
    destruct (extractPanel_total resize img boxes) as [out Hout].
    exists out. rewrite Hout. now split.
Qed.

Lemma crop_fails_only_with_the_detector_witness :
  fst (Crop.crop_front_panel resize_nearest (world_without_weights (ramp 2 3))
         "a.jpg"%string None fresh)
  = Raise FileNotFoundError
  /\ exists final,
       fst (Crop.crop_front_panel resize_nearest
              (world_with (ramp 2 3) [(0, 0, 2, 2)]) "a.jpg"%string None fresh)
       = Ok (final, None)
       /\ extractPanel resize_nearest (ramp 2 3) [(0, 0, 2, 2)] = Ok final.
Proof.
  split; [reflexivity|].
  exact (proj2 (crop_fails_only_with_the_detector resize_nearest
                  (world_with (ramp 2 3) [(0, 0, 2, 2)]) "a.jpg"%string None fresh
                  (ramp 2 3) eq_refl eq_refl)
               [(0, 0, 2, 2)] eq_refl).
Defined.

(** X3. An unreadable image is rejected before the detector is touched.
    When [cv2.imread] returns [None], both versions raise [ValueError];
    [crop.py] leaves the state as it was, [cropper.py] adds its two log
    lines and nothing else: no model is loaded, no file is written. *)
Theorem unreadable_image_rejected
    (resize : image -> nat -> nat -> image) (w : world) (image_path : string)
    (out_path : option string) (s : state) :
  imread w image_path = None ->
  Crop.crop_front_panel resize w image_path out_path s = (Raise ValueError, s)
  /\ Cropper.crop_front_panel resize w image_path out_path s
     = (Raise ValueError,
        extended s [(INFO, MsgProcessing image_path);
                    (ERROR, MsgCouldNotRead image_path)] []).
Proof.
  intros Hread. unfold Crop.crop_front_panel, Cropper.crop_front_panel.
  rewrite Hread. run_monad. unfold extended. simpl.
  now rewrite <- app_assoc, app_nil_r.
Qed.

Lemma unreadable_image_rejected_witness :
  let w := mkWorld (fun _ => true) (fun p => p) (fun _ => None) true (Ok tt)
                   (fun _ => Ok [(0, 0, 2, 2)]) in
  Crop.crop_front_panel resize_nearest w "a.jpg"%string (Some "o.jpg"%string) fresh
  = (Raise ValueError, fresh)
  /\ Cropper.crop_front_panel resize_nearest w "a.jpg"%string (Some "o.jpg"%string) fresh
     = (Raise ValueError,
        extended fresh [(INFO, MsgProcessing "a.jpg"%string);
                        (ERROR, MsgCouldNotRead "a.jpg"%string)] []).
Proof.
  intros w.
  exact (unreadable_image_rejected resize_nearest w "a.jpg"%string (Some "o.jpg"%string)
           fresh eq_refl).
Defined.

(** X4. Exactly one surviving detection: the panel is that detection's crop
    of the source, pixel for pixel; [cv2.resize] is not consulted, so the
    result is the same for every resampling. *)
Theorem single_survivor_is_returned
    (resize : image -> nat -> nat -> image) (img : image)
    (boxes : list (Z * Z * Z * Z)) (d : detection) :
  survivors img boxes = [d] ->
  extractPanel resize img boxes = Ok (clip_and_crop img d).
Proof.
  unfold survivors, extractPanel. intros Hs.
  destruct boxes as [|b boxes']; [discriminate|].
  change (Nat.ltb 0 (length (b :: boxes'))) with true. cbv iota.
  rewrite collect_crops_survivors, Hs. reflexivity.
Qed.

Lemma single_survivor_is_returned_witness :
  extractPanel resize_nearest (ramp 4 4) [(9, 9, 12, 12); (1, 0, 3, 2)]
  = Ok [[grey 1; grey 2]; [grey 11; grey 12]].
Proof.
  exact (single_survivor_is_returned resize_nearest (ramp 4 4)
           [(9, 9, 12, 12); (1, 0, 3, 2)] (mkDetection (1, 0, 3, 2)) eq_refl).
Defined.

(** X5. The returned image is a well-formed picture.  If the source image
    is rectangular and has pixels and [cv2.resize] returns the requested
    shape, the image either version of [crop_front_panel] returns is
    rectangular, has pixels, and is no taller than the source. *)
Theorem returned_panel_well_formed
    (resize : image -> nat -> nat -> image)
    (resize_shape :
       forall c new_w new_h, has_shape (resize c new_w new_h) new_h new_w)
    (w : world) (image_path : string) (out_path : option string) (s : state)
    (img final : image) (o : option string) :
  rectangular img = true -> (0 < size img)%nat ->
  imread w image_path = Some img ->
  fst (Crop.crop_front_panel resize w image_path out_path s) = Ok (final, o)
  \/ fst (Cropper.crop_front_panel resize w image_path out_path s)
     = Ok (final, o) ->
  rectangular final = true /\ (0 < size final)%nat
  /\ (height final <= height img)%nat.
Proof.
  intros Hrect Hsize Hread Hret.
  assert (Hpanel : forall boxes,
            extractPanel resize img boxes = Ok final ->
            rectangular final = true /\ (0 < size final)%nat
            /\ (height final <= height img)%nat).
  { intros boxes Hp.
    destruct (extractPanel_shape resize resize_shape img boxes Hrect Hsize)
      as [out [Hout Hshape]].
    rewrite Hp in Hout. injection Hout as <-. exact Hshape. }
  destruct Hret as [Hret|Hret].
  - rewrite (crop_result resize w image_path out_path s img Hread) in Hret.
    destruct (detector_outcome w image_path s) as [boxes|e]; [|discriminate].
    simpl in Hret.
    destruct (extractPanel resize img boxes) as [out|e] eqn:Hp; [|discriminate].
    injection Hret as -> _. now apply (Hpanel boxes).
  - rewrite (cropper_result resize w image_path out_path s img Hread) in Hret.
    destruct (detector_outcome w image_path s) as [boxes|e].
    + destruct (extractPanel resize img boxes) as [out|e] eqn:Hp;
        [|discriminate].
      injection Hret as -> _. now apply (Hpanel boxes).
    + injection Hret as <- _. repeat split; [assumption | assumption | lia].
Qed.

Lemma returned_panel_well_formed_witness :
  let img := ramp 4 6 in
  let w := world_with img [(3, 1, 6, 4); (0, 0, 2, 2)] in
  exists final,
    fst (Crop.crop_front_panel resize_nearest w "a.jpg"%string None fresh)
    = Ok (final, None)
    /\ rectangular final = true /\ (0 < size final)%nat
    /\ (height final <= height img)%nat.
Proof.
  intros img w. eexists. split; [vm_compute; reflexivity|].
  apply (returned_panel_well_formed resize_nearest resize_nearest_shape w
           "a.jpg"%string None fresh img _ None);
    [reflexivity | vm_compute; lia | reflexivity | left; vm_compute; reflexivity].
Defined.


(** ** [load_model] *)

(** X7. The detector is loaded once.  After a [load_model] that returned,
    the handle is cached; from a state with a cached handle, [load_model] of
    either module returns at once and changes nothing, whatever has become
    of the weights file and the constructor since. *)
Theorem load_model_loads_once (w w' : world) (s : state) :
  (fst (Crop.load_model w s) = Ok tt ->
   model_cache (snd (Crop.load_model w s)) = true)
  /\ (fst (Cropper.load_model w s) = Ok tt ->
      model_cache (snd (Cropper.load_model w s)) = true)
  /\ (model_cache s = true ->
      Crop.load_model w' s = (Ok tt, s)
      /\ Cropper.load_model w' s = (Ok tt, s)).
Proof.
  unfold Crop.load_model, Cropper.load_model. run_monad.
  repeat split; split_run; simpl in *; congruence.
Qed.

(** X8. A model constructor that raises.  With the weights present and no
    cached handle, an exception of [YOLO(...)] leaves [load_model]
    unchanged; [crop.py] has printed the loading line, [cropper.py] has
    logged it and the failure.  The handle stays empty, so the next call
    tries to load again. *)
Theorem model_constructor_failure (w : world) (s : state) (e : exn) :
  model_cache s = false -> weights_exist w = true -> yolo_load w = Raise e ->
  Crop.load_model w s
  = (Raise e, extended s [(STDOUT, MsgLoadingModel)] [])
  /\ Cropper.load_model w s
     = (Raise e,
        extended s [(INFO, MsgLoadingModel); (ERROR, MsgLoadFailed e)] []).
Proof.
  intros Hc Hw Hy. unfold Crop.load_model, Cropper.load_model, extended.
  run_monad. rewrite Hc, Hw, Hy. simpl.
  rewrite ?app_nil_r, <- ?app_assoc, ?Hc. now split.
Qed.

Lemma model_constructor_failure_witness :
  let w := mkWorld (fun _ => true) (fun p => p) (fun _ => None) true
                   (Raise (ExternalError 7)) (fun _ => Ok []) in
  Crop.load_model w fresh
  = (Raise (ExternalError 7), extended fresh [(STDOUT, MsgLoadingModel)] [])
  /\ Cropper.load_model w fresh
     = (Raise (ExternalError 7),
        extended fresh [(INFO, MsgLoadingModel);
                        (ERROR, MsgLoadFailed (ExternalError 7))] []).
Proof.
  intros w.
  exact (model_constructor_failure w fresh (ExternalError 7)
           eq_refl eq_refl eq_refl).
Defined.

Lemma detector_outcome_same_cache (w : world) (image_path : string)
    (s s' : state) :
  model_cache s' = model_cache s ->
  detector_outcome w image_path s' = detector_outcome w image_path s.
Proof. unfold detector_outcome. now intros ->. Qed.

Lemma crop_unreadable_state (resize : image -> nat -> nat -> image)
    (w : world) (image_path : string) (out_path : option string) (s : state) :
  imread w image_path = None ->
  model_cache (snd (Crop.crop_front_panel resize w image_path out_path s))
  = model_cache s
  /\ model_cache (snd (Cropper.crop_front_panel resize w image_path out_path s))
     = model_cache s.
Proof.
  intros Hread. unfold Crop.crop_front_panel, Cropper.crop_front_panel.
  rewrite Hread. now run_monad.
Qed.

(** X9. The cache does not show in the results.  In one world, what
    [crop_front_panel] returns or raises for a path is the same after an
    earlier call that had no file to write (for any path, its [out_path]
    [None] or empty) as without it: a detector that loaded keeps answering,
    one that failed to load fails again. *)
Theorem earlier_calls_do_not_change_the_result
    (resize : image -> nat -> nat -> image) (w : world)
    (earlier image_path : string) (o o' : option string) (s : state) :
  truthy_path o = None ->
  fst (Crop.crop_front_panel resize w image_path o'
         (snd (Crop.crop_front_panel resize w earlier o s)))
  = fst (Crop.crop_front_panel resize w image_path o' s)
  /\ fst (Cropper.crop_front_panel resize w image_path o'
            (snd (Cropper.crop_front_panel resize w earlier o s)))
     = fst (Cropper.crop_front_panel resize w image_path o' s).
Proof.
  intros _.
  set (s1 := snd (Crop.crop_front_panel resize w earlier o s)).
  set (s2 := snd (Cropper.crop_front_panel resize w earlier o s)).
  assert (H1 : detector_outcome w image_path s1
               = detector_outcome w image_path s
               /\ detector_outcome w image_path s2
                  = detector_outcome w image_path s).
  { destruct (imread w earlier) as [img0|] eqn:Hread0.
    - split; apply detector_outcome_cache.
      + apply (crop_cache resize w earlier o s img0 Hread0).
      + apply (cropper_cache resize w earlier o s img0 Hread0).
    - destruct (crop_unreadable_state resize w earlier o s Hread0).
      split; now apply detector_outcome_same_cache. }
  destruct H1 as [H1 H2].
  destruct (imread w image_path) as [img|] eqn:Hread.
  - rewrite !(crop_result resize w image_path o' _ img Hread).
    rewrite !(cropper_result resize w image_path o' _ img Hread).
    now rewrite H1, H2.
  - unfold Crop.crop_front_panel at 1 2.
    unfold Cropper.crop_front_panel at 1 2. rewrite Hread. now run_monad.
Qed.

Lemma earlier_calls_do_not_change_the_result_witness :
  let w := world_with (ramp 2 3) [(0, 0, 2, 2)] in
  fst (Crop.crop_front_panel resize_nearest w "a.jpg"%string
         (Some "out.jpg"%string)
         (snd (Crop.crop_front_panel resize_nearest w "b.jpg"%string None
                 fresh)))
  = fst (Crop.crop_front_panel resize_nearest w "a.jpg"%string
           (Some "out.jpg"%string) fresh)
  /\ fst (Cropper.crop_front_panel resize_nearest w "a.jpg"%string
            (Some "out.jpg"%string)
            (snd (Cropper.crop_front_panel resize_nearest w "b.jpg"%string None
                    fresh)))
     = fst (Cropper.crop_front_panel resize_nearest w "a.jpg"%string
              (Some "out.jpg"%string) fresh).
Proof.
  intros w.
  exact (earlier_calls_do_not_change_the_result resize_nearest w
           "b.jpg"%string "a.jpg"%string None (Some "out.jpg"%string) fresh
           eq_refl).
Defined.

(** X30. A box entirely to the left of the image is not discarded.  On a
    rectangular image of [w] columns, a box with [x1 <= 0] and
    [-w < x2 < 0] and rows [y1 < y2] inside the image has no region in
    common with the image, yet its clipped stop column [x2] is read by the
    slice as counted from the right edge: the crop has pixels, survives,
    and the panel is the leftmost [w + x2] columns of the rows
    [y1 .. y2 - 1]. *)
Theorem box_left_of_the_image_survives
    (resize : image -> nat -> nat -> image) (img : image) (x1 y1 x2 y2 : Z) :
  rectangular img = true ->
  x1 <= 0 -> - Z.of_nat (width img) < x2 < 0 ->
  0 <= y1 < y2 -> y2 <= Z.of_nat (height img) ->
  let panel :=
    map (firstn (Z.to_nat (Z.of_nat (width img) + x2)))
        (firstn (Z.to_nat (y2 - y1)) (skipn (Z.to_nat y1) img)) in
  clipped_width img (mkDetection (x1, y1, x2, y2)) < 0
  /\ extractPanel resize img [(x1, y1, x2, y2)] = Ok panel
  /\ has_shape panel (Z.to_nat (y2 - y1))
               (Z.to_nat (Z.of_nat (width img) + x2)).
Proof.
  intros Hrect Hx1 Hx2 Hy Hy2 panel.
  apply rectangular_has_shape in Hrect. destruct Hrect as [_ Hrows].
  rewrite Forall_forall in Hrows.
  assert (Hcrop : clip_and_crop img (mkDetection (x1, y1, x2, y2)) = panel).
  { unfold clip_and_crop, crop_region, panel. simpl coords. cbv beta iota zeta.
    replace (Z.max 0 x1) with 0 by lia.
    replace (Z.max 0 y1) with y1 by lia.
    replace (Z.min (Z.of_nat (width img)) x2) with x2 by lia.
    replace (Z.min (Z.of_nat (height img)) y2) with y2 by lia.
    assert (Hsl : py_slice y1 y2 img
                  = firstn (Z.to_nat (y2 - y1)) (skipn (Z.to_nat y1) img)).
    { unfold py_slice, slice_index. fold (height img).
      destruct (Z.ltb_spec y1 0); [lia|]. destruct (Z.ltb_spec y2 0); [lia|].
      replace (Z.min y1 (Z.of_nat (height img))) with y1 by lia.
      replace (Z.min y2 (Z.of_nat (height img))) with y2 by lia.
      reflexivity. }
    rewrite Hsl. apply map_ext_in. intros row Hin.
    assert (Hrow : length row = width img).
    { apply Hrows. rewrite <- Hsl in Hin. now apply py_slice_incl in Hin. }
    unfold py_slice, slice_index. rewrite Hrow.
    destruct (Z.ltb_spec 0 0); [lia|]. destruct (Z.ltb_spec x2 0); [|lia].
    replace (Z.min 0 (Z.of_nat (width img))) with 0 by lia.
    replace (Z.max (x2 + Z.of_nat (width img)) 0)
      with (Z.of_nat (width img) + x2) by lia.
    now rewrite Z.sub_0_r. }
  assert (Hshape : has_shape panel (Z.to_nat (y2 - y1))
                     (Z.to_nat (Z.of_nat (width img) + x2))).
  { unfold panel. split.
    - rewrite length_map, length_firstn, length_skipn. unfold height in Hy2.
      lia.
    - apply Forall_forall. intros r Hr. apply in_map_iff in Hr.
      destruct Hr as [row [<- Hin]]. rewrite length_firstn.
      assert (Hrow : length row = width img).
      { apply Hrows.
        rewrite <- (firstn_skipn (Z.to_nat y1) img). apply in_or_app. right.
        rewrite <- (firstn_skipn (Z.to_nat (y2 - y1)) (skipn (Z.to_nat y1) img)).
        apply in_or_app. now left. }
      lia. }
  split; [unfold clipped_width; simpl; lia|]. split; [|exact Hshape].
  assert (Hsize : (0 < size panel)%nat).
  { apply size_pos_iff.
    destruct (has_shape_dims panel _ _ Hshape ltac:(lia)) as [-> ->]. lia. }
  unfold extractPanel. simpl length. simpl Nat.ltb. cbv iota.
  unfold sort_detections. simpl map. simpl fold_right. simpl collect_crops.
  rewrite Hcrop. apply Nat.ltb_lt in Hsize. rewrite Hsize. reflexivity.
Qed.

Lemma box_left_of_the_image_survives_witness :
  clipped_width (ramp 4 4) (mkDetection (-20, 0, -1, 2)) < 0
  /\ extractPanel resize_nearest (ramp 4 4) [(-20, 0, -1, 2)]
     = Ok [[grey 0; grey 1; grey 2]; [grey 10; grey 11; grey 12]]
  /\ has_shape [[grey 0; grey 1; grey 2]; [grey 10; grey 11; grey 12]] 2 3.
Proof.
  apply (box_left_of_the_image_survives resize_nearest (ramp 4 4) (-20) 0 (-1) 2);
    [reflexivity | lia | simpl; lia | lia | simpl; lia].
Defined.

(** ** [enhance_image] beyond its defaults *)

Lemma map_samples_ext (f g : Z -> Z) (img : image) :
  (forall v, f v = g v) -> map_samples f img = map_samples g img.
Proof.
  intros H. unfold map_samples. apply map_ext. intros row. apply map_ext.
  intros [[a b] c]. now rewrite !H.
Qed.

Lemma uint8_convertScaleAbs (img : image) (alpha beta : Q) :
  uint8_image (convertScaleAbs img alpha beta) = true.
Proof.
  unfold uint8_image, convertScaleAbs, map_samples.
  apply forallb_forall. intros row Hrow. apply in_map_iff in Hrow.
  destruct Hrow as [r [<- _]]. apply forallb_forall. intros p Hp.
  apply in_map_iff in Hp. destruct Hp as [[[a b] c] [<- _]].
  unfold uint8_pixel, is_uint8, convertScaleAbs_sample.
  pose proof (saturate_u8_range (cvRound (Qabs (scale32 alpha beta a)))).
  pose proof (saturate_u8_range (cvRound (Qabs (scale32 alpha beta b)))).
  pose proof (saturate_u8_range (cvRound (Qabs (scale32 alpha beta c)))).
  repeat (apply andb_true_intro; split); apply Z.leb_le; lia.
Qed.

Lemma uint8_convert_pixels (code : pixel -> pixel) (img : image) :
  (forall p, uint8_pixel p = true -> uint8_pixel (code p) = true) ->
  uint8_image img = true -> uint8_image (convert_pixels code img) = true.
Proof.
  intros Hcode Himg. unfold uint8_image, convert_pixels in *.
  rewrite forallb_forall in Himg.
  apply forallb_forall. intros row Hrow. apply in_map_iff in Hrow.
  destruct Hrow as [r [<- Hr]]. apply forallb_forall. intros p Hp.
  apply in_map_iff in Hp. destruct Hp as [q [<- Hq]]. apply Hcode.
  specialize (Himg r Hr). rewrite forallb_forall in Himg. now apply Himg.
Qed.

Lemma astype_uint8_range (x : Q) : 0 <= astype_uint8 x <= 255.
Proof.
  unfold astype_uint8.
  pose proof (Z.mod_pos_bound (py_int x) 256 ltac:(lia)). lia.
Qed.

Lemma uint8_scale_saturation (saturation : pyfloat) (hsv : image) :
  uint8_image hsv = true -> uint8_image (scale_saturation saturation hsv) = true.
Proof.
  intros Himg. unfold uint8_image, scale_saturation in *.
  rewrite forallb_forall in Himg.
  apply forallb_forall. intros row Hrow. apply in_map_iff in Hrow.
  destruct Hrow as [r [<- Hr]]. apply forallb_forall. intros p Hp.
  apply in_map_iff in Hp. destruct Hp as [[[h s] v] [<- Hq]].
  specialize (Himg r Hr). rewrite forallb_forall in Himg.
  specialize (Himg _ Hq). unfold uint8_pixel in *.
  apply andb_true_iff in Himg. destruct Himg as [Hhs Hv].
  apply andb_true_iff in Hhs. destruct Hhs as [Hh _].
  rewrite Hh, Hv. simpl. rewrite andb_true_r. unfold is_uint8.
  pose proof (astype_uint8_range
                (np_clip (fl32 (inject_Z s * fl32 saturation)) 0 255)).
  apply andb_true_intro; split; apply Z.leb_le; lia.
Qed.

Lemma scale_saturation_shape (saturation : pyfloat) (hsv : image) :
  map (@length pixel) (scale_saturation saturation hsv)
  = map (@length pixel) hsv.
Proof.
  unfold scale_saturation. rewrite map_map. apply map_ext.
  intros row. apply length_map.
Qed.

(** [enhance_image] in closed form: without a change of saturation the
    scaled image; with one, the scaled image converted, rewritten and
    converted back, unless it has no pixels, which [cv2.cvtColor]
    rejects. *)
Lemma enhance_image_outcome (bgr2hsv hsv2bgr : pixel -> pixel)
    (img : image) (brightness contrast saturation : pyfloat) :
  enhance_image bgr2hsv hsv2bgr img brightness contrast saturation
  = if Qeq_bool saturation 1 then
      Ok (convertScaleAbs img (fadd 1 contrast) brightness)
    else if Nat.eqb (size img) 0 then Raise cv_error
    else
      Ok (convert_pixels hsv2bgr
            (scale_saturation saturation
               (convert_pixels bgr2hsv
                  (convertScaleAbs img (fadd 1 contrast) brightness)))).
Proof.
  unfold enhance_image. destruct (Qeq_bool saturation 1); [reflexivity|].
  simpl negb. cbv iota.
  set (scaled := convertScaleAbs img (fadd 1 contrast) brightness).
  assert (E1 : size scaled = size img)
    by apply size_by_lengths, map_samples_shape.
  assert (E2 : size (scale_saturation saturation (convert_pixels bgr2hsv scaled))
               = size img).
  { rewrite <- E1. apply size_by_lengths.
    now rewrite scale_saturation_shape, convert_pixels_shape. }
  unfold cvtColor at 1. rewrite E1.
  destruct (Nat.eqb (size img) 0) eqn:E; [reflexivity|].
  simpl rbind. fold (scale_saturation saturation (convert_pixels bgr2hsv scaled)).
  unfold cvtColor. now rewrite E2, E.
Qed.

(** Whenever [enhance_image] returns, each row has kept its length. *)
Lemma enhance_image_shape (bgr2hsv hsv2bgr : pixel -> pixel)
    (img out : image) (brightness contrast saturation : pyfloat) :
  enhance_image bgr2hsv hsv2bgr img brightness contrast saturation = Ok out ->
  map (@length pixel) out = map (@length pixel) img.
Proof.
  rewrite enhance_image_outcome.
  destruct (Qeq_bool saturation 1).
  - intros H. injection H as <-. apply map_samples_shape.
  - destruct (Nat.eqb (size img) 0); [discriminate|].
    intros H. injection H as <-.
    rewrite convert_pixels_shape, scale_saturation_shape, convert_pixels_shape.
    apply map_samples_shape.
Qed.

(** X10. The enhanced image is again an image of the same shape.  For
    every input and every brightness, contrast and saturation,
    [enhance_image] returns, unless the saturation is to change and the
    image has no pixels (then [cv2.cvtColor] rejects it); in what it
    returns each row has kept its length and, when the two colour
    conversions map 8-bit pixels to 8-bit pixels, every sample lies in
    0..255. *)
Theorem enhance_image_keeps_format (bgr2hsv hsv2bgr : pixel -> pixel)
    (img : image) (brightness contrast saturation : pyfloat) :
  (forall p, uint8_pixel p = true -> uint8_pixel (bgr2hsv p) = true) ->
  (forall p, uint8_pixel p = true -> uint8_pixel (hsv2bgr p) = true) ->
  (Qeq_bool saturation 1 = true \/ (0 < size img)%nat ->
   exists out,
     enhance_image bgr2hsv hsv2bgr img brightness contrast saturation = Ok out
     /\ map (@length pixel) out = map (@length pixel) img
     /\ uint8_image out = true)
  /\ (Qeq_bool saturation 1 = false -> size img = 0%nat ->
      enhance_image bgr2hsv hsv2bgr img brightness contrast saturation
      = Raise cv_error).
Proof.
  intros Hto Hfrom. split.
  - intros Hcase.
    assert (Hret : exists out,
              enhance_image bgr2hsv hsv2bgr img brightness contrast saturation
              = Ok out /\ uint8_image out = true).
    { rewrite enhance_image_outcome.
      destruct (Qeq_bool saturation 1).
      - eexists. split; [reflexivity | apply uint8_convertScaleAbs].
      - destruct Hcase as [Hc|Hc]; [discriminate|].
        destruct (Nat.eqb_spec (size img) 0) as [E|_]; [lia|].
        eexists. split; [reflexivity|].
        apply uint8_convert_pixels; [assumption|].
        apply uint8_scale_saturation.
        apply uint8_convert_pixels; [assumption|]. apply uint8_convertScaleAbs. }
    destruct Hret as [out [Hout Hu8]]. exists out.
    split; [exact Hout|]. split; [|exact Hu8].
    now apply (enhance_image_shape bgr2hsv hsv2bgr img out brightness contrast
                 saturation).
  - intros Hsat Hsize. rewrite enhance_image_outcome, Hsat, Hsize. reflexivity.
Qed.

Lemma enhance_image_keeps_format_witness :
  let id := fun p : pixel => p in
  let img : image := [[(300, -20, 7); (0, 128, 255)]] in
  exists out,
    enhance_image id id img 40 (1 # 2) (3 # 2) = Ok out
    /\ map (@length pixel) out = map (@length pixel) img
    /\ uint8_image out = true.
Proof.
  intros id img.
  apply (enhance_image_keeps_format id id img 40 (1 # 2) (3 # 2)
           (fun p H => H) (fun p H => H)).
  right. vm_compute. lia.
Defined.

Lemma map_samples_ext_uint8 (f g : Z -> Z) (img : image) :
  (forall v, is_uint8 v = true -> f v = g v) ->
  uint8_image img = true ->
  map_samples f img = map_samples g img.
Proof.
  intros Hf Himg. unfold map_samples, uint8_image in *.
  rewrite forallb_forall in Himg.
  apply map_ext_in. intros row Hrow.
  specialize (Himg row Hrow). rewrite forallb_forall in Himg.
  apply map_ext_in. intros [[a b] c] Hp.
  specialize (Himg _ Hp). unfold uint8_pixel in Himg.
  apply andb_true_iff in Himg. destruct Himg as [Hab Hc].
  apply andb_true_iff in Hab. destruct Hab as [Ha Hb].
  now rewrite !Hf.
Qed.

(** One 8-bit sample under multiplier 1.0 and an integer offset, in single
    precision: an offset too large for single precision is large enough to
    saturate the result. *)
Lemma brightness_sample (v b : Z) :
  0 <= v <= 255 ->
  convertScaleAbs_sample (fadd 1 0) (inject_Z b) v = Z.min 255 (Z.abs (v + b)).
Proof.
  intros Hv. unfold convertScaleAbs_sample, scale32.
  assert (Halpha : (fl32 (fadd 1 0) == 1)%Q) by reflexivity.
  assert (EA : (fl32 (inject_Z v * fl32 (fadd 1 0)) == inject_Z v)%Q).
  { apply Qeq_trans with (fl32 (inject_Z v));
      [|apply fl32_small_integer; lia].
    apply fl32_comp. rewrite Halpha. ring. }
  set (A := fl32 (inject_Z v * fl32 (fadd 1 0))) in *.
  assert (Hv0 : (0 <= inject_Z v)%Q) by (unfold Qle; simpl; lia).
  assert (Hv255 : (inject_Z v <= 255)%Q) by (unfold Qle; simpl; lia).
  destruct (Z_le_gt_dec (Z.abs b) 512) as [Hsmall|Hbig].
  - assert (EB : (fl32 (inject_Z b) == inject_Z b)%Q)
      by (apply fl32_small_integer; lia).
    assert (E : (Qabs (fl32 (A + fl32 (inject_Z b)))
                 == inject_Z (Z.abs (v + b)))%Q).
    { assert (E1 : (fl32 (A + fl32 (inject_Z b)) == inject_Z (v + b))%Q).
      { apply Qeq_trans with (fl32 (inject_Z (v + b)));
          [|apply fl32_small_integer; lia].
        apply fl32_comp. rewrite EA, EB, inject_Z_plus. reflexivity. }
      rewrite E1. reflexivity. }
    rewrite (cvRound_comp _ _ E), cvRound_integer. unfold saturate_u8. lia.
  - assert (Hsat : forall x : Q,
              (257 <= Qabs x)%Q -> saturate_u8 (cvRound (Qabs x)) = 255).
    { intros x Hx. unfold saturate_u8, cvRound.
      pose proof (round_half_even_monotone (inject_Z 257) _ Hx) as Hm.
      rewrite (round_half_even_integer 257) in Hm. lia. }
    replace (Z.min 255 (Z.abs (v + b))) with 255 by lia.
    apply Hsat.
    destruct (Z_le_gt_dec 0 b) as [Hpos|Hneg].
    + assert (HB : (512 <= fl32 (inject_Z b))%Q).
      { apply Qle_trans with (fl32 512); [vm_compute; discriminate|].
        apply fl32_monotone. unfold Qle. simpl. lia. }
      assert (HS : (257 <= fl32 (A + fl32 (inject_Z b)))%Q).
      { apply Qle_trans with (fl32 257); [vm_compute; discriminate|].
        apply fl32_monotone. lra. }
      rewrite Qabs_pos by lra. exact HS.
    + assert (HB : (fl32 (inject_Z b) <= - (512))%Q).
      { apply Qle_trans with (fl32 (- (512))); [|vm_compute; discriminate].
        apply fl32_monotone. unfold Qle. simpl. lia. }
      assert (HS : (fl32 (A + fl32 (inject_Z b)) <= - (257))%Q).
      { apply Qle_trans with (fl32 (- (257))); [|vm_compute; discriminate].
        apply fl32_monotone. lra. }
      rewrite Qabs_neg by lra. lra.
Qed.

(** X11. Brightness alone mirrors at black.  With contrast 0 and saturation
    1, an integer brightness [b] turns every sample [v] of an 8-bit image
    into [min(255, |v + b|)]: a sum above 255 is cut to 255, but a negative
    sum is not cut to 0, it comes back as its absolute value. *)
Theorem brightness_only_mirrors_at_black (bgr2hsv hsv2bgr : pixel -> pixel)
    (img : image) (b : Z) :
  uint8_image img = true ->
  enhance_image bgr2hsv hsv2bgr img (inject_Z b) 0 1
  = Ok (map_samples (fun v => Z.min 255 (Z.abs (v + b))) img).
Proof.
  intros Himg.
  unfold enhance_image. change (Qeq_bool 1 1) with true. simpl negb. cbv iota.
  f_equal. unfold convertScaleAbs.
  apply map_samples_ext_uint8; [|exact Himg]. intros v Hv.
  apply brightness_sample.
  unfold is_uint8 in Hv. apply andb_true_iff in Hv.
  destruct Hv as [H0 H255]. apply Z.leb_le in H0, H255. lia.
Qed.

Lemma brightness_only_mirrors_at_black_witness :
  enhance_image (fun p => p) (fun p => p) [[(10, 200, 255)]] (inject_Z (-50)) 0 1
  = Ok [[(40, 150, 205)]].
Proof.
  exact (brightness_only_mirrors_at_black (fun p => p) (fun p => p)
           [[(10, 200, 255)]] (-50) eq_refl).
Defined.

Lemma astype_uint8_small (q : Q) :
  (0 <= q)%Q -> (q <= 255)%Q ->
  0 <= astype_uint8 q <= 255 /\ astype_uint8 q = Qfloor q.
Proof.
  intros H0 H255. unfold astype_uint8. rewrite py_int_floor by assumption.
  assert (0 <= Qfloor q).
  { change 0 with (Qfloor 0). now apply Qfloor_resp_le. }
  assert (Qfloor q <= 255).
  { rewrite <- (Qfloor_Z 255). now apply Qfloor_resp_le. }
  rewrite Z.mod_small by lia. lia.
Qed.

(** One saturation sample [s] of an 8-bit image under the multiplier
    [saturation]: what [enhance_image] stores in its place. *)
Lemma saturation_sample (saturation : pyfloat) (s : Z) :
  0 <= s <= 255 ->
  let s' := astype_uint8 (np_clip (fl32 (inject_Z s * fl32 saturation)) 0 255) in
  0 <= s' <= 255
  /\ ((1 <= saturation)%Q -> s <= s')
  /\ ((0 <= saturation)%Q -> (saturation <= 1)%Q -> s' <= s)
  /\ ((saturation <= 0)%Q -> s' = 0).
Proof.
  intros Hs. set (x := fl32 (inject_Z s * fl32 saturation)).
  assert (Hs0 : (0 <= inject_Z s)%Q) by (unfold Qle; simpl; lia).
  assert (Hs255 : (inject_Z s <= 255)%Q) by (unfold Qle; simpl; lia).
  assert (Hc0 : (0 <= np_clip x 0 255)%Q).
  { unfold np_clip. apply Q.min_glb; [discriminate | apply Q.le_max_l]. }
  assert (Hc255 : (np_clip x 0 255 <= 255)%Q) by apply Q.le_min_l.
  destruct (astype_uint8_small _ Hc0 Hc255) as [Hrange Hfloor].
  cbv zeta. split; [exact Hrange|]. rewrite Hfloor. split; [|split].
  - intros Hsat.
    assert (H1 : (1 <= fl32 saturation)%Q)
      by (rewrite <- fl32_one; now apply fl32_monotone).
    assert (Hx : (inject_Z s <= x)%Q).
    { rewrite <- (fl32_small_integer s) at 1 by lia. apply fl32_monotone.
      rewrite <- (Qmult_1_r (inject_Z s)) at 1.
      rewrite (Qmult_comm (inject_Z s) 1), (Qmult_comm (inject_Z s) _).
      now apply Qmult_le_compat_r. }
    rewrite <- (Qfloor_Z s). apply Qfloor_resp_le.
    unfold np_clip. apply Q.min_glb; [exact Hs255|].
    eapply Qle_trans; [exact Hx | apply Q.le_max_r].
  - intros Hsat0 Hsat1.
    assert (H1 : (fl32 saturation <= 1)%Q)
      by (rewrite <- fl32_one; now apply fl32_monotone).
    assert (Hx : (x <= inject_Z s)%Q).
    { rewrite <- (fl32_small_integer s) by lia. apply fl32_monotone.
      rewrite <- (Qmult_1_r (inject_Z s)) at 2.
      rewrite (Qmult_comm (inject_Z s) 1), (Qmult_comm (inject_Z s) _).
      now apply Qmult_le_compat_r. }
    rewrite <- (Qfloor_Z s). apply Qfloor_resp_le.
    unfold np_clip. eapply Qle_trans; [apply Q.le_min_r|].
    apply Q.max_lub; assumption.
  - intros Hsat.
    assert (H0 : (fl32 saturation <= 0)%Q)
      by (change 0%Q with (fl32 0); now apply fl32_monotone).
    assert (Hx : (x <= 0)%Q).
    { change 0%Q with (fl32 0). apply fl32_monotone.
      rewrite <- (Qmult_0_r (inject_Z s)).
      rewrite (Qmult_comm (inject_Z s) 0), (Qmult_comm (inject_Z s) _).
      now apply Qmult_le_compat_r. }
    assert (Hc : (np_clip x 0 255 <= 0)%Q).
    { unfold np_clip. eapply Qle_trans; [apply Q.le_min_r|].
      apply Q.max_lub; [apply Qle_refl | exact Hx]. }
    apply Z.le_antisymm.
    + change 0 with (Qfloor 0). now apply Qfloor_resp_le.
    + change 0 with (Qfloor 0). now apply Qfloor_resp_le.
Qed.

(** X12. The saturation step stays within the 8-bit range and moves the
    saturation the way the multiplier says.  When [saturation] is not 1,
    [enhance_image] converts to HSV, rewrites the image pixel by pixel and
    converts back; on an 8-bit HSV image the rewrite leaves hue and value
    as they are, and the new saturation is in 0..255 (the cast never wraps
    around), not below the old one for a multiplier of at least 1, not
    above it for a multiplier in [0, 1], and 0 for a multiplier of at most
    0. *)
Theorem saturation_step_is_monotone (bgr2hsv hsv2bgr : pixel -> pixel)
    (img hsv : image) (brightness contrast saturation : pyfloat) :
  Qeq_bool saturation 1 = false ->
  uint8_image hsv = true ->
  enhance_image bgr2hsv hsv2bgr img brightness contrast saturation
  = rbind (cvtColor bgr2hsv
             (convertScaleAbs img (fadd 1 contrast) brightness))
          (fun converted =>
             cvtColor hsv2bgr (scale_saturation saturation converted))
  /\ Forall2
       (Forall2 (fun p q : pixel =>
          let '(h, s, v) := p in
          let '(h', s', v') := q in
          h' = h /\ v' = v /\ 0 <= s' <= 255
          /\ ((1 <= saturation)%Q -> s <= s')
          /\ ((0 <= saturation)%Q -> (saturation <= 1)%Q -> s' <= s)
          /\ ((saturation <= 0)%Q -> s' = 0)))
       hsv (scale_saturation saturation hsv).
Proof.
  intros Hsat Himg.
  split; [unfold enhance_image; now rewrite Hsat|].
  unfold uint8_image in Himg. rewrite forallb_forall in Himg.
  unfold scale_saturation.
  induction hsv as [|row rows IH]; simpl; constructor.
  - assert (Hrow : forallb uint8_pixel row = true) by (apply Himg; now left).
    clear IH Himg. induction row as [|[[h s] v] row IHrow]; simpl; constructor.
    + simpl in Hrow. apply andb_true_iff in Hrow. destruct Hrow as [Hp _].
      unfold uint8_pixel, is_uint8 in Hp.
      assert (Hs : 0 <= s <= 255).
      { apply andb_true_iff in Hp. destruct Hp as [Hp _].
        apply andb_true_iff in Hp. destruct Hp as [_ Hp].
        apply andb_true_iff in Hp. destruct Hp as [H1 H2].
        apply Z.leb_le in H1, H2. lia. }
      split; [reflexivity|]. split; [reflexivity|].
      apply (saturation_sample saturation s Hs).
    + apply IHrow. simpl in Hrow. apply andb_true_iff in Hrow. apply Hrow.
  - apply IH. intros r Hr. apply Himg. now right.
Qed.

Lemma saturation_step_is_monotone_witness :
  let id := fun p : pixel => p in
  let hsv : image := [[(60, 200, 90); (10, 0, 255)]] in
  scale_saturation (3 # 2) hsv = [[(60, 255, 90); (10, 0, 255)]]
  /\ Forall2
       (Forall2 (fun p q : pixel =>
          let '(h, s, v) := p in
          let '(h', s', v') := q in
          h' = h /\ v' = v /\ 0 <= s' <= 255
          /\ ((1 <= 3 # 2)%Q -> s <= s')
          /\ ((0 <= 3 # 2)%Q -> (3 # 2 <= 1)%Q -> s' <= s)
          /\ ((3 # 2 <= 0)%Q -> s' = 0)))
       hsv (scale_saturation (3 # 2) hsv).
Proof.
  intros id hsv. split; [vm_compute; reflexivity|].
  exact (proj2 (saturation_step_is_monotone id id hsv hsv 0 0 (3 # 2)
                  eq_refl eq_refl)).
Defined.

(** ** Coverage *)

Lemma filter_none {A : Type} (f : A -> bool) (l : list A) :
  Forall (fun x => f x = false) l -> filter f l = [].
Proof. induction 1 as [|x l Hx _ IH]; simpl; [reflexivity|]. now rewrite Hx. Qed.

Lemma filter_all {A : Type} (f : A -> bool) (l : list A) :
  Forall (fun x => f x = true) l -> filter f l = l.
Proof.
  induction 1 as [|x l Hx _ IH]; simpl; [reflexivity|]. now rewrite Hx, IH.
Qed.

(** X13. The two ends of the scale.  On an image with pixels, when no pixel
    of the converted image is within either range the coverage is exactly
    0; when every pixel is within one of them, and the image is
    rectangular, it is exactly 100: the float arithmetic loses nothing
    there. *)
Theorem coverage_extremes (bgr2hsv : pixel -> pixel) (self : PlantAnalyzer)
    (img : image) :
  (0 < size img)%nat ->
  let hsv := convert_pixels bgr2hsv img in
  (Forall (fun p => is_plant self p = false) (concat hsv) ->
   plant_percentage bgr2hsv self img = Ok 0%Q)
  /\ (rectangular img = true ->
      Forall (fun p => is_plant self p = true) (concat hsv) ->
      exists p, plant_percentage bgr2hsv self img = Ok p /\ (p == 100)%Q).
Proof.
  intros Hsize hsv.
  pose proof (plant_percentage_value bgr2hsv self img Hsize) as Hv.
  cbv zeta in Hv. apply size_pos_iff in Hsize.
  assert (Hnz : (height img * width img)%nat <> 0%nat) by nia.
  rewrite Hv. split.
  - intros Hnone. unfold matching_pixels. fold hsv.
    rewrite (filter_none _ _ Hnone). reflexivity.
  - intros Hrect Hall. eexists. split; [reflexivity|].
    unfold matching_pixels. fold hsv. rewrite (filter_all _ _ Hall).
    unfold hsv. rewrite convert_pixels_count, rectangular_pixel_count
      by assumption.
    set (t := inject_Z (Z.of_nat (height img * width img))).
    assert (Ht : (0 < t)%Q) by (apply inject_nat_pos; lia).
    assert (E : (fl (t / t) == 1)%Q).
    { rewrite <- fl_one. apply fl_comp. field.
      intros H. rewrite H in Ht. revert Ht. apply Qlt_irrefl. }
    unfold fmul. apply Qeq_trans with (fl (inject_Z 100)); [|exact fl_hundred].
    apply fl_comp. rewrite E, fl_hundred. ring.
Qed.

Lemma coverage_extremes_witness :
  let code := fun p : pixel => p in
  plant_percentage code default_analyzer [[(0, 0, 0); (90, 50, 50)]] = Ok 0%Q
  /\ exists p,
       plant_percentage code default_analyzer [[(60, 50, 50); (140, 50, 50)]]
       = Ok p /\ (p == 100)%Q.
Proof.
  intros code. split.
  - apply (coverage_extremes code default_analyzer [[(0, 0, 0); (90, 50, 50)]]);
      [vm_compute; lia | repeat constructor].
  - apply (coverage_extremes code default_analyzer
             [[(60, 50, 50); (140, 50, 50)]]);
      [vm_compute; lia | reflexivity | repeat constructor].
Defined.

Lemma in_bounds_within (la ua lb ub p : pixel) :
  bounds_within la ua lb ub = true ->
  in_bounds la ua p = true -> in_bounds lb ub p = true.
Proof.
  destruct la as [[la0 la1] la2], ua as [[ua0 ua1] ua2],
           lb as [[lb0 lb1] lb2], ub as [[ub0 ub1] ub2], p as [[p0 p1] p2].
  unfold bounds_within, in_bounds. intros Hw Hp.
  repeat (apply andb_true_iff in Hw; destruct Hw as [Hw ?]).
  repeat (apply andb_true_iff in Hp; destruct Hp as [Hp ?]).
  repeat match goal with H : (_ <=? _) = true |- _ => apply Z.leb_le in H end.
  repeat (apply andb_true_intro; split); apply Z.leb_le; lia.
Qed.

Lemma filter_length_le_impl {A : Type} (f g : A -> bool) (l : list A) :
  (forall x, f x = true -> g x = true) ->
  (length (filter f l) <= length (filter g l))%nat.
Proof.
  intros H. induction l as [|x l IH]; simpl; [lia|].
  destruct (f x) eqn:Hf.
  - rewrite (H x Hf). simpl. lia.
  - destruct (g x); simpl; lia.
Qed.

(** X14. Wider bounds never lower the coverage.  If each green and purple
    bound of one analyzer lies within the matching bound of another, then
    on every image with at least one pixel both return and the second
    reports at least the coverage of the first; the float rounding does not
    reverse the order. *)
Theorem wider_bounds_never_lower_coverage (bgr2hsv : pixel -> pixel)
    (a b : PlantAnalyzer) (img : image) :
  analyzer_within a b = true ->
  (0 < size img)%nat ->
  exists pa pb,
    plant_percentage bgr2hsv a img = Ok pa
    /\ plant_percentage bgr2hsv b img = Ok pb
    /\ (pa <= pb)%Q.
Proof.
  intros Hw Hsize. unfold analyzer_within in Hw. apply andb_true_iff in Hw.
  destruct Hw as [Hg Hp].
  rewrite !plant_percentage_value by assumption.
  apply size_pos_iff in Hsize.
  assert (Hnz : (0 < height img * width img)%nat) by nia.
  eexists. eexists. split; [reflexivity|]. split; [reflexivity|].
  assert (Hm : (matching_pixels a (convert_pixels bgr2hsv img)
                <= matching_pixels b (convert_pixels bgr2hsv img))%nat).
  { unfold matching_pixels. apply filter_length_le_impl. intros p.
    unfold is_plant. rewrite !orb_true_iff. intros [H|H].
    - left. eapply in_bounds_within; eassumption.
    - right. eapply in_bounds_within; eassumption. }
  pose proof (inject_nat_pos (height img * width img) Hnz) as Hpos.
  unfold fmul. apply fl_monotone.
  apply Qmult_le_compat_r; [|rewrite fl_hundred; discriminate].
  apply fl_monotone. apply Qdiv_le_mono; [exact Hpos|].
  rewrite <- Zle_Qle. lia.
Qed.

Lemma wider_bounds_never_lower_coverage_witness :
  let code := fun p : pixel => p in
  let wide := mkAnalyzer (30, 30, 30) (90, 255, 255)
                         (120, 30, 30) (160, 255, 255) in
  exists pa pb,
    plant_percentage code default_analyzer photo_after = Ok pa
    /\ plant_percentage code wide photo_after = Ok pb
    /\ (pa <= pb)%Q.
Proof.
  intros code wide.
  apply (wider_bounds_never_lower_coverage code default_analyzer wide
           photo_after eq_refl).
  vm_compute. lia.
Defined.

Lemma mask_row_count_one (f : pixel -> bool) (row : list pixel) :
  count_nonzero_row (map (fun p => if f p then 255 else 0) row)
  = length (filter f row).
Proof.
  unfold count_nonzero_row. induction row as [|p row IH]; simpl; [reflexivity|].
  destruct (f p); simpl; now rewrite IH.
Qed.

Lemma inRange_count (hsv : image) (lowerb upperb : pixel) :
  countNonZero (inRange hsv lowerb upperb)
  = length (filter (in_bounds lowerb upperb) (concat hsv)).
Proof.
  unfold countNonZero, inRange. rewrite filter_concat_length.
  induction hsv as [|row hsv IH]; simpl; [reflexivity|].
  now rewrite IH, mask_row_count_one.
Qed.

Lemma filter_or_disjoint {A : Type} (f g : A -> bool) (l : list A) :
  (forall x, f x = true -> g x = false) ->
  length (filter (fun x => f x || g x) l)
  = (length (filter f l) + length (filter g l))%nat.
Proof.
  intros H. induction l as [|x l IH]; simpl; [reflexivity|].
  destruct (f x) eqn:Hf; simpl.
  - rewrite (H x Hf). simpl. now rewrite IH.
  - destruct (g x); simpl; rewrite IH; lia.
Qed.

(** X15. Green and purple add up.  When the hue intervals of the two
    ranges do not meet, as with the default ranges (35..85 and 125..155), no
    pixel is in both masks and the plant mask counts exactly the green
    pixels plus the purple pixels. *)
Theorem green_and_purple_add_up (self : PlantAnalyzer) (hsv : image) :
  hues_disjoint self = true ->
  let green_mask := inRange hsv (lower_green self) (upper_green self) in
  let purple_mask := inRange hsv (lower_purple self) (upper_purple self) in
  countNonZero (bitwise_or green_mask purple_mask)
  = (countNonZero green_mask + countNonZero purple_mask)%nat.
Proof.
  intros Hd green_mask purple_mask. subst green_mask purple_mask.
  rewrite plant_mask_count, !inRange_count. unfold matching_pixels.
  apply (filter_or_disjoint
           (in_bounds (lower_green self) (upper_green self))
           (in_bounds (lower_purple self) (upper_purple self))).
  intros [[p0 p1] p2]. unfold hues_disjoint in Hd. unfold in_bounds.
  destruct (lower_green self) as [[lg0 lg1] lg2],
           (upper_green self) as [[ug0 ug1] ug2],
           (lower_purple self) as [[lp0 lp1] lp2],
           (upper_purple self) as [[up0 up1] up2].
  intros Hg.
  repeat (apply andb_true_iff in Hg; destruct Hg as [Hg ?]).
  repeat match goal with H : (_ <=? _) = true |- _ => apply Z.leb_le in H end.
  apply orb_true_iff in Hd.
  destruct Hd as [Hd|Hd]; apply Z.ltb_lt in Hd.
  - destruct (lp0 <=? p0) eqn:E; [apply Z.leb_le in E; lia | reflexivity].
  - destruct (p0 <=? up0) eqn:E; [apply Z.leb_le in E; lia|].
    now rewrite andb_false_r.
Qed.

Lemma green_and_purple_add_up_witness :
  let green_mask := inRange photo_after (35, 40, 40) (85, 255, 255) in
  let purple_mask := inRange photo_after (125, 40, 40) (155, 255, 255) in
  countNonZero (bitwise_or green_mask purple_mask)
  = (countNonZero green_mask + countNonZero purple_mask)%nat.
Proof.
  exact (green_and_purple_add_up default_analyzer photo_after eq_refl).
Defined.

(** ** [calculate_plant_percentage] *)

Lemma rectangular_by_lengths (a b : image) :
  map (@length pixel) a = map (@length pixel) b ->
  rectangular a = rectangular b.
Proof.
  intros H.
  assert (Hr : forall img : image,
             rectangular img
             = forallb (fun n => Nat.eqb n (hd 0%nat (map (@length pixel) img)))
                       (map (@length pixel) img)).
  { intros img. unfold rectangular.
    replace (width img) with (hd 0%nat (map (@length pixel) img))
      by now destruct img.
    generalize (hd 0%nat (map (@length pixel) img)) as n. intros n.
    induction img as [|r img IH]; simpl; [reflexivity|]. now rewrite IH. }
  now rewrite (Hr a), (Hr b), H.
Qed.

Lemma plant_percentage_in_range (bgr2hsv : pixel -> pixel)
    (self : PlantAnalyzer) (img : image) :
  rectangular img = true -> (0 < size img)%nat ->
  exists p,
    plant_percentage bgr2hsv self img = Ok p /\ (0 <= p)%Q /\ (p <= 100)%Q.
Proof.
  intros Hrect Hsize. rewrite plant_percentage_value by assumption.
  eexists. split; [reflexivity|].
  apply size_pos_iff in Hsize.
  apply percentage_range; [nia|].
  rewrite <- rectangular_pixel_count by assumption.
  rewrite <- (convert_pixels_count bgr2hsv). apply matching_pixels_le.
Qed.

(** An image without pixels is rejected, so whatever [plant_percentage]
    returns for a rectangular image is a percentage. *)
Lemma plant_percentage_yields_range (bgr2hsv : pixel -> pixel)
    (self : PlantAnalyzer) (img : image) (p : pyfloat) :
  rectangular img = true ->
  plant_percentage bgr2hsv self img = Ok p -> (0 <= p)%Q /\ (p <= 100)%Q.
Proof.
  intros Hrect Hp.
  destruct (Nat.eqb_spec (size img) 0) as [Hz|Hnz].
  - unfold plant_percentage in Hp. rewrite cvtColor_empty in Hp by assumption.
    discriminate.
  - destruct (plant_percentage_in_range bgr2hsv self img Hrect ltac:(lia))
      as [q [Hq Hrange]].
    rewrite Hp in Hq. now injection Hq as <-.
Qed.

(** X16. A missing file is rejected before anything else.  When
    [os.path.exists] is false for the path, [calculate_plant_percentage]
    raises [FileNotFoundError] whatever its flags: the image is not read,
    the detector not loaded, nothing written; [analyzer.py] logs one error
    line, [plant_analysis.py] leaves the state as it was. *)
Theorem missing_file_rejected_first
    (resize : image -> nat -> nat -> image) (bgr2hsv hsv2bgr : pixel -> pixel)
    (self : PlantAnalyzer) (w : world) (image_path : string) (do_crop : bool)
    (enhance_params : option params) (save_debug : bool) (s : state) :
  path_exists w image_path = false ->
  Analyzer.calculate_plant_percentage resize bgr2hsv hsv2bgr self w image_path
    do_crop enhance_params save_debug s
  = (Raise FileNotFoundError,
     extended s [(ERROR, MsgImageNotFound image_path)] [])
  /\ PlantAnalysis.calculate_plant_percentage resize bgr2hsv hsv2bgr self w
       image_path do_crop enhance_params save_debug s
     = (Raise FileNotFoundError, s).
Proof.
  intros Hno.
  unfold Analyzer.calculate_plant_percentage,
    PlantAnalysis.calculate_plant_percentage, calculate_plant_percentage,
    no_logger, extended.
  rewrite Hno. run_monad. rewrite app_nil_r. now destruct s.
Qed.

Lemma missing_file_rejected_first_witness :
  let w := mkWorld (fun _ => false) (fun p => p) (fun _ => Some (ramp 2 2))
                   true (Ok tt) (fun _ => Ok []) in
  let id := fun p : pixel => p in
  Analyzer.calculate_plant_percentage resize_nearest id id default_analyzer w
    "gone.jpg"%string true None true fresh
  = (Raise FileNotFoundError,
     extended fresh [(ERROR, MsgImageNotFound "gone.jpg"%string)] [])
  /\ PlantAnalysis.calculate_plant_percentage resize_nearest id id
       default_analyzer w "gone.jpg"%string true None true fresh
     = (Raise FileNotFoundError, fresh).
Proof.
  intros w id.
  exact (missing_file_rejected_first resize_nearest id id default_analyzer w
           "gone.jpg"%string true None true fresh eq_refl).
Defined.

(** X17. Measuring without cropping never touches the detector.  With
    [do_crop] false, the outcome and the state after the call are the same
    in any two worlds that agree on the file (existence, base name,
    content), whatever their weights file, model and inference; the
    detector handle is left as it was. *)
Theorem no_crop_ignores_the_detector
    (resize : image -> nat -> nat -> image) (bgr2hsv hsv2bgr : pixel -> pixel)
    (self : PlantAnalyzer) (w w' : world) (image_path : string)
    (enhance_params : option params) (save_debug : bool) (s : state) :
  path_exists w image_path = path_exists w' image_path ->
  basename w image_path = basename w' image_path ->
  imread w image_path = imread w' image_path ->
  let run := fun v =>
    Analyzer.calculate_plant_percentage resize bgr2hsv hsv2bgr self v
      image_path false enhance_params save_debug s in
  let run_old := fun v =>
    PlantAnalysis.calculate_plant_percentage resize bgr2hsv hsv2bgr self v
      image_path false enhance_params save_debug s in
  run w = run w' /\ run_old w = run_old w'
  /\ model_cache (snd (run w)) = model_cache s
  /\ model_cache (snd (run_old w)) = model_cache s.
Proof.
  intros He Hb Hr run run_old. subst run run_old. cbv beta.
  unfold Analyzer.calculate_plant_percentage,
    PlantAnalysis.calculate_plant_percentage, calculate_plant_percentage,
    no_logger.
  rewrite <- He, <- Hb, <- Hr.
  split; [reflexivity|]. split; [reflexivity|].
  run_monad. split; split_run; reflexivity.
Qed.

Lemma no_crop_ignores_the_detector_witness :
  let id := fun p : pixel => p in
  let run := fun v =>
    Analyzer.calculate_plant_percentage resize_nearest id id default_analyzer
      v "a.jpg"%string false None false fresh in
  run (world_with photo_after [(0, 0, 1, 1)])
  = run (world_without_weights photo_after).
Proof.
  intros id run.
  exact (proj1 (no_crop_ignores_the_detector resize_nearest id id
                  default_analyzer (world_with photo_after [(0, 0, 1, 1)])
                  (world_without_weights photo_after) "a.jpg"%string None false fresh
                  eq_refl eq_refl eq_refl)).
Defined.

Lemma enhance_image_rectangular (bgr2hsv hsv2bgr : pixel -> pixel)
    (img out : image) (brightness contrast saturation : pyfloat) :
  enhance_image bgr2hsv hsv2bgr img brightness contrast saturation = Ok out ->
  rectangular out = rectangular img /\ size out = size img.
Proof.
  intros H. apply enhance_image_shape in H.
  split; [now apply rectangular_by_lengths | now apply size_by_lengths].
Qed.

Lemma enhance_image_returns (bgr2hsv hsv2bgr : pixel -> pixel)
    (img : image) (brightness contrast saturation : pyfloat) :
  (0 < size img)%nat ->
  exists out,
    enhance_image bgr2hsv hsv2bgr img brightness contrast saturation = Ok out.
Proof.
  intros Hsize. rewrite enhance_image_outcome.
  destruct (Qeq_bool saturation 1); [eexists; reflexivity|].
  destruct (Nat.eqb_spec (size img) 0) as [E|_]; [lia|].
  eexists; reflexivity.
Qed.

Section CalculateFacts.

Variable bgr2hsv hsv2bgr : pixel -> pixel.
Variable crop_front_panel :
  world -> string -> option string -> M (image * option string).
Variable logger : level -> message -> M unit.
Variable self : PlantAnalyzer.
Variable w : world.
Variable image_path : string.
Variable img : image.

Hypothesis file_exists : path_exists w image_path = true.
Hypothesis file_reads : imread w image_path = Some img.
Hypothesis img_rectangular : rectangular img = true.
Hypothesis img_has_pixels : (0 < size img)%nat.

(** With a cropper that returns rectangular images, what
    [calculate_plant_percentage] returns is a percentage. *)
Lemma calculate_in_range (do_crop : bool) (enhance_params : option params)
    (save_debug : bool) :
  (forall o, yields (crop_front_panel w image_path o)
                    (fun r => rectangular (fst r) = true)) ->
  yields (calculate_plant_percentage bgr2hsv hsv2bgr crop_front_panel logger
            self w image_path do_crop enhance_params save_debug)
         (fun p => (0 <= p)%Q /\ (p <= 100)%Q).
Proof.
  intros Hcrop. unfold calculate_plant_percentage. rewrite file_exists.
  simpl negb. cbv iota.
  eapply yields_bind; [apply yields_anything | intros _ _].
  apply yields_bind with (Q := fun im => rectangular im = true).
  { destruct do_crop.
    - eapply yields_bind; [apply Hcrop|]. intros r Hr. now apply yields_ret.
    - rewrite file_reads. now apply yields_ret. }
  intros im Him.
  apply yields_bind with (Q := fun im' => rectangular im' = true).
  { destruct enhance_params as [[|kv d]|]; try now apply yields_ret.
    eapply yields_bind; [apply yields_anything | intros _ _].
    apply yields_bind with (Q := fun im' => rectangular im' = true).
    - apply yields_lift. intros out Hout.
      apply enhance_image_rectangular in Hout. destruct Hout as [Hr _].
      now rewrite Hr.
    - intros out Hout.
      eapply yields_bind; [apply yields_anything | intros _ _].
      now apply yields_ret. }
  intros im' Him'.
  apply yields_bind with (Q := fun p => (0 <= p)%Q /\ (p <= 100)%Q).
  { apply yields_lift. intros p Hp.
    now apply (plant_percentage_yields_range bgr2hsv self im'). }
  intros p Hp.
  destruct (Nat.eqb (height im' * width im') 0); [now apply yields_ret|].
  eapply yields_bind; [apply yields_anything | intros _ _].
  now apply yields_ret.
Qed.

(** Without debug files, with a logger and a cropper that return, it
    returns. *)
Lemma calculate_succeeds (do_crop : bool) (enhance_params : option params) :
  (forall lvl msg, succeeds (logger lvl msg) (fun _ => True)) ->
  succeeds (crop_front_panel w image_path None)
           (fun r => rectangular (fst r) = true /\ (0 < size (fst r))%nat) ->
  succeeds (calculate_plant_percentage bgr2hsv hsv2bgr crop_front_panel logger
              self w image_path do_crop enhance_params false)
           (fun p => (0 <= p)%Q /\ (p <= 100)%Q).
Proof.
  intros Hlog Hcrop. unfold calculate_plant_percentage. rewrite file_exists.
  simpl negb. cbv iota.
  eapply succeeds_bind; [apply Hlog | intros _ _].
  apply succeeds_bind
    with (Q := fun im => rectangular im = true /\ (0 < size im)%nat).
  { destruct do_crop.
    - eapply succeeds_bind; [apply Hcrop|]. intros r Hr. now apply succeeds_ret.
    - rewrite file_reads. now apply succeeds_ret. }
  intros im [Him Hpix].
  apply succeeds_bind
    with (Q := fun im' => rectangular im' = true /\ (0 < size im')%nat).
  { destruct enhance_params as [[|kv d]|]; try now apply succeeds_ret.
    eapply succeeds_bind; [apply Hlog | intros _ _].
    destruct (enhance_image_returns bgr2hsv hsv2bgr im
                (dict_get (kv :: d) "brightness" 0%Q)
                (dict_get (kv :: d) "contrast" 0%Q)
                (dict_get (kv :: d) "saturation" 1%Q) Hpix) as [out Hout].
    rewrite Hout.
    apply enhance_image_rectangular in Hout. destruct Hout as [Hr Hs].
    apply succeeds_bind
      with (Q := fun im' => rectangular im' = true /\ (0 < size im')%nat).
    - apply succeeds_lift. rewrite Hr, Hs. now split.
    - intros im' Him'.
      apply succeeds_bind with (Q := fun _ => True);
        [now apply succeeds_ret|].
      intros _ _. now apply succeeds_ret. }
  intros im' [Him' Hpix'].
  destruct (plant_percentage_in_range bgr2hsv self im' Him' Hpix')
    as [q [Hq Hrange]].
  rewrite Hq.
  apply succeeds_bind with (Q := fun p => (0 <= p)%Q /\ (p <= 100)%Q).
  { now apply succeeds_lift. }
  intros p Hp.
  destruct (Nat.eqb (height im' * width im') 0); [now apply succeeds_ret|].
  eapply succeeds_bind; [apply Hlog | intros _ _].
  now apply succeeds_ret.
Qed.

End CalculateFacts.

(** X18. A readable picture measured without debug files.  For a file
    that exists and reads as a rectangular image with pixels, and a
    [cv2.resize] that returns the requested shape,
    [calculate_plant_percentage] of [analyzer.py] with [save_debug] off
    returns a percentage in [0, 100] from every state, with or without
    cropping and for all enhancement parameters, whatever the detector
    does.  With any flags, whatever either module returns is in
    [0, 100]. *)
Theorem measurement_in_range
    (resize : image -> nat -> nat -> image)
    (resize_shape :
       forall c new_w new_h, has_shape (resize c new_w new_h) new_h new_w)
    (bgr2hsv hsv2bgr : pixel -> pixel) (self : PlantAnalyzer) (w : world)
    (image_path : string) (do_crop : bool) (enhance_params : option params)
    (save_debug : bool) (img : image) :
  path_exists w image_path = true ->
  imread w image_path = Some img ->
  rectangular img = true -> (0 < size img)%nat ->
  succeeds (Analyzer.calculate_plant_percentage resize bgr2hsv hsv2bgr self w
              image_path do_crop enhance_params false)
           (fun p => (0 <= p)%Q /\ (p <= 100)%Q)
  /\ yields (Analyzer.calculate_plant_percentage resize bgr2hsv hsv2bgr
               self w image_path do_crop enhance_params save_debug)
            (fun p => (0 <= p)%Q /\ (p <= 100)%Q)
  /\ yields (PlantAnalysis.calculate_plant_percentage resize bgr2hsv hsv2bgr
               self w image_path do_crop enhance_params save_debug)
            (fun p => (0 <= p)%Q /\ (p <= 100)%Q).
Proof.
  intros Hex Hread Hrect Hsize.
  assert (Hpanel : forall boxes final,
            extractPanel resize img boxes = Ok final ->
            rectangular final = true /\ (0 < size final)%nat).
  { intros boxes final Hp.
    destruct (extractPanel_shape resize resize_shape img boxes Hrect Hsize)
      as [out [Hout [Hshape [Hpix _]]]].
    rewrite Hp in Hout. injection Hout as <-. now split. }
  split; [|split].
  - apply (calculate_succeeds bgr2hsv hsv2bgr (Cropper.crop_front_panel resize)
             emit self w image_path img Hex Hread Hrect Hsize).
    + apply emit_succeeds.
    + intros s.
      rewrite (cropper_result resize w image_path None s img Hread).
      destruct (detector_outcome w image_path s) as [boxes|e].
      * destruct (extractPanel_total resize img boxes) as [out Hout].
        rewrite Hout. exists (out, None). split; [reflexivity|].
        now apply (Hpanel boxes).
      * now exists (img, None).
  - apply (calculate_in_range bgr2hsv hsv2bgr (Cropper.crop_front_panel resize)
             emit self w image_path img Hex Hread Hrect).
    intros o s r. rewrite (cropper_result resize w image_path o s img Hread).
    destruct (detector_outcome w image_path s) as [boxes|e].
    + destruct (extractPanel resize img boxes) as [out|e] eqn:Hp;
        [|discriminate].
      intros H. injection H as <-. now apply (Hpanel boxes).
    + intros H. now injection H as <-.
  - apply (calculate_in_range bgr2hsv hsv2bgr (Crop.crop_front_panel resize)
             no_logger self w image_path img Hex Hread Hrect).
    intros o s r. rewrite (crop_result resize w image_path o s img Hread).
    destruct (detector_outcome w image_path s) as [boxes|e]; [|discriminate].
    simpl. destruct (extractPanel resize img boxes) as [out|e] eqn:Hp;
      [|discriminate].
    intros H. injection H as <-. now apply (Hpanel boxes).
Qed.

Lemma measurement_in_range_witness :
  let id := fun p : pixel => p in
  exists p,
    fst (Analyzer.calculate_plant_percentage resize_nearest id id
           default_analyzer (world_failing_inference photo_after) "a.jpg"%string
           true (Some [("contrast"%string, 1 # 5)]) false fresh) = Ok p
    /\ (0 <= p)%Q /\ (p <= 100)%Q.
Proof.
  intros id.
  apply (measurement_in_range resize_nearest resize_nearest_shape id id
           default_analyzer (world_failing_inference photo_after) "a.jpg"%string
           true (Some [("contrast"%string, 1 # 5)]) false photo_after);
    [reflexivity | reflexivity | reflexivity | vm_compute; lia].
Defined.

(** ** What a call leaves behind *)

Lemma no_logger_keeps (R : state -> state -> Prop) (lvl : level)
    (msg : message) :
  (forall s, R s s) -> keeps R (no_logger lvl msg).
Proof. intros Hrefl s. apply Hrefl. Qed.

Lemma writes_eq {A : Type} (c : M A) (n n' : list string) :
  writes c n -> n = n' -> writes c n'.
Proof. now intros H <-. Qed.

Lemma writes_then_raise {A B : Type} (c : M A) (e : exn) (n : list string) :
  writes (bind c (fun _ => @raise B e)) n.
Proof.
  intros s a s' E. unfold bind, raise in E.
  destruct (c s) as [[x|e'] s1]; discriminate.
Qed.

Lemma crop_writes (resize : image -> nat -> nat -> image) (w : world)
    (image_path : string) (out_path : option string) :
  writes (Crop.crop_front_panel resize w image_path out_path)
         (written_name out_path).
Proof.
  intros s [final o] s' E.
  pose proof (crop_files resize w image_path out_path s) as H.
  rewrite E in H. simpl in H. rewrite H, map_app. f_equal.
  unfold snapshot_of, written_name. now destruct (truthy_path out_path).
Qed.

Lemma no_logger_writes (lvl : level) (msg : message) :
  writes (no_logger lvl msg) [].
Proof. apply writes_ret. Qed.

Section WritingFacts.

Variable bgr2hsv hsv2bgr : pixel -> pixel.
Variable crop_front_panel :
  world -> string -> option string -> M (image * option string).
Variable logger : level -> message -> M unit.
Variable self : PlantAnalyzer.
Variable w : world.

Hypothesis logger_writes : forall lvl msg, writes (logger lvl msg) [].
Hypothesis cropper_writes :
  forall image_path o, writes (crop_front_panel w image_path o) (written_name o).

Lemma calculate_writes (image_path : string) (do_crop : bool)
    (enhance_params : option params) (save_debug : bool) :
  writes (calculate_plant_percentage bgr2hsv hsv2bgr crop_front_panel logger
            self w image_path do_crop enhance_params save_debug)
         (debug_names w image_path do_crop enhance_params save_debug).
Proof.
  unfold calculate_plant_percentage.
  destruct (negb (path_exists w image_path)); [apply writes_then_raise|].
  apply writes_eq
    with ([] ++ (if do_crop && save_debug
                 then ["debug_cropped_" ++ basename w image_path]%string
                 else [])
             ++ (match enhance_params with
                 | Some (_ :: _) =>
                     if save_debug
                     then ["debug_enhanced_" ++ basename w image_path]%string
                     else []
                 | _ => []
                 end) ++ [] ++ []);
    [|unfold debug_names; now rewrite !app_nil_r].
  apply writes_bind; [apply logger_writes | intros _].
  apply writes_bind.
  { destruct do_crop; simpl.
    - eapply writes_eq;
        [apply writes_bind; [apply cropper_writes | intros r; apply writes_ret]|].
      rewrite app_nil_r. now destruct save_debug.
    - destruct (imread w image_path); [apply writes_ret|].
      apply writes_then_raise. }
  intros img. apply writes_bind.
  { destruct enhance_params as [[|kv d]|]; try apply writes_ret.
    apply writes_eq
      with ([] ++ [] ++ (if save_debug
                         then ["debug_enhanced_" ++ basename w image_path]%string
                         else []) ++ []);
      [|now rewrite app_nil_r].
    apply writes_bind; [apply logger_writes | intros _].
    apply writes_bind; [apply writes_lift | intros out].
    apply writes_bind; [|intros _; apply writes_ret].
    destruct save_debug; [apply writes_imwrite | apply writes_ret]. }
  intros img'. apply writes_bind; [apply writes_lift | intros p].
  destruct (Nat.eqb (height img' * width img') 0); [apply writes_ret|].
  apply (writes_bind _ _ [] []); [apply logger_writes | intros _].
  apply writes_ret.
Qed.

Lemma compare_writes (img1_path img2_path : string) (do_crop : bool)
    (enhance_params : option params) :
  writes (compare_images bgr2hsv hsv2bgr crop_front_panel logger self w
            img1_path img2_path do_crop enhance_params)
         (debug_names w img1_path do_crop enhance_params true
          ++ debug_names w img2_path do_crop enhance_params true).
Proof.
  unfold compare_images.
  apply writes_eq
    with ([] ++ debug_names w img1_path do_crop enhance_params true
             ++ debug_names w img2_path do_crop enhance_params true ++ [] ++ []);
    [|now rewrite !app_nil_r].
  apply writes_bind; [apply logger_writes | intros _].
  apply writes_bind; [apply calculate_writes | intros p1].
  apply writes_bind; [apply calculate_writes | intros p2].
  apply writes_bind; [apply writes_lift | intros g]. apply writes_ret.
Qed.

End WritingFacts.

(** X20. The debug files of a measurement.  When
    [calculate_plant_percentage] of [plant_analysis.py] returns it has
    written, in this order and nothing else: [debug_cropped_<name>] if both
    [do_crop] and [save_debug] are set, then [debug_enhanced_<name>] if
    [save_debug] is set and [enhance_params] is a non-empty dictionary,
    [<name>] being the base name of the image path.  The older
    [calculate_green_percentage] writes no file. *)
Theorem debug_files_of_a_measurement
    (resize : image -> nat -> nat -> image) (bgr2hsv hsv2bgr : pixel -> pixel)
    (self : PlantAnalyzer) (w : world) (image_path : string) (do_crop : bool)
    (enhance_params : option params) (save_debug : bool) :
  writes (PlantAnalysis.calculate_plant_percentage resize bgr2hsv hsv2bgr self
            w image_path do_crop enhance_params save_debug)
         ((if do_crop && save_debug
           then ["debug_cropped_" ++ basename w image_path]%string else [])
          ++ (match enhance_params with
              | Some (_ :: _) =>
                  if save_debug
                  then ["debug_enhanced_" ++ basename w image_path]%string
                  else []
              | _ => []
              end))
  /\ writes (calculate_green_percentage resize bgr2hsv hsv2bgr self w
               image_path) [].
Proof.
  split.
  - apply (calculate_writes bgr2hsv hsv2bgr (Crop.crop_front_panel resize)
             no_logger self w no_logger_writes (crop_writes resize w)).
  - apply (calculate_writes bgr2hsv hsv2bgr (Crop.crop_front_panel resize)
             no_logger self w no_logger_writes (crop_writes resize w)
             image_path true None false).
Qed.

Lemma debug_files_of_a_measurement_witness :
  let id := fun p : pixel => p in
  exists p s',
    PlantAnalysis.calculate_plant_percentage resize_nearest id id
      default_analyzer world_two_photos "after.jpg"%string true
      (Some [("contrast"%string, 1 # 5)]) true fresh = (Ok p, s')
    /\ map fst (snapshots s')
       = ["debug_cropped_after.jpg"%string; "debug_enhanced_after.jpg"%string].
Proof.
  intros id.
  pose proof (proj1 (debug_files_of_a_measurement resize_nearest id id
                       default_analyzer world_two_photos "after.jpg"%string
                       true (Some [("contrast"%string, 1 # 5)]) true)
                fresh) as H.
  eexists. eexists. split; [vm_compute; reflexivity|].
  eapply H. vm_compute. reflexivity.
Defined.

(** X21. The four files [verify_full_pipeline.py] looks for.  When
    [compare_images] of [plant_analysis.py] returns, with cropping on and a
    non-empty [enhance_params], it has written exactly the cropped and the
    enhanced snapshot of the first image and then those of the second; the
    snapshots are named after the base names alone, so two images of the
    same base name share them. *)
Theorem comparison_debug_files
    (resize : image -> nat -> nat -> image) (bgr2hsv hsv2bgr : pixel -> pixel)
    (self : PlantAnalyzer) (w : world) (img1_path img2_path : string)
    (kv : string * pyfloat) (d : params) :
  writes (PlantAnalysis.compare_images resize bgr2hsv hsv2bgr self w
            img1_path img2_path true (Some (kv :: d)))
         ["debug_cropped_" ++ basename w img1_path;
          "debug_enhanced_" ++ basename w img1_path;
          "debug_cropped_" ++ basename w img2_path;
          "debug_enhanced_" ++ basename w img2_path]%string.
Proof.
  apply (compare_writes bgr2hsv hsv2bgr (Crop.crop_front_panel resize)
           no_logger self w no_logger_writes (crop_writes resize w)
           img1_path img2_path true (Some (kv :: d))).
Qed.

Lemma comparison_debug_files_witness :
  let id := fun p : pixel => p in
  exists r s',
    PlantAnalysis.compare_images resize_nearest id id default_analyzer
      world_two_photos "before.jpg"%string "after.jpg"%string true
      (Some [("contrast"%string, 1 # 5)]) fresh = (Ok r, s')
    /\ map fst (snapshots s')
       = ["debug_cropped_before.jpg"%string; "debug_enhanced_before.jpg"%string;
          "debug_cropped_after.jpg"%string; "debug_enhanced_after.jpg"%string].
Proof.
  intros id.
  pose proof (comparison_debug_files resize_nearest id id default_analyzer
                world_two_photos "before.jpg"%string "after.jpg"
                ("contrast"%string, 1 # 5) [] fresh) as H.
  eexists. eexists. split; [vm_compute; reflexivity|].
  eapply H. vm_compute. reflexivity.
Defined.

Lemma crop_same_files (resize : image -> nat -> nat -> image) (w : world)
    (image_path : string) :
  keeps same_files (Crop.crop_front_panel resize w image_path None)
  /\ keeps same_files (Cropper.crop_front_panel resize w image_path None).
Proof.
  split; intros s; unfold same_files.
  - rewrite crop_files.
    destruct (fst (Crop.crop_front_panel resize w image_path None s))
      as [[final o]|e]; apply app_nil_r.
  - rewrite cropper_files.
    destruct (imread w image_path); [|apply app_nil_r].
    destruct (detector_outcome w image_path s); [|apply app_nil_r].
    destruct (fst (Cropper.crop_front_panel resize w image_path None s))
      as [[final o]|e]; apply app_nil_r.
Qed.

(** X22. No debug file unless asked for.  With [save_debug] false,
    [calculate_plant_percentage] of either module writes no file, whether
    it returns or raises and whatever the other flags; neither does the
    older [calculate_green_percentage]. *)
Theorem no_debug_files_unless_asked
    (resize : image -> nat -> nat -> image) (bgr2hsv hsv2bgr : pixel -> pixel)
    (self : PlantAnalyzer) (w : world) (image_path : string) (do_crop : bool)
    (enhance_params : option params) :
  keeps same_files
    (PlantAnalysis.calculate_plant_percentage resize bgr2hsv hsv2bgr self w
       image_path do_crop enhance_params false)
  /\ keeps same_files
       (Analyzer.calculate_plant_percentage resize bgr2hsv hsv2bgr self w
          image_path do_crop enhance_params false)
  /\ keeps same_files
       (calculate_green_percentage resize bgr2hsv hsv2bgr self w image_path).
Proof.
  unfold calculate_green_percentage,
    PlantAnalysis.calculate_plant_percentage,
    Analyzer.calculate_plant_percentage, calculate_plant_percentage.
  repeat match goal with |- _ /\ _ => split end;
    keep_through same_files_refl same_files_trans
      ltac:(first [ apply same_files_emit
                  | apply crop_same_files
                  | apply (no_logger_keeps _ _ _ same_files_refl) ]).
Qed.

(** ** Growth and its summary *)

Lemma fl_sign (q : Q) :
  ((0 < fl q <-> 0 < q) /\ (fl q == 0 <-> q == 0) /\ (fl q < 0 <-> q < 0))%Q.
Proof.
  assert (Hprec : 1 <= 53) by lia.
  destruct (round_to_sign 53 Hprec q) as [Hn [Hz Hp]]. fold (fl q) in *.
  destruct (Q_dec q 0) as [[Hq|Hq]|Hq].
  - specialize (Hn Hq). repeat split; intros H; lra.
  - specialize (Hp Hq). repeat split; intros H; lra.
  - specialize (Hz Hq). repeat split; intros H; lra.
Qed.

Lemma float_lt_spec (a b : pyfloat) : float_lt a b = true <-> (a < b)%Q.
Proof.
  unfold float_lt. rewrite negb_true_iff. split.
  - intros H. apply Qnot_le_lt. intros Hle. apply Qle_bool_iff in Hle.
    congruence.
  - intros H. destruct (Qle_bool b a) eqn:E; [|reflexivity].
    apply Qle_bool_iff in E. exfalso. apply (Qlt_irrefl a).
    eapply Qlt_le_trans; eassumption.
Qed.

Lemma Qminus_sign (a b : Q) :
  ((0 < a - b <-> b < a) /\ (a - b == 0 <-> a == b) /\ (a - b < 0 <-> a < b))%Q.
Proof. repeat split; intros H; lra. Qed.

(** The relative growth has the sign of the absolute growth. *)
Lemma relative_sign (a before : Q) :
  (0 < before)%Q ->
  let r := fmul (fl (a / before)) (float_of_int 100) in
  ((0 < r <-> 0 < a) /\ (r == 0 <-> a == 0) /\ (r < 0 <-> a < 0))%Q.
Proof.
  intros Hb r. subst r. unfold fmul.
  assert (Hinv : (0 < / before)%Q) by now apply Qinv_lt_0_compat.
  assert (H100 : (float_of_int 100 == 100)%Q) by apply fl_hundred.
  destruct (fl_sign (fl (a / before) * float_of_int 100)) as [Rp [Rz Rn]].
  destruct (fl_sign (a / before)) as [Dp [Dz Dn]].
  set (d := fl (a / before)) in *. set (x := (a / before)%Q) in *.
  assert (Hx : ((0 < x <-> 0 < a) /\ (x == 0 <-> a == 0)
                /\ (x < 0 <-> a < 0))%Q).
  { assert (Ha : (a == x * before)%Q) by (unfold x; field; lra).
    repeat split; intros H; nra. }
  destruct Hx as [Xp [Xz Xn]].
  rewrite Rp, Rz, Rn, H100, <- Xp, <- Xz, <- Xn, <- Dp, <- Dz, <- Dn.
  repeat split; intros H; lra.
Qed.

(** X23. The growth figures keep the direction of the change.  For every
    two percentages the growth arithmetic returns; the absolute growth is
    positive, zero or negative exactly as the second percentage is above,
    equal to or below the first, so rounding never hides or invents a
    change; with a positive first percentage the relative growth has the
    same sign; and for percentages in [0, 100] the absolute growth is in
    [-100, 100]. *)
Theorem growth_keeps_the_direction (before after : pyfloat) :
  exists a r,
    growth before after = Ok (a, r)
    /\ ((0 < a <-> before < after) /\ (a == 0 <-> after == before)
        /\ (a < 0 <-> after < before))%Q
    /\ ((0 < before)%Q ->
        ((0 < r <-> before < after) /\ (r == 0 <-> after == before)
         /\ (r < 0 <-> after < before))%Q)
    /\ ((0 <= before)%Q -> (before <= 100)%Q ->
        (0 <= after)%Q -> (after <= 100)%Q ->
        (- (100) <= a)%Q /\ (a <= 100)%Q).
Proof.
  destruct (fl_sign (after - before)) as [Ap [Az An]].
  destruct (Qminus_sign after before) as [Sp [Sz Sn]].
  fold (fsub after before) in Ap, Az, An.
  assert (Ha : ((0 < fsub after before <-> before < after)
                /\ (fsub after before == 0 <-> after == before)
                /\ (fsub after before < 0 <-> after < before))%Q).
  { rewrite Ap, Az, An, Sp, Sz, Sn. repeat split; auto. }
  assert (Hbound : (0 <= before)%Q -> (before <= 100)%Q ->
                   (0 <= after)%Q -> (after <= 100)%Q ->
                   (- (100) <= fsub after before)%Q
                   /\ (fsub after before <= 100)%Q).
  { intros B0 B1 A0 A1. unfold fsub. split.
    - apply Qle_trans with (fl (- (100))); [vm_compute; discriminate|].
      apply fl_monotone.
      setoid_replace (- (100))%Q with (0 - 100)%Q by ring.
      unfold Qminus. apply Qplus_le_compat; [exact A0|].
      now apply Qopp_le_compat.
    - apply Qle_trans with (fl 100); [|vm_compute; discriminate].
      apply fl_monotone.
      setoid_replace 100%Q with (100 - 0)%Q by ring.
      unfold Qminus. apply Qplus_le_compat; [exact A1|].
      now apply Qopp_le_compat. }
  unfold growth. destruct (float_lt 0%Q before) eqn:Hlt.
  - rewrite truediv_positive by exact Hlt. simpl.
    eexists. eexists. split; [reflexivity|]. split; [exact Ha|].
    split; [|exact Hbound]. intros Hb.
    destruct (relative_sign (fsub after before) before Hb) as [Rp [Rz Rn]].
    destruct Ha as [Hp [Hz Hn]].
    rewrite Rp, Rz, Rn, Hp, Hz, Hn. repeat split; auto.
  - simpl. eexists. eexists. split; [reflexivity|]. split; [exact Ha|].
    split; [|exact Hbound]. intros Hb. apply float_lt_spec in Hb. congruence.
Qed.

(** X24. The summary of the window reads the direction of the change.  On
    the growth figures of any two percentages the window reports positive
    growth exactly when the second is above the first, a negative change
    exactly when it is below, and "stable" only when they are equal; from a
    first percentage of 0 or less every growth, however large, is assessed
    as "moderate", because the relative growth is then 0. *)
Theorem summary_reads_the_direction (before after : pyfloat) :
  exists a r,
    growth before after = Ok (a, r)
    /\ ((before < after)%Q <->
        exists assess, growth_summary a r = PositiveGrowth assess)
    /\ ((after < before)%Q <-> growth_summary a r = NegativeChange)
    /\ ((after == before)%Q <-> growth_summary a r = Stable)
    /\ ((before <= 0)%Q -> (before < after)%Q ->
        growth_summary a r = PositiveGrowth Moderate).
Proof.
  destruct (fl_sign (after - before)) as [Ap [Az An]].
  destruct (Qminus_sign after before) as [Sp [Sz Sn]].
  fold (fsub after before) in Ap, Az, An.
  set (a := fsub after before) in *.
  assert (Hg : exists r, growth before after = Ok (a, r)
                         /\ ((before <= 0)%Q -> r = 0%Q)).
  { unfold growth. fold a. destruct (float_lt 0%Q before) eqn:Hlt.
    - rewrite truediv_positive by exact Hlt. simpl. eexists.
      split; [reflexivity|]. intros Hb. apply float_lt_spec in Hlt.
      exfalso. apply (Qlt_irrefl 0). eapply Qlt_le_trans; eassumption.
    - simpl. eexists. split; [reflexivity | reflexivity]. }
  destruct Hg as [r [Hg Hr0]]. exists a, r. split; [exact Hg|].
  unfold growth_summary.
  destruct (float_lt 0%Q a) eqn:Hpos; [|destruct (float_lt a 0%Q) eqn:Hneg].
  - apply float_lt_spec in Hpos. assert (Hba : (before < after)%Q) by tauto.
    split; [split; [eauto | auto]|].
    split; [split; [|discriminate]|].
    { intros H. exfalso. apply (Qlt_irrefl before).
      eapply Qlt_trans; eassumption. }
    split; [split; [|discriminate]|].
    { intros H. exfalso. rewrite H in Hba. now apply (Qlt_irrefl before). }
    intros Hb _. rewrite (Hr0 Hb). reflexivity.
  - apply float_lt_spec in Hneg. assert (Hab : (after < before)%Q) by tauto.
    split; [split; [|intros [? ?]; discriminate]|].
    { intros H. exfalso. apply (Qlt_irrefl before).
      eapply Qlt_trans; eassumption. }
    split; [split; auto|].
    split; [split; [|discriminate]|].
    { intros H. exfalso. rewrite H in Hab. now apply (Qlt_irrefl before). }
    intros _ H. exfalso. apply (Qlt_irrefl before).
    eapply Qlt_trans; eassumption.
  - assert (Hn1 : ~ (0 < a)%Q)
      by (intros H; apply float_lt_spec in H; congruence).
    assert (Hn2 : ~ (a < 0)%Q)
      by (intros H; apply float_lt_spec in H; congruence).
    assert (Heq : (after == before)%Q).
    { apply Sz, Az. destruct (Q_dec a 0) as [[H|H]|H]; tauto. }
    split; [split; [tauto | intros [? ?]; discriminate]|].
    split; [split; [tauto | discriminate]|].
    split; [split; auto|]. tauto.
Qed.

(** ** Results do not depend on the history or on the debugging *)

Lemma same_detector_refl (w : world) (s : state) : same_detector w s s.
Proof. now intros p. Qed.

Lemma same_detector_trans (w : world) (s1 s2 s3 : state) :
  same_detector w s1 s2 -> same_detector w s2 s3 -> same_detector w s1 s3.
Proof. intros H1 H2 p. now rewrite H1. Qed.

Lemma same_detector_sym (w : world) (s s' : state) :
  same_detector w s s' -> same_detector w s' s.
Proof. intros H p. now rewrite H. Qed.

Lemma same_detector_cache (w : world) (s s' : state) :
  model_cache s' = model_cache s -> same_detector w s s'.
Proof. intros H p. symmetry. now apply detector_outcome_same_cache. Qed.

Lemma same_detector_loaded (w : world) (s s' : state) :
  model_cache s' = cache_after w s -> same_detector w s s'.
Proof. intros H p. symmetry. now apply detector_outcome_cache. Qed.

Lemma detector_kept_emit (w : world) (lvl : level) (msg : message) :
  keeps (same_detector w) (emit lvl msg).
Proof. intros s. now apply same_detector_cache. Qed.

Lemma detector_kept_imwrite (w : world) (path : string) (img : image) :
  keeps (same_detector w) (imwrite path img).
Proof. intros s. now apply same_detector_cache. Qed.

Lemma detector_kept_crop (resize : image -> nat -> nat -> image) (w : world)
    (image_path : string) (out_path : option string) :
  keeps (same_detector w) (Crop.crop_front_panel resize w image_path out_path)
  /\ keeps (same_detector w)
           (Cropper.crop_front_panel resize w image_path out_path).
Proof.
  split; intros s; destruct (imread w image_path) as [img|] eqn:Hread.
  - apply same_detector_loaded. now apply (crop_cache _ _ _ _ _ img).
  - apply same_detector_cache.
    now apply (crop_unreadable_state resize w image_path out_path s).
  - apply same_detector_loaded. now apply (cropper_cache _ _ _ _ _ img).
  - apply same_detector_cache.
    now apply (crop_unreadable_state resize w image_path out_path s).
Qed.

Section Outcomes.

Variable w : world.
Context {A B : Type}.

Lemma same_outcome_ret (a : A) : same_outcome w (ret a) (ret a).
Proof. now intros s s' H. Qed.

Lemma same_outcome_raise (e : exn) : same_outcome w (@raise A e) (raise e).
Proof. now intros s s' H. Qed.

Lemma same_outcome_lift (r : result A) : same_outcome w (lift r) (lift r).
Proof. now intros s s' H. Qed.

Lemma same_outcome_bind (c c' : M A) (k k' : A -> M B) :
  same_outcome w c c' -> (forall a, same_outcome w (k a) (k' a)) ->
  same_outcome w (bind c k) (bind c' k').
Proof.
  intros Hc Hk s s' Hs. unfold bind. destruct (Hc s s' Hs) as [Hr Hd].
  destruct (c s) as [[a|e] s1], (c' s') as [[a'|e'] s1']; simpl in *;
    try discriminate.
  - injection Hr as <-. now apply Hk.
  - injection Hr as <-. now split.
Qed.

(** Two computations that return the same value and leave the detector as
    it was. *)
Lemma same_outcome_quiet (c c' : M A) (a : A) :
  (forall s, fst (c s) = Ok a) -> (forall s, fst (c' s) = Ok a) ->
  keeps (same_detector w) c -> keeps (same_detector w) c' ->
  same_outcome w c c'.
Proof.
  intros Hc Hc' Kc Kc' s s' Hs. split; [now rewrite Hc, Hc'|].
  eapply same_detector_trans; [apply same_detector_sym, Kc|].
  eapply same_detector_trans; [exact Hs | apply Kc'].
Qed.

End Outcomes.

Lemma same_outcome_emit (w : world) (lvl : level) (msg : message) :
  same_outcome w (emit lvl msg) (emit lvl msg).
Proof.
  apply same_outcome_quiet with (a := tt); try reflexivity;
    apply detector_kept_emit.
Qed.

Lemma same_outcome_no_logger (w : world) (lvl : level) (msg : message) :
  same_outcome w (no_logger lvl msg) (no_logger lvl msg).
Proof. apply same_outcome_ret. Qed.

Lemma same_outcome_debug_write (w : world) (path : string) (img : image)
    (b b' : bool) :
  same_outcome w (if b then imwrite path img else ret tt)
                 (if b' then imwrite path img else ret tt).
Proof.
  apply same_outcome_quiet with (a := tt).
  - now destruct b.
  - now destruct b'.
  - destruct b; intros s; now apply same_detector_cache.
  - destruct b'; intros s; now apply same_detector_cache.
Qed.

Lemma fst_bind_ret {A B : Type} (c : M A) (f : A -> B) (s : state) :
  fst (bind c (fun r => ret (f r)) s) = rbind (fst (c s)) (fun r => Ok (f r))
  /\ snd (bind c (fun r => ret (f r)) s) = snd (c s).
Proof. unfold bind, ret. now destruct (c s) as [[a|e] s1]. Qed.

Lemma same_outcome_crop (resize : image -> nat -> nat -> image) (w : world)
    (image_path : string) (o o' : option string) :
  same_outcome w
    (bind (Crop.crop_front_panel resize w image_path o) (fun r => ret (fst r)))
    (bind (Crop.crop_front_panel resize w image_path o') (fun r => ret (fst r)))
  /\ same_outcome w
       (bind (Cropper.crop_front_panel resize w image_path o)
             (fun r => ret (fst r)))
       (bind (Cropper.crop_front_panel resize w image_path o')
             (fun r => ret (fst r))).
Proof.
  split; intros s s' Hs.
  - destruct (fst_bind_ret (Crop.crop_front_panel resize w image_path o)
                (@fst image (option string)) s) as [-> ->].
    destruct (fst_bind_ret (Crop.crop_front_panel resize w image_path o')
                (@fst image (option string)) s') as [-> ->].
    split.
    + destruct (imread w image_path) as [img|] eqn:Hread.
      * rewrite !(crop_result resize w image_path _ _ img Hread), (Hs image_path).
        destruct (detector_outcome w image_path s') as [boxes|e]; [|reflexivity].
        simpl. now destruct (extractPanel resize img boxes).
      * unfold Crop.crop_front_panel. now rewrite Hread.
    + eapply same_detector_trans;
        [apply same_detector_sym, detector_kept_crop|].
      eapply same_detector_trans; [exact Hs | apply detector_kept_crop].
  - destruct (fst_bind_ret (Cropper.crop_front_panel resize w image_path o)
                (@fst image (option string)) s) as [-> ->].
    destruct (fst_bind_ret (Cropper.crop_front_panel resize w image_path o')
                (@fst image (option string)) s') as [-> ->].
    split.
    + destruct (imread w image_path) as [img|] eqn:Hread.
      * rewrite !(cropper_result resize w image_path _ _ img Hread),
          (Hs image_path).
        destruct (detector_outcome w image_path s') as [boxes|e]; [|reflexivity].
        now destruct (extractPanel resize img boxes).
      * unfold Cropper.crop_front_panel. rewrite Hread. now run_monad.
    + eapply same_detector_trans;
        [apply same_detector_sym, detector_kept_crop|].
      eapply same_detector_trans; [exact Hs | apply detector_kept_crop].
Qed.

Section CalculateOutcome.

Variable bgr2hsv hsv2bgr : pixel -> pixel.
Variable crop_front_panel :
  world -> string -> option string -> M (image * option string).
Variable logger : level -> message -> M unit.
Variable self : PlantAnalyzer.
Variable w : world.

Hypothesis logger_outcome :
  forall lvl msg, same_outcome w (logger lvl msg) (logger lvl msg).
Hypothesis crop_outcome :
  forall image_path o o',
    same_outcome w
      (bind (crop_front_panel w image_path o) (fun r => ret (fst r)))
      (bind (crop_front_panel w image_path o') (fun r => ret (fst r))).

Lemma calculate_outcome (image_path : string) (do_crop : bool)
    (enhance_params : option params) (save_debug save_debug' : bool) :
  same_outcome w
    (calculate_plant_percentage bgr2hsv hsv2bgr crop_front_panel logger self w
       image_path do_crop enhance_params save_debug)
    (calculate_plant_percentage bgr2hsv hsv2bgr crop_front_panel logger self w
       image_path do_crop enhance_params save_debug').
Proof.
  unfold calculate_plant_percentage.
  destruct (negb (path_exists w image_path)).
  { apply same_outcome_bind; [apply logger_outcome | intros _].
    apply same_outcome_raise. }
  apply same_outcome_bind; [apply logger_outcome | intros _].
  apply same_outcome_bind.
  { destruct do_crop; [apply crop_outcome|].
    destruct (imread w image_path); [apply same_outcome_ret|].
    apply same_outcome_bind; [apply logger_outcome | intros _].
    apply same_outcome_raise. }
  intros img. apply same_outcome_bind.
  { destruct enhance_params as [[|kv d]|]; try apply same_outcome_ret.
    apply same_outcome_bind; [apply logger_outcome | intros _].
    apply same_outcome_bind; [apply same_outcome_lift | intros out].
    apply same_outcome_bind; [apply same_outcome_debug_write | intros _].
    apply same_outcome_ret. }
  intros img'. apply same_outcome_bind; [apply same_outcome_lift | intros p].
  destruct (Nat.eqb (height img' * width img') 0); [apply same_outcome_ret|].
  apply same_outcome_bind; [apply logger_outcome | intros _].
  apply same_outcome_ret.
Qed.

End CalculateOutcome.

Lemma calculate_keeps_detector
    (resize : image -> nat -> nat -> image) (bgr2hsv hsv2bgr : pixel -> pixel)
    (self : PlantAnalyzer) (w : world) (image_path : string) (do_crop : bool)
    (enhance_params : option params) (save_debug : bool) :
  keeps (same_detector w)
    (PlantAnalysis.calculate_plant_percentage resize bgr2hsv hsv2bgr self w
       image_path do_crop enhance_params save_debug)
  /\ keeps (same_detector w)
       (Analyzer.calculate_plant_percentage resize bgr2hsv hsv2bgr self w
          image_path do_crop enhance_params save_debug).
Proof.
  unfold PlantAnalysis.calculate_plant_percentage,
    Analyzer.calculate_plant_percentage, calculate_plant_percentage.
  split;
    keep_through (same_detector_refl w) (same_detector_trans w)
      ltac:(first [ apply detector_kept_emit | apply detector_kept_imwrite
                  | apply detector_kept_crop
                  | apply (no_logger_keeps _ _ _ (same_detector_refl w)) ]).
Qed.

Lemma calculate_same_outcome
    (resize : image -> nat -> nat -> image) (bgr2hsv hsv2bgr : pixel -> pixel)
    (self : PlantAnalyzer) (w : world) (image_path : string) (do_crop : bool)
    (enhance_params : option params) (save_debug save_debug' : bool) :
  same_outcome w
    (PlantAnalysis.calculate_plant_percentage resize bgr2hsv hsv2bgr self w
       image_path do_crop enhance_params save_debug)
    (PlantAnalysis.calculate_plant_percentage resize bgr2hsv hsv2bgr self w
       image_path do_crop enhance_params save_debug')
  /\ same_outcome w
       (Analyzer.calculate_plant_percentage resize bgr2hsv hsv2bgr self w
          image_path do_crop enhance_params save_debug)
       (Analyzer.calculate_plant_percentage resize bgr2hsv hsv2bgr self w
          image_path do_crop enhance_params save_debug').
Proof.
  split; apply calculate_outcome.
  - apply same_outcome_no_logger.
  - intros p o o'. apply same_outcome_crop.
  - apply same_outcome_emit.
  - intros p o o'. apply same_outcome_crop.
Qed.

(** X25. A measurement depends neither on the debugging nor on what was
    measured before.  In one world and in both modules: what
    [calculate_plant_percentage] returns for a path with [save_debug] on,
    it returns with [save_debug] off as well; and what it returns or
    raises after an earlier measurement made without debug files (of any
    path, with or without cropping and enhancement) is what it returns or
    raises without that measurement: the log and the detector cache do not
    reach the result. *)
Theorem measurement_ignores_debugging_and_history
    (resize : image -> nat -> nat -> image) (bgr2hsv hsv2bgr : pixel -> pixel)
    (self : PlantAnalyzer) (w : world) (image_path earlier : string)
    (do_crop do_crop0 : bool) (enhance_params enhance_params0 : option params)
    (save_debug : bool) (s : state) :
  let old := PlantAnalysis.calculate_plant_percentage resize bgr2hsv hsv2bgr
               self w in
  let new := Analyzer.calculate_plant_percentage resize bgr2hsv hsv2bgr
               self w in
  (forall p, fst (old image_path do_crop enhance_params true s) = Ok p ->
             fst (old image_path do_crop enhance_params false s) = Ok p)
  /\ (forall p, fst (new image_path do_crop enhance_params true s) = Ok p ->
                fst (new image_path do_crop enhance_params false s) = Ok p)
  /\ fst (old image_path do_crop enhance_params save_debug
            (snd (old earlier do_crop0 enhance_params0 false s)))
     = fst (old image_path do_crop enhance_params save_debug s)
  /\ fst (new image_path do_crop enhance_params save_debug
            (snd (new earlier do_crop0 enhance_params0 false s)))
     = fst (new image_path do_crop enhance_params save_debug s).
Proof.
  intros old new. subst old new. cbv beta.
  destruct (calculate_same_outcome resize bgr2hsv hsv2bgr self w image_path
              do_crop enhance_params true false) as [Ho Hn].
  destruct (calculate_same_outcome resize bgr2hsv hsv2bgr self w image_path
              do_crop enhance_params save_debug save_debug) as [Ho' Hn'].
  destruct (calculate_keeps_detector resize bgr2hsv hsv2bgr self w earlier
              do_crop0 enhance_params0 false) as [Ko Kn].
  split.
  { intros p Hp. rewrite <- Hp. symmetry. apply Ho, same_detector_refl. }
  split.
  { intros p Hp. rewrite <- Hp. symmetry. apply Hn, same_detector_refl. }
  split.
  - apply Ho', same_detector_sym, Ko.
  - apply Hn', same_detector_sym, Kn.
Qed.

Lemma growth_of_equal (p : pyfloat) :
  exists a r, growth p p = Ok (a, r) /\ (a == 0)%Q /\ (r == 0)%Q.
Proof.
  assert (Ha : (fsub p p == 0)%Q).
  { unfold fsub. apply fl_sign. lra. }
  unfold growth. destruct (float_lt 0%Q p) eqn:Hlt.
  - rewrite truediv_positive by exact Hlt. simpl.
    eexists. eexists. split; [reflexivity|]. split; [exact Ha|].
    apply float_lt_spec in Hlt.
    now apply (relative_sign (fsub p p) p Hlt).
  - simpl. eexists. eexists. split; [reflexivity|].
    split; [exact Ha | reflexivity].
Qed.

Lemma growth_summary_stable (a r : pyfloat) :
  (a == 0)%Q -> growth_summary a r = Stable.
Proof.
  intros Ha. unfold growth_summary.
  destruct (float_lt 0%Q a) eqn:H1.
  { apply float_lt_spec in H1. lra. }
  destruct (float_lt a 0%Q) eqn:H2; [|reflexivity].
  apply float_lt_spec in H2. lra.
Qed.

Section SelfComparison.

Variable bgr2hsv hsv2bgr : pixel -> pixel.
Variable crop_front_panel :
  world -> string -> option string -> M (image * option string).
Variable logger : level -> message -> M unit.
Variable self : PlantAnalyzer.
Variable w : world.
Variable image_path : string.
Variable do_crop : bool.
Variable enhance_params : option params.

Let measure : M pyfloat :=
  calculate_plant_percentage bgr2hsv hsv2bgr crop_front_panel logger self w
    image_path do_crop enhance_params true.

Hypothesis measure_outcome : same_outcome w measure measure.
Hypothesis measure_keeps : keeps (same_detector w) measure.

Lemma compare_with_itself (s s' : state) (r : comparison) :
  compare_images bgr2hsv hsv2bgr crop_front_panel logger self w
    image_path image_path do_crop enhance_params s = (Ok r, s') ->
  image1_plant_percentage r = image2_plant_percentage r
  /\ (growth_absolute r == 0)%Q /\ (growth_relative r == 0)%Q
  /\ growth_summary (growth_absolute r) (growth_relative r) = Stable.
Proof.
  unfold compare_images. fold measure. unfold bind at 1.
  destruct (logger INFO (MsgComparing image_path image_path) s)
    as [[[]|e] s0]; [|discriminate].
  unfold bind at 1.
  pose proof (measure_keeps s0) as Hk.
  destruct (measure s0) as [[p1|e] s1] eqn:E1; [|discriminate].
  unfold bind at 1.
  destruct (measure_outcome s0 s1 Hk) as [Hsame _]. rewrite E1 in Hsame.
  destruct (measure s1) as [[p2|e] s2] eqn:E2; [|discriminate].
  simpl in Hsame. injection Hsame as <-.
  destruct (growth_of_equal p1) as [a [g [Hg [Ha Hr]]]].
  unfold bind, lift, ret. rewrite Hg. intros H. injection H as <- _. simpl.
  repeat split; try assumption. now apply growth_summary_stable.
Qed.

End SelfComparison.

(** X26. A picture compared with itself has not grown.  Whenever
    [compare_images] returns for twice the same path, in either module and
    for any flags and enhancement, the two percentages are the same number,
    the absolute and the relative growth are 0, and the window's summary
    reads "stable": the second measurement is not disturbed by the first
    one's log, files or loaded detector. *)
Theorem self_comparison_is_stable
    (resize : image -> nat -> nat -> image) (bgr2hsv hsv2bgr : pixel -> pixel)
    (self : PlantAnalyzer) (w : world) (image_path : string) (do_crop : bool)
    (enhance_params : option params) :
  let stable := fun r : comparison =>
    image1_plant_percentage r = image2_plant_percentage r
    /\ (growth_absolute r == 0)%Q /\ (growth_relative r == 0)%Q
    /\ growth_summary (growth_absolute r) (growth_relative r) = Stable in
  yields (PlantAnalysis.compare_images resize bgr2hsv hsv2bgr self w
            image_path image_path do_crop enhance_params) stable
  /\ yields (Analyzer.compare_images resize bgr2hsv hsv2bgr self w
               image_path image_path do_crop enhance_params) stable.
Proof.
  intros stable. subst stable.
  split; intros s r E.
  - destruct (PlantAnalysis.compare_images resize bgr2hsv hsv2bgr self w
                image_path image_path do_crop enhance_params s)
      as [r0 s'] eqn:Hrun.
    simpl in E. subst r0.
    apply (compare_with_itself bgr2hsv hsv2bgr (Crop.crop_front_panel resize)
             no_logger self w image_path do_crop enhance_params
             (proj1 (calculate_same_outcome resize bgr2hsv hsv2bgr self w
                       image_path do_crop enhance_params true true))
             (proj1 (calculate_keeps_detector resize bgr2hsv hsv2bgr self w
                       image_path do_crop enhance_params true))
             s s' r Hrun).
  - destruct (Analyzer.compare_images resize bgr2hsv hsv2bgr self w
                image_path image_path do_crop enhance_params s)
      as [r0 s'] eqn:Hrun.
    simpl in E. subst r0.
    apply (compare_with_itself bgr2hsv hsv2bgr
             (Cropper.crop_front_panel resize)
             emit self w image_path do_crop enhance_params
             (proj2 (calculate_same_outcome resize bgr2hsv hsv2bgr self w
                       image_path do_crop enhance_params true true))
             (proj2 (calculate_keeps_detector resize bgr2hsv hsv2bgr self w
                       image_path do_crop enhance_params true))
             s s' r Hrun).
Qed.

Lemma self_comparison_is_stable_witness :
  let id := fun p : pixel => p in
  exists r s',
    Analyzer.compare_images resize_nearest id id default_analyzer
      world_two_photos "after.jpg"%string "after.jpg"%string true None fresh = (Ok r, s')
    /\ image1_plant_percentage r = image2_plant_percentage r
    /\ (growth_absolute r == 0)%Q /\ (growth_relative r == 0)%Q
    /\ growth_summary (growth_absolute r) (growth_relative r) = Stable.
Proof.
  intros id.
  pose proof (proj2 (self_comparison_is_stable resize_nearest id id
                       default_analyzer world_two_photos "after.jpg"%string true None)
                fresh) as H.
  eexists. eexists. split; [vm_compute; reflexivity|].
  apply H. vm_compute. reflexivity.
Defined.

Lemma growth_keeps_zero_guard (before after : pyfloat) :
  exists a r, growth before after = Ok (a, r).
Proof.
  unfold growth. destruct (float_lt 0%Q before) eqn:Hlt.
  - rewrite truediv_positive by exact Hlt. simpl. eauto.
  - simpl. eauto.
Qed.

(** X27. A comparison stops at the first failure.  Once its opening log
    line is written, [compare_images] raises exactly when one of its two
    measurements raises, with that exception and the state that
    measurement left: after a failure of the first image the second is not
    looked at, and the growth arithmetic adds no failure of its own. *)
Theorem comparison_stops_at_first_failure
    (bgr2hsv hsv2bgr : pixel -> pixel)
    (crop_front_panel :
       world -> string -> option string -> M (image * option string))
    (logger : level -> message -> M unit)
    (self : PlantAnalyzer) (w : world) (img1_path img2_path : string)
    (do_crop : bool) (enhance_params : option params) (s s0 : state) :
  logger INFO (MsgComparing img1_path img2_path) s = (Ok tt, s0) ->
  let measure := fun p =>
    calculate_plant_percentage bgr2hsv hsv2bgr crop_front_panel logger self w
      p do_crop enhance_params true in
  let run := compare_images bgr2hsv hsv2bgr crop_front_panel logger self w
               img1_path img2_path do_crop enhance_params s in
  match measure img1_path s0 with
  | (Raise e, s1) => run = (Raise e, s1)
  | (Ok before, s1) =>
      match measure img2_path s1 with
      | (Raise e, s2) => run = (Raise e, s2)
      | (Ok after, s2) =>
          exists a r,
            growth before after = Ok (a, r)
            /\ run = (Ok (mkComparison before after a r), s2)
      end
  end.
Proof.
  intros Hlog measure run. subst measure run. cbv beta.
  destruct (calculate_plant_percentage bgr2hsv hsv2bgr crop_front_panel logger
              self w img1_path do_crop enhance_params true s0)
    as [[before|e] s1] eqn:E1.
  - destruct (calculate_plant_percentage bgr2hsv hsv2bgr crop_front_panel
                logger self w img2_path do_crop enhance_params true s1)
      as [[after|e] s2] eqn:E2.
    + destruct (growth_keeps_zero_guard before after) as [a [r Hg]].
      exists a, r. split; [exact Hg|].
      unfold compare_images, bind, lift, ret.
      rewrite Hlog. cbv beta iota. rewrite E1. cbv beta iota.
      rewrite E2. cbv beta iota. now rewrite Hg.
    + unfold compare_images, bind.
      rewrite Hlog. cbv beta iota. rewrite E1. cbv beta iota. now rewrite E2.
  - unfold compare_images, bind. rewrite Hlog. cbv beta iota. now rewrite E1.
Qed.

Lemma comparison_stops_at_first_failure_witness :
  let id := fun p : pixel => p in
  let w := mkWorld (fun p => String.eqb p "before.jpg"%string) (fun p => p)
                   (fun _ => Some photo_before) true (Ok tt) (fun _ => Ok []) in
  exists s2,
    Analyzer.compare_images resize_nearest id id default_analyzer w
      "before.jpg"%string "after.jpg"%string false None fresh
    = (Raise FileNotFoundError, s2)
    /\ map fst (log s2) = [INFO; INFO; INFO; ERROR].
Proof.
  intros id w. eexists. split.
  - exact (comparison_stops_at_first_failure id id
             (Cropper.crop_front_panel resize_nearest) emit default_analyzer w
             "before.jpg"%string "after.jpg"%string false None fresh _ eq_refl).
  - vm_compute. reflexivity.
Defined.

(** ** The window and the logger *)

(** X28. Window geometry.  [_center_window] keeps the size of the window
    and, for a window no larger than the screen, places it on the screen
    with left and right margins, and top and bottom margins, that differ by
    at most one pixel.  [_on_window_resize] ignores events of other
    widgets; for the root window it sets a square preview of 200, 240 or
    280 pixels, never smaller for a wider window. *)
Theorem window_geometry (screen_w screen_h width height : Z)
    (new_width wider : Z) (preview_size : Z * Z) :
  0 <= width <= screen_w -> 0 <= height <= screen_h ->
  new_width <= wider ->
  (let '(gw, gh, x, y) := center_window screen_w screen_h width height in
   gw = width /\ gh = height
   /\ 0 <= x /\ x + width <= screen_w
   /\ 0 <= y /\ y + height <= screen_h
   /\ Z.abs ((screen_w - (x + width)) - x) <= 1
   /\ Z.abs ((screen_h - (y + height)) - y) <= 1)
  /\ on_window_resize false new_width preview_size = preview_size
  /\ (let '(pw, ph) := on_window_resize true new_width preview_size in
      pw = ph /\ (pw = 200 \/ pw = 240 \/ pw = 280)
      /\ pw <= fst (on_window_resize true wider preview_size)).
Proof.
  intros Hw Hh Hle. split; [|split; [reflexivity|]].
  - unfold center_window. cbv zeta.
    pose proof (Z.div_mod screen_w 2 ltac:(lia)).
    pose proof (Z.mod_pos_bound screen_w 2 ltac:(lia)).
    pose proof (Z.div_mod screen_h 2 ltac:(lia)).
    pose proof (Z.mod_pos_bound screen_h 2 ltac:(lia)).
    pose proof (Z.div_mod width 2 ltac:(lia)).
    pose proof (Z.mod_pos_bound width 2 ltac:(lia)).
    pose proof (Z.div_mod height 2 ltac:(lia)).
    pose proof (Z.mod_pos_bound height 2 ltac:(lia)).
    repeat split; lia.
  - unfold on_window_resize.
    destruct (new_width <? 1000) eqn:E1; [|destruct (new_width <? 1200) eqn:E2];
      (destruct (wider <? 1000) eqn:E3; [|destruct (wider <? 1200) eqn:E4]);
      simpl; repeat split; auto; lia.
Qed.

Lemma window_geometry_witness :
  (let '(gw, gh, x, y) := center_window 1920 1080 901 650 in
   gw = 901 /\ gh = 650
   /\ 0 <= x /\ x + 901 <= 1920
   /\ 0 <= y /\ y + 650 <= 1080
   /\ Z.abs ((1920 - (x + 901)) - x) <= 1
   /\ Z.abs ((1080 - (y + 650)) - y) <= 1)
  /\ on_window_resize false 1100 (280, 280) = (280, 280)
  /\ (let '(pw, ph) := on_window_resize true 1100 (280, 280) in
      pw = ph /\ (pw = 200 \/ pw = 240 \/ pw = 280)
      /\ pw <= fst (on_window_resize true 1300 (280, 280))).
Proof.
  apply (window_geometry 1920 1080 901 650 1100 1300 (280, 280)); lia.
Defined.

Lemma set_logger_same (name : string) (lg : logger_obj) (r : registry) :
  set_logger name lg r name = lg.
Proof. unfold set_logger. now rewrite String.eqb_refl. Qed.

Lemma set_logger_other (name n : string) (lg : logger_obj) (r : registry) :
  n <> name -> set_logger name lg r n = r n.
Proof.
  intros H. unfold set_logger. destruct (String.eqb_spec n name); congruence.
Qed.

(** X29. [setup_logging] never stacks handlers.  A logger without handlers
    gets level INFO and exactly one handler on standard output; a logger
    that has handlers is left as it is, level included; no other logger is
    touched; so a second call changes nothing, and after any call the
    logger has one handler if it had none and the ones it had otherwise. *)
Theorem setup_logging_is_idempotent (name n : string) (r : registry) :
  setup_logging name (setup_logging name r) n = setup_logging name r n
  /\ (n <> name -> setup_logging name r n = r n)
  /\ (logger_handlers (r name) = [] ->
      setup_logging name r name = mkLogger (Some INFO) [stdout_handler])
  /\ (logger_handlers (r name) <> [] -> setup_logging name r name = r name)
  /\ length (logger_handlers (setup_logging name r name))
     = Nat.max 1 (length (logger_handlers (r name))).
Proof.
  unfold setup_logging.
  destruct (logger_handlers (r name)) as [|h hs] eqn:Hh.
  - rewrite set_logger_same. simpl.
    split; [reflexivity|]. split; [apply set_logger_other|].
    split; [reflexivity|]. split; [congruence | reflexivity].
  - simpl. rewrite ?Hh. split; [reflexivity|]. split; [reflexivity|].
    split; [discriminate|]. split; [reflexivity|].
    rewrite ?Hh. simpl. lia.
Qed.
